(** * A shallow embedding of the retrieval / citation / evaluation core

    The development follows the Python sources module by module:

    - [Py]                       the few built-ins the code relies on
    - [Re]                       the fragment of [re] used by the citation code
    - [Metrics]                  [src/eval/metrics.py]
    - [StructuredCitations]      [src/rag/structured_citations.py]
    - [Chunker]                  [src/ingest/chunker.py]
    - [Faiss], [VectorStore]     [src/rag/vector_store.py]
    - [ApiRetry]                 [src/utils/api_retry.py]
    - [CompareBaselineEnhanced]  [src/eval/compare_baseline_enhanced.py]

    Conventions.  Python [int] is [Z]; [len] is a [nat]; [str] is [string]
    (one [ascii] per code point, so texts are restricted to code points
    below 256); [float] is idealised as [Q]; a Python [set] of strings is a
    [gset string]; a [dict] keyed by strings is a [gmap string _].  An
    exception is a value of [Py.exn] carried by [Py.Raise]. *)

From Stdlib Require Import ZArith QArith List String Ascii Bool Lia DecimalString
  Sorted Permutation DecimalPos DecimalN FinFun Qminmax Lqa.
From stdpp Require Import gmap strings list.
Import ListNotations.

#[local] Open Scope Z_scope.

(* ===================================================================== *)
(** * Python built-ins                                                    *)
(* ===================================================================== *)

Module Py.

(** The exceptions that the modelled code can raise. *)
Inductive exn : Type :=
| IndexError
| TypeError
| AssertionError
| FileNotFoundError
| RuntimeError.

(** Outcome of a call: a value or a raised exception. *)
Inductive res (E A : Type) : Type :=
| Ret (a : A)
| Raise (e : E).
Arguments Ret {E A} a.
Arguments Raise {E A} e.

Definition bind {E A B} (m : res E A) (k : A -> res E B) : res E B :=
  match m with
  | Ret a => k a
  | Raise e => Raise e
  end.

(** [str.isspace] / the class [\s] of a [str] pattern, on code points
    below 256: TAB..CR, FS..US, SPACE, NEL and NBSP. *)
Definition isspace (c : ascii) : bool :=
  let n := N_of_ascii c in
  ((9 <=? n) && (n <=? 13) || (28 <=? n) && (n <=? 32)
   || (n =? 133) || (n =? 160))%N.

Fixpoint lstrip (s : list ascii) : list ascii :=
  match s with
  | c :: s' => if isspace c then lstrip s' else s
  | [] => []
  end.

(** [s.strip()] *)
Definition strip (s : list ascii) : list ascii :=
  rev (lstrip (rev (lstrip s))).

(** [a / b] on two lengths (true division). *)
Definition truediv (a b : nat) : Q :=
  (inject_Z (Z.of_nat a) / inject_Z (Z.of_nat b))%Q.

(** [x < y] on floats. *)
Definition flt (x y : Q) : bool := negb (Qle_bool y x).

(** [min(x, y)]: the first argument unless the second is strictly
    smaller. *)
Definition min (x y : Q) : Q := if flt y x then y else x.

(** Normalisation of a slice bound against a length [n]. *)
Definition clamp (n i : Z) : Z :=
  if i <? 0 then Z.max 0 (i + n) else Z.min i n.

(** [l[a:b]] *)
Definition slice {A} (l : list A) (a b : Z) : list A :=
  let n := Z.of_nat (length l) in
  let a' := clamp n a in
  let b' := clamp n b in
  firstn (Z.to_nat (b' - a')) (skipn (Z.to_nat a') l).

(** [l[:b]] *)
Definition slice_to {A} (l : list A) (b : Z) : list A := slice l 0 b.

(** [l[i]]: negative indices count from the end; out of range raises. *)
Definition index {A} (l : list A) (i : Z) : res exn A :=
  let n := Z.of_nat (length l) in
  let j := if i <? 0 then i + n else i in
  if (j <? 0) || (n <=? j) then Raise IndexError
  else match nth_error l (Z.to_nat j) with
       | Some x => Ret x
       | None => Raise IndexError
       end.

(** Left padding of a digit string with ["0"] up to [w] characters. *)
Definition zfill (w : nat) (s : string) : string :=
  string_of_list_ascii (repeat "0"%char (w - String.length s)%nat)
  +:+ s.

(** The format spec [{n:03d}]. *)
Definition fmt_03d (n : Z) : string :=
  if n <? 0
  then "-" +:+ zfill 2 (NilZero.string_of_uint (N.to_uint (Z.to_N (- n))))
  else zfill 3 (NilZero.string_of_uint (N.to_uint (Z.to_N n))).

End Py.

Notation "'let*' x ':=' m 'in' k" := (Py.bind m (fun x => k))
  (at level 10, x name, m at level 200, k at level 200).

(* ===================================================================== *)
(** * The regular expressions of the citation code                        *)
(* ===================================================================== *)

(** The two citation modules use three patterns, all of the shape
    "literal, greedy class repetition, capturing group around a greedy
    class repetition".  The matcher below is a backtracking matcher for
    that fragment with Python's greedy semantics: a repetition first
    takes as many characters as it can and gives them back one at a time
    when the rest of the pattern fails. *)

Module Re.

Inductive atom : Type :=
| Lit (c : ascii)                 (* an escaped literal, e.g. [\(]   *)
| Star (p : ascii -> bool)        (* [p*]                            *)
| GroupPlus (p : ascii -> bool).  (* [(p+)], a capturing group       *)

Definition pattern := list atom.

Section Greedy.
Context {R : Type} (p : ascii -> bool)
        (k : list ascii -> list ascii -> option R).

(** [greedy p k taken s]: extend [taken] with characters of [s] in
    class [p], longest first, until the continuation [k] accepts. *)
Fixpoint greedy (taken s : list ascii) : option R :=
  match s with
  | c :: s' =>
      if p c then
        match greedy (taken ++ [c]) s' with
        | Some r => Some r
        | None => k taken s
        end
      else k taken s
  | [] => k taken s
  end.
End Greedy.

(** Match [pat] at the start of [s]; the result is the list of captured
    groups and the unconsumed rest. *)
Fixpoint match_here (pat : pattern) (s : list ascii)
  : option (list (list ascii) * list ascii) :=
  match pat with
  | [] => Some ([], s)
  | Lit c :: pat' =>
      match s with
      | x :: s' => if Ascii.eqb x c then match_here pat' s' else None
      | [] => None
      end
  | Star p :: pat' => greedy p (fun _ s' => match_here pat' s') [] s
  | GroupPlus p :: pat' =>
      greedy p
        (fun g s' =>
           match g with
           | [] => None
           | _ :: _ =>
               match match_here pat' s' with
               | Some (gs, r) => Some (g :: gs, r)
               | None => None
               end
           end) [] s
  end.

(** [re.findall]: non-overlapping matches, scanning left to right.
    [skip] counts the characters of the current match still to be
    stepped over. *)
Fixpoint findall_from (pat : pattern) (skip : nat) (s : list ascii)
  : list (list (list ascii)) :=
  match s with
  | [] =>
      match skip, match_here pat [] with
      | O, Some (gs, _) => [gs]
      | _, _ => []
      end
  | _ :: s' =>
      match skip with
      | S n => findall_from pat n s'
      | O =>
          match match_here pat s with
          | Some (gs, rest) =>
              gs :: findall_from pat (length s - length rest - 1)%nat s'
          | None => findall_from pat 0 s'
          end
      end
  end.

Definition findall (pat : pattern) (s : string) : list (list string) :=
  map (map string_of_list_ascii)
      (findall_from pat 0 (list_ascii_of_string s)).

(** [re.search]: the groups of the leftmost match, if any. *)
Fixpoint search_from (pat : pattern) (s : list ascii)
  : option (list (list ascii)) :=
  match match_here pat s with
  | Some (gs, _) => Some gs
  | None =>
      match s with
      | [] => None
      | _ :: s' => search_from pat s'
      end
  end.

Definition search (pat : pattern) (s : string) : option (list (list ascii)) :=
  search_from pat (list_ascii_of_string s).

(** Character classes. *)
Definition word (c : ascii) : bool :=            (* [a-z0-9_] *)
  let n := N_of_ascii c in
  ((97 <=? n) && (n <=? 122) || (48 <=? n) && (n <=? 57) || (n =? 95))%N.
Definition not_comma (c : ascii) : bool :=       (* [^,] *)
  negb (Ascii.eqb c ","%char).
Definition not_rparen (c : ascii) : bool :=      (* [^)] *)
  negb (Ascii.eqb c ")"%char).

(** [\(([a-z0-9_]+),\s*([a-z0-9_]+)\)] *)
Definition citation_pattern : pattern :=
  [Lit "("%char; GroupPlus word; Lit ","%char; Star Py.isspace;
   GroupPlus word; Lit ")"%char].

(** [\(([^,]+),\s*([^)]+)\)] *)
Definition parse_pattern : pattern :=
  [Lit "("%char; GroupPlus not_comma; Lit ","%char; Star Py.isspace;
   GroupPlus not_rparen; Lit ")"%char].

(** [\(([^,]+)] *)
Definition source_pattern : pattern :=
  [Lit "("%char; GroupPlus not_comma].

(** Vocabulary for stating facts about matches.  [stops p s]: the next
    character of [s], if any, is outside class [p]; [all_in p s]: every
    character of [s] is in class [p]; [token w]: [w] is a non-empty run
    of [a-z0-9_]. *)
Definition stops (p : ascii -> bool) (s : list ascii) : Prop :=
  match s with
  | [] => True
  | c :: _ => p c = false
  end.

Definition all_in (p : ascii -> bool) (s : list ascii) : Prop :=
  Forall (fun c => p c = true) s.

Definition token (w : list ascii) : Prop := w <> [] /\ all_in word w.

End Re.

(* ===================================================================== *)
(** * Chunks and query results                                            *)
(* ===================================================================== *)

(** A chunk dictionary.  [similarity_score] is absent until a search
    attaches it. *)
Record chunk : Type := Chunk {
  chunk_id : string;
  source_id : string;
  text : string;
  token_count : Z;
  start_char : Z;
  end_char : Z;
  similarity_score : option Q
}.

(** The part of a result dictionary read by the citation code. *)
Record query_result : Type := QueryResult {
  answer : string;
  retrieved_chunks : list chunk
}.

(** [{c['chunk_id'] for c in chunks}] *)
Definition chunk_id_set (chunks : list chunk) : gset string :=
  list_to_set (map chunk_id chunks).

(** [f"({m[0]}, {m[1]})"] *)
Definition render (src cid : string) : string :=
  "(" +:+ src +:+ ", " +:+ cid +:+ ")".

(** [_extract_citations] (the same body in both modules).  [findall]
    yields one two-group tuple per match. *)
Definition cite_pairs (text : string) : list (string * string) :=
  flat_map (fun m => match m with
                     | [a; b] => [(a, b)]
                     | _ => []
                     end)
           (Re.findall Re.citation_pattern text).

Definition rend (m : string * string) : string := render (fst m) (snd m).

Definition extract_citations (text : string) : list string :=
  map rend (cite_pairs text).

(** [match = re.search(r'\(([^,]+),\s*([^)]+)\)', cit)] followed by
    [match.group(2).strip()]. *)
Definition parse_chunk_id (cit : string) : option string :=
  match Re.search Re.parse_pattern cit with
  | Some [_; g2] => Some (string_of_list_ascii (Py.strip g2))
  | _ => None
  end.

(** Vocabulary for the citation claims, independent of the code's set:
    [retrieved result cid] says that some retrieved chunk of [result] has
    the id [cid]; [cited_valid] and [cited_invalid] split the cited pairs
    of the answer by that test, keeping order and duplicates. *)
Definition retrieved (result : query_result) (cid : string) : bool :=
  existsb (fun c => String.eqb (chunk_id c) cid) (retrieved_chunks result).

Definition cited_valid (result : query_result) : list (string * string) :=
  List.filter (fun m => retrieved result (snd m)) (cite_pairs (answer result)).

Definition cited_invalid (result : query_result) : list (string * string) :=
  List.filter (fun m => negb (retrieved result (snd m)))
              (cite_pairs (answer result)).

(** A cited pair is a pair of tokens. *)
Definition token_pair (m : string * string) : Prop :=
  exists w1 w2,
    m = (string_of_list_ascii w1, string_of_list_ascii w2)
    /\ Re.token w1 /\ Re.token w2.

(** The example of the specification: one retrieved chunk, an answer that
    cites it and one chunk that was not retrieved. *)
Definition example_result : query_result :=
  {| answer := "REM sleep consolidates memory (src, a); naps do not (src, z).";
     retrieved_chunks :=
       [ {| chunk_id := "a"; source_id := "src"; text := "";
            token_count := 0; start_char := 0; end_char := 0;
            similarity_score := None |} ] |}.

(* ===================================================================== *)
(** * src/eval/metrics.py                                                 *)
(* ===================================================================== *)

Module Metrics.

(** The dictionary returned by [citation_precision]; the key
    ['invalid_citations'] is absent on the early return. *)
Record precision_report : Type := Report {
  total_citations : nat;
  valid_citations : nat;
  invalid_citations : option nat;
  precision : Q;
  invalid : list string
}.

(** One iteration of the [for cit in citations] loop over the pair of
    accumulators [(valid, invalid)]. *)
Definition classify_step (ids : gset string)
           (acc : list string * list string) (cit : string)
  : list string * list string :=
  match parse_chunk_id cit with
  | Some cid =>
      if bool_decide (cid ∈ ids)
      then (fst acc ++ [cit], snd acc)
      else (fst acc, snd acc ++ [cit])
  | None => acc
  end.

Definition classify (ids : gset string) (citations : list string)
  : list string * list string :=
  fold_left (classify_step ids) citations ([], []).

Definition citation_precision (result : query_result) : precision_report :=
  let retrieved_chunk_ids := chunk_id_set (retrieved_chunks result) in
  let citations := extract_citations (answer result) in
  match citations with
  | [] =>
      {| total_citations := 0; valid_citations := 0;
         invalid_citations := None; precision := 0; invalid := [] |}
  | _ :: _ =>
      let '(valid, invalid) := classify retrieved_chunk_ids citations in
      {| total_citations := length citations;
         valid_citations := length valid;
         invalid_citations := Some (length invalid);
         precision := Py.truediv (length valid) (length citations);
         invalid := invalid |}
  end.

End Metrics.

(* ===================================================================== *)
(** * src/rag/structured_citations.py                                     *)
(* ===================================================================== *)

Module StructuredCitations.

(** The keys that [enhance_answer] adds to the result.  The rendered
    reference list depends on the corpus manifest only and is left out;
    the number of distinct cited sources is kept. *)
Record enhancement : Type := Enhancement {
  enhanced : bool;
  citation_validation_passed : bool;
  invalid_citations : list string;
  num_unique_sources : nat
}.

(** One iteration of the validation loop over [invalid]. *)
Definition validate_step (chunk_ids : gset string)
           (invalid : list string) (cit : string) : list string :=
  match parse_chunk_id cit with
  | Some cid =>
      if bool_decide (cid ∈ chunk_ids) then invalid else invalid ++ [cit]
  | None => invalid
  end.

(** One iteration of the loop collecting [source_ids]. *)
Definition source_step (source_ids : gset string) (cit : string)
  : gset string :=
  match Re.search Re.source_pattern cit with
  | Some [g1] => {[ string_of_list_ascii g1 ]} ∪ source_ids
  | _ => source_ids
  end.

Definition enhance_answer (result : query_result) : enhancement :=
  let citations := extract_citations (answer result) in
  let chunk_ids := chunk_id_set (retrieved_chunks result) in
  let invalid := fold_left (validate_step chunk_ids) citations [] in
  let source_ids := fold_left source_step citations ∅ in
  {| enhanced := true;
     citation_validation_passed := (length invalid =? 0)%nat;
     invalid_citations := invalid;
     num_unique_sources := size source_ids |}.

End StructuredCitations.

(* ===================================================================== *)
(** * src/ingest/chunker.py                                               *)
(* ===================================================================== *)

Module Chunker.

(** The two attributes of a [TextChunker] that [chunk_text] reads. *)
Record TextChunker : Type := {
  chunk_size : Z;
  overlap : Z
}.

(** State of the [while] loop: the chunks appended so far, the window
    start and the chunk number.  [windows] is a ghost trace of the token
    windows [(start, end)], one per chunk; the code does not store it. *)
Record loop_state : Type := {
  chunks : list chunk;
  windows : list (Z * Z);
  start : Z;
  chunk_num : Z
}.

Section WithTokenizer.
(** The tokenizer ([tiktoken]) is an external collaborator. *)
Context {token : Type}.
Variable encode : string -> list token.
Variable decode : list token -> string.

Definition strlen (s : string) : Z := Z.of_nat (String.length s).

(** [min(start + self.chunk_size, len(tokens))] *)
Definition window_end (self : TextChunker) (tokens : list token)
           (start : Z) : Z :=
  Z.min (start + chunk_size self) (Z.of_nat (length tokens)).

(** The dictionary appended for the window starting at [start]. *)
Definition make_chunk (self : TextChunker) (tokens : list token)
           (source_id : string) (start chunk_num : Z) : chunk :=
  let end_ := window_end self tokens start in
  let chunk_tokens := Py.slice tokens start end_ in
  let chunk_text := decode chunk_tokens in
  let start_char := strlen (decode (Py.slice_to tokens start)) in
  let end_char := strlen (decode (Py.slice_to tokens end_)) in
  {| chunk_id := source_id +:+ "_chunk_" +:+ Py.fmt_03d chunk_num;
     source_id := source_id;
     text := chunk_text;
     token_count := Z.of_nat (length chunk_tokens);
     start_char := start_char;
     end_char := end_char;
     similarity_score := None |}.

(** The body of the loop. *)
Definition step (self : TextChunker) (tokens : list token)
           (source_id : string) (st : loop_state) : loop_state :=
  {| chunks := chunks st ++
       [make_chunk self tokens source_id (start st) (chunk_num st)];
     windows := windows st ++
       [(start st, window_end self tokens (start st))];
     start := start st + (chunk_size self - overlap self);
     chunk_num := chunk_num st + 1 |}.

(** [while start < len(tokens): ...]; [None] when [fuel] loop tests
    were not enough to leave the loop. *)
Fixpoint loop (fuel : nat) (self : TextChunker) (tokens : list token)
         (source_id : string) (st : loop_state) : option loop_state :=
  match fuel with
  | O => None
  | S fuel' =>
      if start st <? Z.of_nat (length tokens)
      then loop fuel' self tokens source_id (step self tokens source_id st)
      else Some st
  end.

Definition run (fuel : nat) (self : TextChunker) (text source_id : string)
  : option loop_state :=
  loop fuel self (encode text) source_id
       {| chunks := []; windows := []; start := 0; chunk_num := 1 |}.

(** [TextChunker.chunk_text] *)
Definition chunk_text (fuel : nat) (self : TextChunker)
           (text source_id : string) : option (list chunk) :=
  option_map chunks (run fuel self text source_id).

(** The token windows of the chunks of [chunk_text]. *)
Definition chunk_windows (fuel : nat) (self : TextChunker)
           (text source_id : string) : option (list (Z * Z)) :=
  option_map windows (run fuel self text source_id).

End WithTokenizer.

(** A byte-level tokenizer, used to run the chunker on concrete texts. *)
Definition byte_encode : string -> list ascii := list_ascii_of_string.
Definition byte_decode : list ascii -> string := string_of_list_ascii.

(** Number of token positions that two windows have in common: the size
    of the intersection of [[fst w1, snd w1)] and [[fst w2, snd w2)],
    which is 0 when they are disjoint. *)
Definition shared (w1 w2 : Z * Z) : Z :=
  Z.max 0 (Z.min (snd w1) (snd w2) - Z.max (fst w1) (fst w2)).

(** The stride of the window. *)
Definition stride (self : TextChunker) : Z := chunk_size self - overlap self.

(** The [j]-th window and chunk of a run that is at [start0] with chunk
    number [num0]. *)
Definition window_from {token} (self : TextChunker) (tokens : list token)
           (start0 : Z) (j : nat) : Z * Z :=
  let a := start0 + Z.of_nat j * stride self in
  (a, window_end self tokens a).

Definition chunk_from {token} (decode : list token -> string)
           (self : TextChunker) (tokens : list token) (source_id : string)
           (start0 num0 : Z) (j : nat) : chunk :=
  make_chunk decode self tokens source_id
             (start0 + Z.of_nat j * stride self) (num0 + Z.of_nat j).

(** The overlap sentence as worded: two consecutive windows share
    exactly [overlap] tokens unless the later one is the final window. *)
Definition overlap_exact_but_last (self : TextChunker)
           (ws : list (Z * Z)) : Prop :=
  forall i w1 w2,
    nth_error ws i = Some w1 -> nth_error ws (S i) = Some w2 ->
    (S (S i) < length ws)%nat ->
    shared w1 w2 = overlap self.

End Chunker.

(* ===================================================================== *)
(** * The nearest-neighbour index behind src/rag/vector_store.py          *)
(* ===================================================================== *)

(** [faiss.IndexFlatIP] is a third-party library.  The model below follows
    its documented contract for an exhaustive inner-product index: a
    search returns exactly [k] slots per query, best score first; when the
    index holds fewer than [k] vectors the remaining slots carry the label
    [-1] and the score [-FLT_MAX].  Its Python wrapper asserts that the
    width of an array handed to it is the dimension of the index, and that
    [k > 0].  The order of equal scores is not part of that contract; the
    model keeps insertion order. *)

Module Np.

(** A two-dimensional array of floats, as [numpy] holds a batch of
    embeddings: [shape[1]] and the rows, each of [shape[1]] entries.  An
    array without rows still has its width. *)
Record ndarray : Type := {
  shape1 : Z;
  rows : list (list Q)
}.

(** [a.shape[0]] *)
Definition shape0 (a : ndarray) : nat := length (rows a).

(** Every row has [shape[1]] entries. *)
Definition well_formed (a : ndarray) : Prop :=
  Forall (fun v => Z.of_nat (length v) = shape1 a) (rows a).

End Np.

Module Faiss.

Record IndexFlatIP : Type := {
  d : Z;
  xb : list (list Q)
}.

Definition ntotal (idx : IndexFlatIP) : Z := Z.of_nat (length (xb idx)).

Definition inner_product (x y : list Q) : Q :=
  fold_left Qplus (map (fun p => (fst p * snd p)%Q) (combine x y)) 0%Q.

Definition neg_flt_max : Q :=
  (- inject_Z (2 ^ 128 - 2 ^ 104))%Q.

(** Insertion of a scored label behind every entry that scores at least
    as much. *)
Fixpoint insert_desc (e : Q * Z) (l : list (Q * Z)) : list (Q * Z) :=
  match l with
  | [] => [e]
  | h :: t => if Py.flt (fst h) (fst e) then e :: l else h :: insert_desc e t
  end.

Definition sort_desc (l : list (Q * Z)) : list (Q * Z) :=
  fold_left (fun acc e => insert_desc e acc) l [].

(** Every stored vector with its score against [q] and its label. *)
Definition scored (idx : IndexFlatIP) (q : list Q) : list (Q * Z) :=
  imap (fun i v => (inner_product q v, Z.of_nat i)) (xb idx).

(** [index.search(q, k)] for a single query row: the row of scores and
    the row of labels. *)
Definition search (idx : IndexFlatIP) (q : list Q) (k : nat)
  : Py.res Py.exn (list Q * list Z) :=
  if negb (Z.of_nat (length q) =? d idx) then Py.Raise Py.AssertionError
  else if negb (0 <? k)%nat then Py.Raise Py.AssertionError
  else
    let top := firstn k (sort_desc (scored idx q)) in
    let row := top ++ repeat (neg_flt_max, -1) (k - length top) in
    Py.Ret (map fst row, map snd row).

(** Scored labels in answer order: the earlier scores at least as much. *)
Definition best_first (a b : Q * Z) : Prop := (fst b <= fst a)%Q.

(** [index.add(x)] *)
Definition add (idx : IndexFlatIP) (x : Np.ndarray)
  : Py.res Py.exn IndexFlatIP :=
  if negb (Np.shape1 x =? d idx) then Py.Raise Py.AssertionError
  else Py.Ret {| d := d idx; xb := xb idx ++ Np.rows x |}.

End Faiss.

(* ===================================================================== *)
(** * src/rag/vector_store.py                                             *)
(* ===================================================================== *)

Module VectorStore.

Record t : Type := {
  dimension : Z;
  index : Faiss.IndexFlatIP;
  chunk_metadata : list chunk
}.

(** [VectorStore(dimension)] *)
Definition init (dimension : Z) : t :=
  {| dimension := dimension;
     index := {| Faiss.d := dimension; Faiss.xb := [] |};
     chunk_metadata := [] |}.

(** [add_chunks]: the two [assert]s on the shape of the array, then both
    collections grow. *)
Definition add_chunks (self : t) (chunks : list chunk)
           (embeddings : Np.ndarray) : Py.res Py.exn t :=
  if negb (Np.shape0 embeddings =? length chunks)%nat
  then Py.Raise Py.AssertionError
  else if negb (Np.shape1 embeddings =? dimension self)
  then Py.Raise Py.AssertionError
  else
    let* index' := Faiss.add (index self) embeddings in
    Py.Ret {| dimension := dimension self;
              index := index';
              chunk_metadata := chunk_metadata self ++ chunks |}.

(** The body of [for i, idx in enumerate(indices[0])]: copy the
    metadata entry at [idx] and attach the score at position [i]. *)
Fixpoint annotate (metadata : list chunk) (entries : list (Q * Z))
         (results : list chunk) : Py.res Py.exn (list chunk) :=
  match entries with
  | [] => Py.Ret results
  | (score, idx) :: rest =>
      let* c := Py.index metadata idx in
      annotate metadata rest
        (results ++
         [ {| chunk_id := chunk_id c; source_id := source_id c;
              text := text c; token_count := token_count c;
              start_char := start_char c; end_char := end_char c;
              similarity_score := Some score |} ])
  end.

(** [search]; the query is a single embedding (a one-dimensional array
    is reshaped to one row, and only row 0 of the answer is read). *)
Definition search (self : t) (query_embedding : list Q) (k : nat)
  : Py.res Py.exn (list chunk) :=
  let* si := Faiss.search (index self) query_embedding k in
  annotate (chunk_metadata self) (combine (fst si) (snd si)) [].

(** The two artifacts under [path]; [None] is a missing file. *)
Record disk : Type := {
  faiss_index : option Faiss.IndexFlatIP;
  metadata_json : option (list chunk)
}.

(** [save] *)
Definition save (self : t) : disk :=
  {| faiss_index := Some (index self);
     metadata_json := Some (chunk_metadata self) |}.

(** [load] *)
Definition load (self : t) (path : disk) : Py.res Py.exn t :=
  match faiss_index path with
  | None => Py.Raise Py.RuntimeError
  | Some idx =>
      match metadata_json path with
      | None => Py.Raise Py.FileNotFoundError
      | Some metadata =>
          Py.Ret {| dimension := Faiss.d idx;
                    index := idx;
                    chunk_metadata := metadata |}
      end
  end.

(** Two small stores and a stored pair used as concrete inputs: one
    vector with its chunk; two vectors with a single metadata entry. *)
Definition chunk0 : chunk :=
  {| chunk_id := "src_chunk_001"; source_id := "src"; text := "deep sleep";
     token_count := 2; start_char := 0; end_char := 10;
     similarity_score := None |}.

Definition one_vector_store : t :=
  {| dimension := 2;
     index := {| Faiss.d := 2; Faiss.xb := [[1%Q; 0%Q]] |};
     chunk_metadata := [chunk0] |}.

Definition mismatched_disk : disk :=
  {| faiss_index := Some {| Faiss.d := 2;
                            Faiss.xb := [[1%Q; 0%Q]; [0%Q; 1%Q]] |};
     metadata_json := Some [chunk0] |}.

(** [c] with the given score attached. *)
Definition with_score (c : chunk) (score : Q) : chunk :=
  {| chunk_id := chunk_id c; source_id := source_id c;
     text := text c; token_count := token_count c;
     start_char := start_char c; end_char := end_char c;
     similarity_score := Some score |}.

(** Best first: each score is at most the one before it. *)
Definition nonincreasing (l : list Q) : Prop :=
  Sorted (fun x y => (y <= x)%Q) l.

(** The scores attached to a list of results. *)
Definition scores (results : list chunk) : list Q :=
  flat_map (fun c => match similarity_score c with
                     | Some s => [s]
                     | None => []
                     end) results.

End VectorStore.

(* ===================================================================== *)
(** * src/utils/api_retry.py                                              *)
(* ===================================================================== *)

Module ApiRetry.

(** Exception classes.  In the SDK [RateLimitError] derives from
    [APIStatusError] and [APITimeoutError] from [APIConnectionError];
    the other status errors (bad request, internal server error, ...)
    are [APIStatusError] instances told apart by their status code.
    [OtherException] is any exception outside the SDK hierarchy. *)
Inductive exn_class : Type :=
| RateLimitError
| APIStatusError
| APITimeoutError
| APIConnectionError
| OtherException.

Definition class_eqb (a b : exn_class) : bool :=
  match a, b with
  | RateLimitError, RateLimitError
  | APIStatusError, APIStatusError
  | APITimeoutError, APITimeoutError
  | APIConnectionError, APIConnectionError
  | OtherException, OtherException => true
  | _, _ => false
  end.

(** [issubclass(a, b)] *)
Definition subclass (a b : exn_class) : bool :=
  class_eqb a b ||
  match a, b with
  | RateLimitError, APIStatusError => true
  | APITimeoutError, APIConnectionError => true
  | _, _ => false
  end.

(** An exception object: its class, its [status_code] attribute and the
    [status_code] of its [response] attribute, when present. *)
Record error : Type := {
  cls : exn_class;
  status_code : option Z;
  response_status : option Z
}.

(** [isinstance(error, classes)] for a tuple of classes. *)
Definition isinstance (e : error) (classes : list exn_class) : bool :=
  existsb (subclass (cls e)) classes.

(** [RETRYABLE_EXCEPTIONS]: empty when the SDK cannot be imported. *)
Definition RETRYABLE_EXCEPTIONS (sdk : bool) : list exn_class :=
  if sdk
  then [RateLimitError; APIStatusError; APITimeoutError; APIConnectionError]
  else [].

Definition RETRYABLE_STATUS_CODES : list Z := [429; 500; 502; 503].

(** [_status_code] *)
Definition _status_code (e : error) : option Z :=
  match status_code e with
  | Some code => Some code
  | None => response_status e
  end.

(** [is_retryable] *)
Definition is_retryable (sdk : bool) (e : error) : bool :=
  if match RETRYABLE_EXCEPTIONS sdk with [] => true | _ :: _ => false end
     || negb (isinstance e (RETRYABLE_EXCEPTIONS sdk))
  then false
  else if isinstance e [APIStatusError]
  then match _status_code e with
       | Some code => existsb (Z.eqb code) RETRYABLE_STATUS_CODES
       | None => false
       end
  else true.

Record policy : Type := {
  max_retries : Z;
  initial_delay : Q;
  max_delay : Q;
  exponential_base : Q
}.

(** The keyword defaults of [with_retry]. *)
Definition default_policy : policy :=
  {| max_retries := 5; initial_delay := 1; max_delay := 60;
     exponential_base := 2 |}.

(** How a call of [with_retry] ends.  [RaisedNone] is the [TypeError] of
    [raise last_error] with [last_error = None]; [RaisedValueError] is the
    [ValueError] of [time.sleep] called with a negative delay. *)
Inductive outcome (A : Type) : Type :=
| Returned (a : A)
| Raised (e : error)
| RaisedNone
| RaisedValueError.
Arguments Returned {A} a.
Arguments Raised {A} e.
Arguments RaisedNone {A}.
Arguments RaisedValueError {A}.

(** What a run leaves behind: the outcome, the state of the callee, the
    arguments of the calls of [time.sleep] that returned, in order, and a
    ghost trace of what each attempt did. *)
Record run (S A : Type) : Type := {
  result : outcome A;
  final : S;
  sleeps : list Q;
  attempts : list (Py.res error A)
}.
Arguments result {S A} r.
Arguments final {S A} r.
Arguments sleeps {S A} r.
Arguments attempts {S A} r.

Section WithCallable.
Context {S A : Type}.
Variable sdk : bool.
(** [callable_fn] acts on some state of its own. *)
Variable callable_fn : S -> Py.res error A * S.

(** The [for attempt in range(max_retries + 1)] loop followed by the
    final [raise last_error].  [time.sleep(delay)] raises [ValueError]
    for a negative [delay], which leaves the loop. *)
Fixpoint retry_loop (pol : policy) (range : list Z) (delay : Q)
         (last_error : option error) (st : S) (slept : list Q)
         (trace : list (Py.res error A)) : run S A :=
  match range with
  | [] =>
      {| result := match last_error with
                   | Some e => Raised e
                   | None => RaisedNone
                   end;
         final := st; sleeps := slept; attempts := trace |}
  | attempt :: range' =>
      let (r, st') := callable_fn st in
      match r with
      | Py.Ret v =>
          {| result := Returned v; final := st'; sleeps := slept;
             attempts := trace ++ [r] |}
      | Py.Raise e =>
          if (attempt =? max_retries pol) || negb (is_retryable sdk e)
          then {| result := Raised e; final := st'; sleeps := slept;
                  attempts := trace ++ [r] |}
          else if Py.flt delay 0
          then {| result := RaisedValueError; final := st'; sleeps := slept;
                  attempts := trace ++ [r] |}
          else retry_loop pol range'
                 (Py.min (delay * exponential_base pol) (max_delay pol))
                 (Some e) st' (slept ++ [delay]) (trace ++ [r])
      end
  end.

(** [range(n)] *)
Definition range (n : Z) : list Z := map Z.of_nat (seq 0 (Z.to_nat n)).

(** [with_retry] *)
Definition with_retry (pol : policy) (st : S) : run S A :=
  retry_loop pol (range (max_retries pol + 1)) (initial_delay pol)
             None st [] [].
End WithCallable.

Definition retryable (sdk : bool) (e : error) : Prop :=
  is_retryable sdk e = true.

(** [is_retryable] in closed form. *)
Definition retryable_by_code (sdk : bool) (e : error) : bool :=
  sdk &&
  match cls e with
  | APITimeoutError | APIConnectionError => true
  | RateLimitError | APIStatusError =>
      match _status_code e with
      | Some code =>
          (code =? 429) || (code =? 500) || (code =? 502) || (code =? 503)
      | None => false
      end
  | OtherException => false
  end.

(** The outcome that an attempt turns into when it is the last one. *)
Definition outcome_of {A} (r : Py.res error A) : outcome A :=
  match r with
  | Py.Ret v => Returned v
  | Py.Raise e => Raised e
  end.

(** A policy whose delays can all be slept: no negative number among
    [initial_delay], [max_delay] and [exponential_base]. *)
Definition sleepable (pol : policy) : Prop :=
  (0 <= initial_delay pol)%Q /\ (0 <= max_delay pol)%Q
  /\ (0 <= exponential_base pol)%Q.

(** The delay in force before the [i]-th retry. *)
Fixpoint delay_at (pol : policy) (i : nat) : Q :=
  match i with
  | O => initial_delay pol
  | S j => Py.min (delay_at pol j * exponential_base pol) (max_delay pol)
  end.

(** The classification in the words of the specification: retryable is
    a rate-limit error, a 5xx server error, a timeout or a connection
    failure. *)
Definition spec_retryable (e : error) : bool :=
  match cls e with
  | RateLimitError => true
  | APIStatusError =>
      match _status_code e with
      | Some code => (500 <=? code) && (code <=? 599)
      | None => false
      end
  | APITimeoutError | APIConnectionError => true
  | OtherException => false
  end.

(** A callee that fails [n] times with [e] and then returns [v]; its
    state counts the calls made. *)
Definition fail_then_succeed {A} (n : nat) (e : error) (v : A)
  : nat -> Py.res error A * nat :=
  fun calls => (if (calls <? n)%nat then Py.Raise e else Py.Ret v, Datatypes.S calls).

Definition rate_limit_429 : error :=
  {| cls := RateLimitError; status_code := Some 429;
     response_status := Some 429 |}.

Definition status_error (code : Z) : error :=
  {| cls := APIStatusError; status_code := Some code;
     response_status := Some code |}.

End ApiRetry.

(* ===================================================================== *)
(** * src/eval/compare_baseline_enhanced.py                               *)
(* ===================================================================== *)

Module CompareBaselineEnhanced.

Inductive failure_type : Type :=
| LowCitationPrecision    (* 'Low Citation Precision' *)
| MissingCitations        (* 'Missing Citations'      *)
| LowGroundedness         (* 'Low Groundedness'       *)
| LowAnswerRelevance      (* 'Low Answer Relevance'   *)
| InvalidCitations.       (* 'Invalid Citations'      *)

(** A query id as the code holds it: the [str] of the results log, or
    the integer that [read_csv] makes of the id column of the scores table
    when every id in it is numeric.  A [str] equals no integer, so a
    numeric id of the table is not found among the ids of the log. *)
Inductive py_id : Type :=
| IdStr (s : string)
| IdInt (n : Z).

#[global] Instance py_id_eq_dec : EqDecision py_id.
Proof. solve_decision. Defined.

#[global] Instance py_id_countable : Countable py_id :=
  inj_countable'
    (fun x => match x with IdStr s => inl s | IdInt n => inr n end)
    (fun y => match y with inl s => IdStr s | inr n => IdInt n end)
    (fun x => match x with IdStr _ => eq_refl | IdInt _ => eq_refl end).

(** [a == b] on ids. *)
Definition id_eqb (a b : py_id) : bool :=
  match a, b with
  | IdStr x, IdStr y => String.eqb x y
  | IdInt x, IdInt y => Z.eqb x y
  | _, _ => false
  end.

(** A row of the scores table.  The two judged scores are empty ([NaN]
    in the data frame) when judging failed. *)
Record score_row : Type := {
  query_id : py_id;
  citation_precision : Q;
  total_citations : Z;
  groundedness_score : option Z;
  answer_relevance : option Z
}.

(** A record of the results log, with the keys that classification
    reads. *)
Record eval_result : Type := {
  r_query_id : py_id;
  r_retrieved_chunks : list chunk;
  r_invalid_citations : list string
}.

(** A failure case: its type and query, with the retrieved chunks and
    invalid citations copied from the result.  The remaining keys of the
    dictionary are display payload and play no part in classification. *)
Record failure : Type := {
  f_type : failure_type;
  f_query_id : py_id;
  f_retrieved_chunks : list chunk;
  f_invalid_citations : list string
}.

(** [{r['query_id']: r for r in enhanced_results}] *)
Definition results_dict (results : list eval_result)
  : gmap py_id eval_result :=
  fold_left (fun m r => <[ r_query_id r := r ]> m) results ∅.

(** [results_dict.get(query_id, {}).get('retrieved_chunks', [])] *)
Definition get_chunks (rd : gmap py_id eval_result) (q : py_id)
  : list chunk :=
  match rd !! q with
  | Some r => r_retrieved_chunks r
  | None => []
  end.

(** [results_dict.get(query_id, {}).get('invalid_citations', [])] *)
Definition get_invalid (rd : gmap py_id eval_result) (q : py_id)
  : list string :=
  match rd !! q with
  | Some r => r_invalid_citations r
  | None => []
  end.

Definition mk (ty : failure_type) (rd : gmap py_id eval_result)
           (q : py_id) : failure :=
  {| f_type := ty; f_query_id := q;
     f_retrieved_chunks := get_chunks rd q;
     f_invalid_citations := get_invalid rd q |}.

(** [query_id in [f['query_id'] for f in failures]] *)
Definition classified (failures : list failure) (q : py_id) : bool :=
  bool_decide (q ∈ map f_query_id failures).

(** [x < 3] on a possibly empty score: a comparison with [NaN] is
    false. *)
Definition below3 (x : option Z) : bool :=
  match x with
  | Some v => v <? 3
  | None => false
  end.

Section Rules.
Variable rd : gmap py_id eval_result.

(** 1. Low citation precision: every selected row is appended. *)
Definition rule1 (scores : list score_row) (failures : list failure)
  : list failure :=
  fold_left
    (fun fs row => fs ++ [mk LowCitationPrecision rd (query_id row)])
    (List.filter (fun row => Py.flt (citation_precision row) (8 # 10)) scores)
    failures.

(** 2. Missing citations: guarded by the retrieved chunks only. *)
Definition rule2 (scores : list score_row) (failures : list failure)
  : list failure :=
  fold_left
    (fun fs row =>
       if (0 <? length (get_chunks rd (query_id row)))%nat
       then fs ++ [mk MissingCitations rd (query_id row)]
       else fs)
    (List.filter (fun row => total_citations row =? 0) scores)
    failures.

(** 3. and 4.: guarded by [query_id not in ...failures]. *)
Definition guarded_rule (ty : failure_type) (select : score_row -> bool)
           (scores : list score_row) (failures : list failure)
  : list failure :=
  fold_left
    (fun fs row =>
       if negb (classified fs (query_id row))
       then fs ++ [mk ty rd (query_id row)]
       else fs)
    (List.filter select scores)
    failures.

Definition rule3 := guarded_rule LowGroundedness
                      (fun row => below3 (groundedness_score row)).
Definition rule4 := guarded_rule LowAnswerRelevance
                      (fun row => below3 (answer_relevance row)).

(** 5. Invalid citations, over the results log. *)
Definition rule5 (results : list eval_result) (failures : list failure)
  : list failure :=
  fold_left
    (fun fs result =>
       if match r_invalid_citations result with [] => false | _ :: _ => true end
          && negb (classified fs (r_query_id result))
       then fs ++ [ {| f_type := InvalidCitations;
                       f_query_id := r_query_id result;
                       f_retrieved_chunks := r_retrieved_chunks result;
                       f_invalid_citations := r_invalid_citations result |} ]
       else fs)
    results failures.
End Rules.

(** The classification part of [find_failure_cases]: the list
    [failures] before the selection of representatives. *)
Definition find_failures (scores : list score_row)
           (results : list eval_result) : list failure :=
  let rd := results_dict results in
  rule5 results
    (rule4 rd scores
       (rule3 rd scores
          (rule2 rd scores
             (rule1 rd scores [])))).

(** The types under which a query was recorded. *)
Definition types_of (failures : list failure) (q : py_id)
  : list failure_type :=
  map f_type (List.filter (fun f => id_eqb (f_query_id f) q) failures).

(** Vocabulary for the classification claim.  [any sel scores q]: some
    row of query [q] is selected by [sel]; [hits sel scores q]: how many
    are. *)
Definition of_query (q : py_id) (row : score_row) : bool :=
  id_eqb (query_id row) q.

Definition any (sel : score_row -> bool) (scores : list score_row)
           (q : py_id) : bool :=
  existsb (fun row => sel row && of_query q row) scores.

Definition hits (sel : score_row -> bool) (scores : list score_row)
           (q : py_id) : nat :=
  length (List.filter (fun row => sel row && of_query q row) scores).

Definition low_precision (row : score_row) : bool :=
  Py.flt (citation_precision row) (8 # 10).
Definition no_citations (row : score_row) : bool :=
  total_citations row =? 0.
Definition low_groundedness (row : score_row) : bool :=
  below3 (groundedness_score row).
Definition low_relevance (row : score_row) : bool :=
  below3 (answer_relevance row).

Definition has_invalid (results : list eval_result) (q : py_id) : bool :=
  existsb (fun r => match r_invalid_citations r with
                    | [] => false
                    | _ :: _ => true
                    end && id_eqb (r_query_id r) q) results.

(** [otherwise ts ty b]: the types [ts] already recorded win; without
    any, [ty] is recorded when [b] holds. *)
Definition otherwise (ts : list failure_type) (ty : failure_type)
           (b : bool) : list failure_type :=
  match ts with
  | [] => if b then [ty] else []
  | _ :: _ => ts
  end.

(** The types under which the code records query [q]: one 'Low
    Citation Precision' per low-precision row, then one 'Missing
    Citations' per row without citations when the result of [q] has
    retrieved chunks, and only if neither applies the first of rules 3,
    4, 5 that does. *)
Definition expected_types (scores : list score_row)
           (results : list eval_result) (q : py_id)
  : list failure_type :=
  let rd := results_dict results in
  let by_rule1 := repeat LowCitationPrecision (hits low_precision scores q) in
  let by_rule2 :=
    if (0 <? length (get_chunks rd q))%nat
    then repeat MissingCitations (hits no_citations scores q)
    else [] in
  otherwise
    (otherwise
       (otherwise (by_rule1 ++ by_rule2)
                  LowGroundedness (any low_groundedness scores q))
       LowAnswerRelevance (any low_relevance scores q))
    InvalidCitations (has_invalid results q).

(** Concrete inputs: a query without citations whose result has one
    retrieved chunk, and the same query with no retrieved chunk. *)
Definition row_no_citations : score_row :=
  {| query_id := IdStr "q1"; citation_precision := 0; total_citations := 0;
     groundedness_score := Some 4; answer_relevance := Some 4 |}.

Definition result_with_chunk : eval_result :=
  {| r_query_id := IdStr "q1";
     r_retrieved_chunks :=
       [ {| chunk_id := "src_chunk_001"; source_id := "src"; text := "";
            token_count := 0; start_char := 0; end_char := 0;
            similarity_score := Some 1%Q |} ];
     r_invalid_citations := [] |}.

Definition result_without_chunks : eval_result :=
  {| r_query_id := IdStr "q1"; r_retrieved_chunks := [];
     r_invalid_citations := [] |}.

(** A query with perfect precision, low groundedness, low relevance and
    an invalid citation on record. *)
Definition row_low_scores : score_row :=
  {| query_id := IdStr "q2"; citation_precision := 1; total_citations := 2;
     groundedness_score := Some 2; answer_relevance := Some 1 |}.

Definition result_low_scores : eval_result :=
  {| r_query_id := IdStr "q2"; r_retrieved_chunks := [];
     r_invalid_citations := ["(src, zz)"] |}.

(** The same query under a numeric id: the log holds the id ["7"], the
    scores table read back holds the integer 7.  The answer has no
    citation, in the first log record with a retrieved chunk; the second
    log record has an invalid citation on file. *)
Definition row_numeric_id : score_row :=
  {| query_id := IdInt 7; citation_precision := 0; total_citations := 0;
     groundedness_score := Some 4; answer_relevance := Some 4 |}.

Definition result_numeric_id : eval_result :=
  {| r_query_id := IdStr "7";
     r_retrieved_chunks := r_retrieved_chunks result_with_chunk;
     r_invalid_citations := [] |}.

Definition result_numeric_id_invalid : eval_result :=
  {| r_query_id := IdStr "7";
     r_retrieved_chunks := r_retrieved_chunks result_with_chunk;
     r_invalid_citations := ["(src, zz)"] |}.

End CompareBaselineEnhanced.


(* ===================================================================== *)
(** * Further vocabulary                                                  *)
(* ===================================================================== *)

(** The number written by a string of decimal digits, leading zeros
    allowed. *)
Definition decimal_value (s : string) : option Z :=
  option_map (fun d => Z.of_N (N.of_uint d)) (NilEmpty.uint_of_string s).

(** [sum(l)] on floats. *)
Definition Qsum (l : list Q) : Q := fold_right Qplus 0%Q l.

(** A store whose two collections line up: as many metadata entries as
    vectors, and the recorded dimension is that of the index. *)
Definition store_aligned (st : VectorStore.t) : Prop :=
  length (Faiss.xb (VectorStore.index st))
  = length (VectorStore.chunk_metadata st)
  /\ VectorStore.dimension st = Faiss.d (VectorStore.index st).

(** [l] is a hit of the search: the label of a stored vector, its chunk
    [c] and its score [s] against the query [q]. *)
Definition stored_hit (st : VectorStore.t) (q : list Q)
           (l : Z) (c : chunk) (s : Q) : Prop :=
  0 <= l
  /\ nth_error (VectorStore.chunk_metadata st) (Z.to_nat l) = Some c
  /\ exists v, nth_error (Faiss.xb (VectorStore.index st)) (Z.to_nat l) = Some v
               /\ s = Faiss.inner_product q v.

(** The result built from a scored label of an aligned store. *)
Definition hit_result (st : VectorStore.t) (e : Q * Z) : chunk :=
  VectorStore.with_score
    (nth (Z.to_nat (snd e)) (VectorStore.chunk_metadata st) VectorStore.chunk0)
    (fst e).

(** [a * b^i] *)
Fixpoint geometric (a b : Q) (i : nat) : Q :=
  match i with
  | O => a
  | S j => (geometric a b j * b)%Q
  end.

(* ===================================================================== *)
(** * Selection of representative failures
      (src/eval/compare_baseline_enhanced.py, end of find_failure_cases)  *)
(* ===================================================================== *)

Module FailureSelection.

(** What the selection reads of a failure dictionary: its type, its query
    id and three keys of its ['metrics'] dictionary, each of which may be
    absent.  A key that is present holds a number. *)
Record candidate : Type := {
  c_type : CompareBaselineEnhanced.failure_type;
  c_query_id : CompareBaselineEnhanced.py_id;
  m_citation_precision : option Q;
  m_groundedness_score : option Q;
  m_answer_relevance : option Q
}.

Definition type_eqb (a b : CompareBaselineEnhanced.failure_type) : bool :=
  match a, b with
  | CompareBaselineEnhanced.LowCitationPrecision,
    CompareBaselineEnhanced.LowCitationPrecision
  | CompareBaselineEnhanced.MissingCitations,
    CompareBaselineEnhanced.MissingCitations
  | CompareBaselineEnhanced.LowGroundedness,
    CompareBaselineEnhanced.LowGroundedness
  | CompareBaselineEnhanced.LowAnswerRelevance,
    CompareBaselineEnhanced.LowAnswerRelevance
  | CompareBaselineEnhanced.InvalidCitations,
    CompareBaselineEnhanced.InvalidCitations => true
  | _, _ => false
  end.

(** [failure['type'] in seen_types] *)
Definition seen (ty : CompareBaselineEnhanced.failure_type)
           (seen_types : list CompareBaselineEnhanced.failure_type) : bool :=
  existsb (type_eqb ty) seen_types.

(** [d.get(key, default)] *)
Definition get (x : option Q) (default : Q) : Q :=
  match x with
  | Some v => v
  | None => default
  end.

(** The sort key: [(citation_precision or 1, groundedness_score or 5,
    answer_relevance or 5)]. *)
Definition severity (x : candidate) : Q * Q * Q :=
  (get (m_citation_precision x) 1,
   get (m_groundedness_score x) 5,
   get (m_answer_relevance x) 5).

(** [a < b] on tuples: the first component where they differ decides. *)
Definition key_lt (a b : Q * Q * Q) : bool :=
  let '(a1, a2, a3) := a in
  let '(b1, b2, b3) := b in
  if negb (Qeq_bool a1 b1) then Py.flt a1 b1
  else if negb (Qeq_bool a2 b2) then Py.flt a2 b2
  else Py.flt a3 b3.

(** [list.sort(key=...)] is stable; an insertion sort that puts each
    element behind the elements that are not greater gives the same
    list. *)
Fixpoint insert_by_key (x : candidate) (l : list candidate)
  : list candidate :=
  match l with
  | [] => [x]
  | y :: t =>
      if key_lt (severity x) (severity y) then x :: l
      else y :: insert_by_key x t
  end.

Definition sort_by_key (l : list candidate) : list candidate :=
  fold_left (fun acc x => insert_by_key x acc) l [].

(** The first loop: one failure per type not seen yet, until three are
    selected ([break]). *)
Fixpoint first_pass (failures selected : list candidate)
         (seen_types : list CompareBaselineEnhanced.failure_type)
  : list candidate :=
  match failures with
  | [] => selected
  | failure :: rest =>
      if negb (seen (c_type failure) seen_types) then
        if (3 <=? length (selected ++ [failure]))%nat
        then selected ++ [failure]
        else first_pass rest (selected ++ [failure])
                        (c_type failure :: seen_types)
      else first_pass rest selected seen_types
  end.

(** [f['query_id'] not in [s['query_id'] for s in selected]] *)
Definition unselected (selected : list candidate) (f : candidate) : bool :=
  negb (existsb (CompareBaselineEnhanced.id_eqb (c_query_id f))
                (map c_query_id selected)).

(** The selection of [find_failure_cases]. *)
Definition select_representative (failures : list candidate)
  : list candidate :=
  let selected := first_pass failures [] [] in
  if (length selected <? 3)%nat then
    let remaining := List.filter (unselected selected) failures in
    selected ++ firstn (3 - length selected) (sort_by_key remaining)
  else selected.

(** The first failure of each type, in order of first appearance. *)
Fixpoint first_of_each_type (failures : list candidate)
         (seen_types : list CompareBaselineEnhanced.failure_type)
  : list candidate :=
  match failures with
  | [] => []
  | failure :: rest =>
      if seen (c_type failure) seen_types
      then first_of_each_type rest seen_types
      else failure :: first_of_each_type rest (c_type failure :: seen_types)
  end.

(** [a] is at least as severe as [b]: its key is not greater. *)
Definition not_less_severe (a b : candidate) : Prop :=
  key_lt (severity b) (severity a) = false.

End FailureSelection.

(* ===================================================================== *)
(** * From the results log to the scores table
      (src/eval/run_eval.py, src/rag/pipeline.py, src/eval/metrics.py)   *)
(* ===================================================================== *)

Module Evaluation.

(** A record of the results log: the result of [pipeline.query], to which
    [run_evaluation] adds the query id. *)
Record entry : Type := {
  e_query_id : string;
  e_result : query_result
}.

(** What the failure analysis reads of the record; the id of the log is
    a [str].  [pipeline.query] replaces the result by
    [enhance_answer(result)] when [enhance] is set and the enhancer was
    loaded; otherwise the key ['invalid_citations'] is absent and read as
    [[]]. *)
Definition logged (enhance : bool) (e : entry)
  : CompareBaselineEnhanced.eval_result :=
  {| CompareBaselineEnhanced.r_query_id :=
       CompareBaselineEnhanced.IdStr (e_query_id e);
     CompareBaselineEnhanced.r_retrieved_chunks :=
       retrieved_chunks (e_result e);
     CompareBaselineEnhanced.r_invalid_citations :=
       if enhance
       then StructuredCitations.invalid_citations
              (StructuredCitations.enhance_answer (e_result e))
       else [] |}.

(** The two scores of [evaluate_with_llm]; [None] when judging is off or
    failed.  The judge is an external service, taken below as a function
    of the record it is shown. *)
Record llm_eval : Type := {
  groundedness_score : option Z;
  answer_relevance : option Z
}.

(** One row of [score_all_results], as the failure analysis reads it
    back from the scores table.  The id column is taken to read back as
    text, which it does unless every id in it is numeric. *)
Definition score (judge : entry -> llm_eval) (e : entry)
  : CompareBaselineEnhanced.score_row :=
  let cit_metrics := Metrics.citation_precision (e_result e) in
  let llm := judge e in
  {| CompareBaselineEnhanced.query_id :=
       CompareBaselineEnhanced.IdStr (e_query_id e);
     CompareBaselineEnhanced.citation_precision :=
       Metrics.precision cit_metrics;
     CompareBaselineEnhanced.total_citations :=
       Z.of_nat (Metrics.total_citations cit_metrics);
     CompareBaselineEnhanced.groundedness_score := groundedness_score llm;
     CompareBaselineEnhanced.answer_relevance := answer_relevance llm |}.

Definition score_all_results (judge : entry -> llm_eval)
           (results : list entry) : list CompareBaselineEnhanced.score_row :=
  map (score judge) results.

(** A record that gives no cause for a report: the answer has a
    citation, every citation is valid, and no judged score is below 3. *)
Definition clean (judge : entry -> llm_eval) (e : entry) : Prop :=
  Metrics.total_citations (Metrics.citation_precision (e_result e)) <> 0%nat
  /\ Metrics.valid_citations (Metrics.citation_precision (e_result e))
     = Metrics.total_citations (Metrics.citation_precision (e_result e))
  /\ CompareBaselineEnhanced.below3 (groundedness_score (judge e)) = false
  /\ CompareBaselineEnhanced.below3 (answer_relevance (judge e)) = false.

End Evaluation.

(* ===================================================================== *)
(** * src/ingest/pipeline.py                                              *)
(* ===================================================================== *)

Module Ingestion.

(** The exceptions that end [run]: [open] of the chunks file in a
    directory that does not exist, and the division of the closing
    summary. *)
Inductive error : Type :=
| FileNotFoundError
| ZeroDivisionError.

(** The dictionary [stats]. *)
Record stats : Type := {
  total_sources : Z;
  total_chunks : Z;
  errors : list string
}.

(** State of the loop over the manifest: the chunks collected, the
    statistics, the processed texts written in full so far (path and
    content), and whether the directory [data/processed] exists. *)
Record state : Type := {
  all_chunks : list chunk;
  st : stats;
  written : list (string * string);
  processed_dir : bool
}.

(** What [run] leaves behind: the processed texts written, the chunks
    collected in memory, the lines of [chunks.jsonl] and the statistics
    handed to [_save_report] ([None] when the run did not get there), and
    how the call ended. *)
Record outcome : Type := {
  processed : list (string * string);
  collected : list chunk;
  chunks_jsonl : option (list chunk);
  report : option stats;
  result : Py.res error unit
}.

(** [TextChunker(chunk_size=512, overlap=128)] *)
Definition chunker : Chunker.TextChunker :=
  {| Chunker.chunk_size := 512; Chunker.overlap := 128 |}.

Definition processed_path (source_id : string) : string :=
  "data/processed/" +:+ source_id +:+ ".txt".

Definition error_msg (source_id msg : string) : string :=
  "Error processing " +:+ source_id +:+ ": " +:+ msg.

Section WithCollaborators.
(** The tokenizer, the PDF parser and the file system are external.
    [extract_text] stands for [PDFParser(raw_path).extract_text()] on the
    file of a source: the text, or [str(e)] of the exception it raises.
    [write_error source_id text] is the message of the exception raised
    by the write of the processed text, and [tokenize_error text] that of
    the exception the tokenizer raises on the text; [None] when there is
    none.  Of the file system the model keeps whether the directory
    [data/processed] exists and the processed texts written in full:
    [mkdir] is taken to succeed and creates the directory, and the two
    files written after the loop are taken to be written when it exists.
    A manifest item is read through its ['id'] only. *)
Context {token : Type}.
Variable encode : string -> list token.
Variable decode : list token -> string.
Variable extract_text : string -> Py.res string string.
Variable write_error : string -> string -> option string.
Variable tokenize_error : string -> option string.

(** [self.chunker.chunk_text(text, source_id)]; one loop test per token
    and one more are allowed for. *)
Definition chunk_text (text source_id : string) : option (list chunk) :=
  Chunker.chunk_text encode decode (S (length (encode text))) chunker
                     text source_id.

(** [stats['errors'].append(error_msg)] *)
Definition record_error (source_id msg : string) (s : state) : state :=
  {| all_chunks := all_chunks s;
     st := {| total_sources := total_sources (st s);
              total_chunks := total_chunks (st s);
              errors := errors (st s) ++ [error_msg source_id msg] |};
     written := written s;
     processed_dir := processed_dir s |}.

(** [Path(processed_path).parent.mkdir(parents=True, exist_ok=True)] *)
Definition mkdir (s : state) : state :=
  {| all_chunks := all_chunks s; st := st s; written := written s;
     processed_dir := true |}.

(** The write of the processed text. *)
Definition write_text (source_id text : string) (s : state) : state :=
  {| all_chunks := all_chunks s; st := st s;
     written := written s ++ [(processed_path source_id, text)];
     processed_dir := processed_dir s |}.

(** The body of the loop, with its [try] and [except]. *)
Definition body (source_id : string) (s : state) : option state :=
  match extract_text source_id with
  | Py.Ret text =>
      let s := mkdir s in
      match write_error source_id text with
      | Some msg => Some (record_error source_id msg s)
      | None =>
          let s := write_text source_id text s in
          match tokenize_error text with
          | Some msg => Some (record_error source_id msg s)
          | None =>
              match chunk_text text source_id with
              | Some chunks =>
                  Some {| all_chunks := all_chunks s ++ chunks;
                          st := {| total_sources := total_sources (st s) + 1;
                                   total_chunks := total_chunks (st s);
                                   errors := errors (st s) |};
                          written := written s;
                          processed_dir := processed_dir s |}
              | None => None
              end
          end
      end
  | Py.Raise msg => Some (record_error source_id msg s)
  end.

Fixpoint for_each (manifest : list string) (s : state) : option state :=
  match manifest with
  | [] => Some s
  | source_id :: rest =>
      match body source_id s with
      | Some s' => for_each rest s'
      | None => None
      end
  end.

(** [IngestionPipeline.run], started with or without the directory
    [data/processed]; [None] if a chunking did not return.  Without the
    directory, [open(chunks_path, 'w')] raises and nothing after it
    runs. *)
Definition run (processed_dir0 : bool) (manifest : list string)
  : option outcome :=
  match for_each manifest
          {| all_chunks := [];
             st := {| total_sources := 0; total_chunks := 0; errors := [] |};
             written := [];
             processed_dir := processed_dir0 |} with
  | Some s =>
      if negb (processed_dir s)
      then Some {| processed := written s;
                   collected := all_chunks s;
                   chunks_jsonl := None;
                   report := None;
                   result := Py.Raise FileNotFoundError |}
      else
        let stats' := {| total_sources := total_sources (st s);
                         total_chunks := Z.of_nat (length (all_chunks s));
                         errors := errors (st s) |} in
        Some {| processed := written s;
                collected := all_chunks s;
                chunks_jsonl := Some (all_chunks s);
                report := Some stats';
                result := if total_sources stats' =? 0
                          then Py.Raise ZeroDivisionError
                          else Py.Ret tt |}
  | None => None
  end.

(** What becomes of one source: it is chunked, or it fails with a
    message, after its text was written or not, and after the directory
    was made or not. *)
Inductive source_status : Type :=
| Chunked (text : string)
| Failed (msg : string) (text_written : option string) (dir_made : bool).

Definition status (source_id : string) : source_status :=
  match extract_text source_id with
  | Py.Raise msg => Failed msg None false
  | Py.Ret text =>
      match write_error source_id text with
      | Some msg => Failed msg None true
      | None =>
          match tokenize_error text with
          | Some msg => Failed msg (Some text) true
          | None => Chunked text
          end
      end
  end.

(** The sources that were chunked, with their text; the processed texts
    written; the sources that failed, with the message; all in manifest
    order.  [made_dir]: some source got as far as [mkdir]. *)
Definition ingested (manifest : list string) : list (string * string) :=
  flat_map (fun source_id =>
              match status source_id with
              | Chunked text => [(source_id, text)]
              | Failed _ _ _ => []
              end) manifest.

Definition texts (manifest : list string) : list (string * string) :=
  flat_map (fun source_id =>
              match status source_id with
              | Chunked text | Failed _ (Some text) _ => [(source_id, text)]
              | Failed _ None _ => []
              end) manifest.

Definition failed (manifest : list string) : list (string * string) :=
  flat_map (fun source_id =>
              match status source_id with
              | Chunked _ => []
              | Failed msg _ _ => [(source_id, msg)]
              end) manifest.

Definition made_dir (manifest : list string) : bool :=
  existsb (fun source_id =>
             match status source_id with
             | Chunked _ => true
             | Failed _ _ dir_made => dir_made
             end) manifest.

(** The chunks of one source: windows at multiples of the stride 384,
    numbered from 1. *)
Definition chunks_of (p : string * string) : list chunk :=
  let tokens := encode (snd p) in
  map (Chunker.chunk_from decode chunker tokens (fst p) 0 1)
      (seq 0 (Z.to_nat ((Z.of_nat (length tokens) + 383) / 384))).

End WithCollaborators.

(** Collaborators for concrete runs: two sources are readable, every
    write succeeds and the tokenizer accepts every text. *)
Definition example_parser (source_id : string) : Py.res string string :=
  if String.eqb source_id "smith2020" then Py.Ret "sleep and mood"
  else if String.eqb source_id "lee2021" then Py.Ret "naps"
  else Py.Raise "no such file".

Definition no_write_error (source_id text : string) : option string := None.
Definition no_tokenize_error (text : string) : option string := None.

End Ingestion.

(* ===================================================================== *)
(** * src/ingest/pdf_parser.py                                            *)
(* ===================================================================== *)

Module PdfParser.

(** [re.sub(pat, repl, s)] with a literal replacement: the matches are
    replaced left to right, without overlap.  [skip] counts the
    characters of the current match still to be stepped over; after an
    empty match the next character is copied.  As everywhere in this
    development a [str] is a sequence of code points below 256. *)
Fixpoint sub_from (pat : Re.pattern) (repl : list ascii) (skip : nat)
         (s : list ascii) : list ascii :=
  match s with
  | [] =>
      match skip, Re.match_here pat [] with
      | O, Some _ => repl
      | _, _ => []
      end
  | c :: s' =>
      match skip with
      | S n => sub_from pat repl n s'
      | O =>
          match Re.match_here pat s with
          | Some (_, rest) =>
              if (length rest =? length s)%nat
              then repl ++ c :: sub_from pat repl 0 s'
              else repl ++ sub_from pat repl
                             (length s - length rest - 1)%nat s'
          | None => c :: sub_from pat repl 0 s'
          end
      end
  end.

Definition sub (pat : Re.pattern) (repl s : string) : string :=
  string_of_list_ascii
    (sub_from pat (list_ascii_of_string repl) 0 (list_ascii_of_string s)).

(** Character classes: [[^\x00-\x7F]] and [\d]. *)
Definition non_ascii (c : ascii) : bool := (128 <=? N_of_ascii c)%N.
Definition digit (c : ascii) : bool :=
  let n := N_of_ascii c in ((48 <=? n) && (n <=? 57))%N.

Definition newline : ascii := "010"%char.

(** The three patterns of [_clean_text]: [\s+], [[^\x00-\x7F]+] and
    [\n\d+\n].  A repetition is written as a group; a substitution does
    not read the groups. *)
Definition whitespace_run : Re.pattern := [Re.GroupPlus Py.isspace].
Definition non_ascii_run : Re.pattern := [Re.GroupPlus non_ascii].
Definition page_number : Re.pattern :=
  [Re.Lit newline; Re.GroupPlus digit; Re.Lit newline].

(** [PDFParser._clean_text] *)
Definition _clean_text (text : string) : string :=
  let text := sub whitespace_run " " text in
  let text := sub non_ascii_run "" text in
  let text := sub page_number (String newline "") text in
  string_of_list_ascii (Py.strip (list_ascii_of_string text)).

(** [PDFParser.extract_text], from the texts of the pages. *)
Definition extract_text (pages : list string) : string :=
  _clean_text (fold_left String.append pages "").

(** A character that [_clean_text] can leave in its output: ASCII, and
    no whitespace other than the space. *)
Definition clean_char (c : ascii) : Prop :=
  (N_of_ascii c < 128)%N /\ (Py.isspace c = true -> c = " "%char).

End PdfParser.

(* ===================================================================== *)
(** * The citation id shown for a chunk (src/rag/generator.py)            *)
(* ===================================================================== *)

Module Generator.

(** The text after ["Citation ID: "] in the prompt entry that
    [_format_chunks] writes for a chunk. *)
Definition citation_id (c : chunk) : string :=
  "(" +:+ source_id c +:+ ", " +:+ chunk_id c +:+ ")".

End Generator.

(* ===================================================================== *)
(** * src/rag/build_index.py and src/rag/retriever.py                     *)
(* ===================================================================== *)

Module BuildIndex.

Section WithEmbedder.
(** The embedding model is external: [embed_chunks] stands for
    [Embedder.embed_chunks], which returns a two-dimensional array for a
    non-empty list of chunks, and [dimension] for
    [embedder.dimension]. *)
Variable embed_chunks : list chunk -> Np.ndarray.
Variable dimension : Z.

(** [build_index], from the chunks loaded to the index directory
    written. *)
Definition build_index (chunks : list chunk)
  : Py.res Py.exn VectorStore.disk :=
  let embeddings := embed_chunks chunks in
  let store := VectorStore.init dimension in
  let* store := VectorStore.add_chunks store chunks embeddings in
  Py.Ret (VectorStore.save store).

End WithEmbedder.

End BuildIndex.

Module Retriever.

(** [Retriever.__init__]: a store of the default dimension, then
    [load]. *)
Definition init (index_path : VectorStore.disk)
  : Py.res Py.exn VectorStore.t :=
  VectorStore.load (VectorStore.init 384) index_path.

(** [Retriever.retrieve]; [encode] is the query encoder of the embedding
    model. *)
Definition retrieve (store : VectorStore.t) (encode : string -> list Q)
           (query : string) (k : nat) : Py.res Py.exn (list chunk) :=
  VectorStore.search store (encode query) k.

End Retriever.

(** An embedder for concrete runs: every chunk gets the same unit
    vector of width 2. *)
Definition constant_embedder (chunks : list chunk) : Np.ndarray :=
  {| Np.shape1 := 2; Np.rows := map (fun _ => [1%Q; 0%Q]) chunks |}.

(* ===================================================================== *)
(** * The reference list of src/rag/structured_citations.py               *)
(* ===================================================================== *)

Module References.

(** A manifest item, with the keys that a reference line reads.  [year]
    is taken as rendered by the f-string; [venue] may be absent. *)
Record manifest_item : Type := {
  id : string;
  authors : string;
  year : string;
  title : string;
  venue : option string;
  link_or_DOI : string
}.

(** [{item['id']: item for item in self.manifest}] *)
Definition manifest_dict (manifest : list manifest_item)
  : gmap string manifest_item :=
  fold_left (fun m item => <[ id item := item ]> m) manifest ∅.

(** [sorted(source_ids)]: the elements of the set in ascending order of
    [str]. *)
Fixpoint insert_sorted (x : string) (l : list string) : list string :=
  match l with
  | [] => [x]
  | y :: t => if String.ltb x y then x :: l else y :: insert_sorted x t
  end.

Definition sorted (source_ids : gset string) : list string :=
  fold_left (fun acc x => insert_sorted x acc) (elements source_ids) [].

(** One line of the list. *)
Definition reference (source_id : string) (item : manifest_item) : string :=
  source_id +:+ ": " +:+ authors item +:+ " (" +:+ year item +:+ "). "
  +:+ title item +:+ ". "
  +:+ match venue item with Some v => v | None => "Various" end
  +:+ ". " +:+ link_or_DOI item.

(** The loop of [_build_references] over [refs]. *)
Definition refs (manifest_dict : gmap string manifest_item)
           (source_ids : gset string) : list string :=
  flat_map (fun source_id =>
              match manifest_dict !! source_id with
              | Some item => [reference source_id item]
              | None => []
              end)
           (sorted source_ids).

(** [_build_references] *)
Definition _build_references (manifest_dict : gmap string manifest_item)
           (source_ids : gset string) : string :=
  String.concat (String PdfParser.newline "") (refs manifest_dict source_ids).

(** The key ['reference_list'] that [enhance_answer] adds. *)
Definition reference_list (manifest : list manifest_item)
           (result : query_result) : string :=
  let citations := extract_citations (answer result) in
  let source_ids := fold_left StructuredCitations.source_step citations ∅ in
  _build_references (manifest_dict manifest) source_ids.

(** Ascending order of [str]. *)
Definition str_le (a b : string) : Prop := String.leb a b = true.

End References.

(* ===================================================================== *)
(** * Facts about the matcher                                             *)
(* ===================================================================== *)

Section MatcherFacts.
Import Re.

Lemma greedy_stop {R} p (k : list ascii -> list ascii -> option R)
      taken s r :
  k taken s = Some r ->
  exists pre post,
    s = pre ++ post /\ all_in p pre /\ k (taken ++ pre) post = Some r.
Proof.
  intros H. exists [], s. split; [reflexivity|]. split; [constructor|].
  rewrite app_nil_r. exact H.
Qed.

Lemma greedy_inv {R} p (k : list ascii -> list ascii -> option R) s :
  forall taken r,
    greedy p k taken s = Some r ->
    exists pre post,
      s = pre ++ post /\ all_in p pre /\ k (taken ++ pre) post = Some r.
Proof.
  induction s as [|c s IH]; intros taken r H; simpl in H.
  - apply greedy_stop. exact H.
  - destruct (p c) eqn:Hp; [|apply greedy_stop; exact H].
    destruct (greedy p k (taken ++ [c]) s) as [r'|] eqn:Hg;
      [|apply greedy_stop; exact H].
    injection H as ->.
    apply IH in Hg as (pre & post & -> & Hall & Hk).
    exists (c :: pre), post.
    rewrite <- app_assoc in Hk.
    split; [reflexivity|]. split; [constructor; assumption | exact Hk].
Qed.

Lemma greedy_max {R} p (k : list ascii -> list ascii -> option R) pre :
  forall taken post r,
    all_in p pre -> stops p post ->
    k (taken ++ pre) post = Some r ->
    greedy p k taken (pre ++ post) = Some r.
Proof.
  induction pre as [|c pre IH]; intros taken post r Hall Hstop Hk.
  - rewrite app_nil_r in Hk. simpl.
    destruct post as [|x post]; simpl; [exact Hk|].
    simpl in Hstop. rewrite Hstop. exact Hk.
  - inversion Hall as [|? ? Hc Hall']; subst. simpl. rewrite Hc.
    rewrite (IH (taken ++ [c]) post r Hall' Hstop); [reflexivity|].
    rewrite <- app_assoc. exact Hk.
Qed.

(** Inversion, one atom at a time. *)
Lemma match_lit_inv c pat s r :
  match_here (Lit c :: pat) s = Some r ->
  exists s', s = c :: s' /\ match_here pat s' = Some r.
Proof.
  simpl. destruct s as [|x s']; [discriminate|].
  destruct (Ascii.eqb_spec x c) as [->|]; [|discriminate].
  intros H. exists s'. split; [reflexivity | exact H].
Qed.

Lemma match_star_inv p pat s r :
  match_here (Star p :: pat) s = Some r ->
  exists pre post, s = pre ++ post /\ all_in p pre /\ match_here pat post = Some r.
Proof.
  simpl. intros H. apply greedy_inv in H as (pre & post & -> & Hall & Hk).
  exists pre, post. split; [reflexivity|]. split; assumption.
Qed.

Lemma match_group_inv p pat s gs rest :
  match_here (GroupPlus p :: pat) s = Some (gs, rest) ->
  exists g gs' post,
    s = g ++ post /\ g <> [] /\ all_in p g /\ gs = g :: gs' /\
    match_here pat post = Some (gs', rest).
Proof.
  simpl. intros H. apply greedy_inv in H as (pre & post & -> & Hall & Hk).
  simpl in Hk. destruct pre as [|c pre]; [discriminate|].
  destruct (match_here pat post) as [[gs' r]|] eqn:Hm; [|discriminate].
  injection Hk as <- <-.
  exists (c :: pre), gs', post.
  split; [reflexivity|]. split; [discriminate|]. split; [assumption|].
  split; [reflexivity | assumption].
Qed.

(** Forward rules: a maximal run is what the greedy matcher tries
    first. *)
Lemma match_lit_fwd c pat s :
  match_here (Lit c :: pat) (c :: s) = match_here pat s.
Proof. simpl. rewrite Ascii.eqb_refl. reflexivity. Qed.

Lemma match_star_fwd p pat pre post r :
  all_in p pre -> stops p post ->
  match_here pat post = Some r ->
  match_here (Star p :: pat) (pre ++ post) = Some r.
Proof.
  intros Hall Hstop Hm. simpl.
  apply greedy_max; assumption.
Qed.

Lemma match_group_fwd p pat g post gs rest :
  g <> [] -> all_in p g -> stops p post ->
  match_here pat post = Some (gs, rest) ->
  match_here (GroupPlus p :: pat) (g ++ post) = Some (g :: gs, rest).
Proof.
  intros Hne Hall Hstop Hm. simpl.
  apply greedy_max; try assumption.
  simpl. destruct g as [|c g]; [contradiction|].
  rewrite Hm. reflexivity.
Qed.

(** Every tuple reported by [findall] is the group list of some match. *)
Lemma findall_from_matches pat s :
  forall skip,
    Forall (fun gs => exists s' rest, match_here pat s' = Some (gs, rest))
           (findall_from pat skip s).
Proof.
  induction s as [|c s IH]; intros skip; simpl.
  - destruct skip; [|constructor].
    destruct (match_here pat []) as [[gs rest]|] eqn:Hm; constructor.
    + exists [], rest. exact Hm.
    + constructor.
  - destruct skip as [|n]; [|apply IH].
    destruct (match_here pat (c :: s)) as [[gs rest]|] eqn:Hm; [|apply IH].
    constructor; [|apply IH].
    exists (c :: s), rest. exact Hm.
Qed.

(** Character classes met by the citation patterns. *)
Lemma word_not_comma c : word c = true -> not_comma c = true.
Proof.
  unfold not_comma. destruct (Ascii.eqb_spec c ","%char) as [->|]; [|reflexivity].
  vm_compute. discriminate.
Qed.

Lemma word_not_rparen c : word c = true -> not_rparen c = true.
Proof.
  unfold not_rparen. destruct (Ascii.eqb_spec c ")"%char) as [->|]; [|reflexivity].
  vm_compute. discriminate.
Qed.

Lemma word_not_space c : word c = true -> Py.isspace c = false.
Proof.
  unfold word, Py.isspace. generalize (N_of_ascii c). intros n H.
  apply not_true_is_false. intros H'.
  rewrite ?orb_true_iff, ?andb_true_iff, ?N.leb_le, ?N.eqb_eq in H.
  rewrite ?orb_true_iff, ?andb_true_iff, ?N.leb_le, ?N.eqb_eq in H'.
  lia.
Qed.

Lemma lstrip_id s : stops Py.isspace s -> Py.lstrip s = s.
Proof.
  destruct s as [|c s]; [reflexivity|]. simpl. intros ->. reflexivity.
Qed.

Lemma token_stops_space w rest : token w -> stops Py.isspace (w ++ rest).
Proof.
  intros [Hne Hall]. destruct w as [|c w]; [contradiction|].
  inversion Hall; subst. simpl. apply word_not_space. assumption.
Qed.

Lemma token_rev w : token w -> token (rev w).
Proof.
  intros [Hne Hall]. split.
  - intros E. apply Hne. rewrite <- (rev_involutive w), E. reflexivity.
  - apply Forall_rev. exact Hall.
Qed.

(** [strip] leaves a token alone. *)
Lemma strip_token w : token w -> Py.strip w = w.
Proof.
  intros Hw. unfold Py.strip.
  rewrite (lstrip_id w).
  - rewrite (lstrip_id (rev w)); [apply rev_involutive|].
    rewrite <- (app_nil_r (rev w)). apply token_stops_space, token_rev, Hw.
  - rewrite <- (app_nil_r w). apply token_stops_space, Hw.
Qed.

Lemma search_from_here pat s gs rest :
  match_here pat s = Some (gs, rest) -> search_from pat s = Some gs.
Proof. intros H. destruct s; simpl; rewrite H; reflexivity. Qed.

(** The canonical rendering of two tokens re-parses, and the second
    group is the second token. *)
Lemma match_parse_canonical w1 w2 :
  token w1 -> token w2 ->
  match_here parse_pattern
    ("("%char :: w1 ++ ","%char :: " "%char :: w2 ++ [")"%char])
  = Some ([w1; w2], []).
Proof.
  intros [Hne1 Hall1] Hw2. pose proof Hw2 as [Hne2 Hall2].
  unfold parse_pattern. rewrite match_lit_fwd.
  apply match_group_fwd; [assumption | | reflexivity |].
  { eapply Forall_impl; [exact Hall1|]. apply word_not_comma. }
  rewrite match_lit_fwd.
  apply (match_star_fwd _ _ [" "%char]).
  { repeat constructor. }
  { apply token_stops_space, Hw2. }
  apply match_group_fwd; [assumption | | reflexivity | reflexivity].
  eapply Forall_impl; [exact Hall2|]. apply word_not_rparen.
Qed.

(** What a match of the extraction pattern captures. *)
Lemma match_citation_inv s gs rest :
  match_here citation_pattern s = Some (gs, rest) ->
  exists w1 w2, gs = [w1; w2] /\ token w1 /\ token w2.
Proof.
  unfold citation_pattern. intros H.
  apply match_lit_inv in H as (s1 & -> & H).
  apply match_group_inv in H as (w1 & gs1 & s2 & -> & Hne1 & Hall1 & -> & H).
  apply match_lit_inv in H as (s3 & -> & H).
  apply match_star_inv in H as (sp & s4 & -> & _ & H).
  apply match_group_inv in H as (w2 & gs2 & s5 & -> & Hne2 & Hall2 & -> & H).
  apply match_lit_inv in H as (s6 & -> & H).
  simpl in H. injection H as <- <-.
  exists w1, w2. split; [reflexivity|]. split; split; assumption.
Qed.

End MatcherFacts.

(* ===================================================================== *)
(** * Extraction and validation of citations                              *)
(* ===================================================================== *)

Section CitationFacts.
Import Re.

Lemma list_ascii_of_string_app a b :
  list_ascii_of_string (a +:+ b)
  = list_ascii_of_string a ++ list_ascii_of_string b.
Proof. induction a as [|c a IH]; simpl; [reflexivity | rewrite IH; reflexivity]. Qed.

Lemma cite_pairs_tokens text : Forall token_pair (cite_pairs text).
Proof.
  unfold cite_pairs, findall.
  pose proof (findall_from_matches citation_pattern
                (list_ascii_of_string text) 0) as H.
  induction H as [|gs l (s' & rest & Hm) _ IH]; simpl; [constructor|].
  apply match_citation_inv in Hm as (w1 & w2 & -> & Hw1 & Hw2).
  simpl. constructor; [|exact IH].
  exists w1, w2. split; [reflexivity | split; assumption].
Qed.

Lemma parse_rend m : token_pair m -> parse_chunk_id (rend m) = Some (snd m).
Proof.
  intros (w1 & w2 & -> & Hw1 & Hw2).
  unfold parse_chunk_id, rend, render, search. simpl fst; simpl snd.
  rewrite !list_ascii_of_string_app, !list_ascii_of_string_of_list_ascii.
  simpl app.
  rewrite (search_from_here _ _ _ _ (match_parse_canonical w1 w2 Hw1 Hw2)).
  rewrite strip_token by assumption. reflexivity.
Qed.

(** Membership in the code's id set is membership among the retrieved
    chunks. *)
Lemma in_chunk_id_set result cid :
  bool_decide (cid ∈ chunk_id_set (retrieved_chunks result))
  = retrieved result cid.
Proof.
  unfold chunk_id_set, retrieved.
  apply eq_true_iff_eq.
  rewrite bool_decide_eq_true, elem_of_list_to_set, list_elem_of_In,
    in_map_iff, existsb_exists.
  split; intros (c & H1 & H2); exists c.
  - split; [exact H2 | apply String.eqb_eq, H1].
  - split; [apply String.eqb_eq, H2 | exact H1].
Qed.

(** The loop of [citation_precision] files each canonical citation by
    the membership of its chunk id. *)
Lemma classify_fold result pairs :
  Forall token_pair pairs ->
  forall valid invalid,
    fold_left (Metrics.classify_step (chunk_id_set (retrieved_chunks result)))
              (map rend pairs) (valid, invalid)
    = (valid ++ map rend (List.filter (fun m => retrieved result (snd m)) pairs),
       invalid ++ map rend (List.filter (fun m => negb (retrieved result (snd m))) pairs)).
Proof.
  induction 1 as [|m pairs Hm _ IH]; intros valid invalid; simpl.
  - rewrite !app_nil_r. reflexivity.
  - unfold Metrics.classify_step at 2.
    rewrite (parse_rend m Hm), in_chunk_id_set.
    destruct (retrieved result (snd m)); simpl; rewrite IH, <- app_assoc;
      reflexivity.
Qed.

(** The loop of [enhance_answer] keeps exactly the citations whose chunk
    id was not retrieved. *)
Lemma validate_fold result pairs :
  Forall token_pair pairs ->
  forall invalid,
    fold_left (StructuredCitations.validate_step
                 (chunk_id_set (retrieved_chunks result)))
              (map rend pairs) invalid
    = invalid ++ map rend (List.filter (fun m => negb (retrieved result (snd m))) pairs).
Proof.
  induction 1 as [|m pairs Hm _ IH]; intros invalid; simpl.
  - rewrite app_nil_r. reflexivity.
  - unfold StructuredCitations.validate_step at 2.
    rewrite (parse_rend m Hm), in_chunk_id_set.
    destruct (retrieved result (snd m)); simpl; rewrite IH;
      [reflexivity | rewrite <- app_assoc; reflexivity].
Qed.

Lemma classify_eq result :
  Metrics.classify (chunk_id_set (retrieved_chunks result))
                   (extract_citations (answer result))
  = (map rend (cited_valid result), map rend (cited_invalid result)).
Proof.
  unfold Metrics.classify, extract_citations.
  rewrite classify_fold by apply cite_pairs_tokens. reflexivity.
Qed.

Lemma filter_split_length {A} (f : A -> bool) l :
  length l = (length (List.filter f l)
              + length (List.filter (fun x => negb (f x)) l))%nat.
Proof.
  induction l as [|x l IH]; simpl; [reflexivity|].
  destruct (f x); simpl; lia.
Qed.

Lemma filter_split_perm {A} (f : A -> bool) l :
  Permutation l (List.filter f l ++ List.filter (fun x => negb (f x)) l).
Proof.
  induction l as [|x l IH]; simpl; [constructor|].
  destruct (f x); simpl.
  - constructor. exact IH.
  - apply Permutation_cons_app. exact IH.
Qed.

(** The report in closed form. *)
Lemma citation_precision_eq result :
  Metrics.citation_precision result
  = match cite_pairs (answer result) with
    | [] => {| Metrics.total_citations := 0; Metrics.valid_citations := 0;
               Metrics.invalid_citations := None; Metrics.precision := 0;
               Metrics.invalid := [] |}
    | _ :: _ =>
        {| Metrics.total_citations := length (cite_pairs (answer result));
           Metrics.valid_citations := length (cited_valid result);
           Metrics.invalid_citations := Some (length (cited_invalid result));
           Metrics.precision :=
             Py.truediv (length (cited_valid result))
                        (length (cite_pairs (answer result)));
           Metrics.invalid := map rend (cited_invalid result) |}
    end.
Proof.
  unfold Metrics.citation_precision.
  rewrite classify_eq. unfold extract_citations.
  destruct (cite_pairs (answer result)) as [|m l] eqn:E; [reflexivity|].
  simpl map at 1. cbv iota beta.
  rewrite !length_map. simpl length. reflexivity.
Qed.

Lemma enhance_answer_invalid result :
  StructuredCitations.invalid_citations
    (StructuredCitations.enhance_answer result)
  = map rend (cited_invalid result).
Proof.
  unfold StructuredCitations.enhance_answer, extract_citations. simpl.
  rewrite validate_fold by apply cite_pairs_tokens. reflexivity.
Qed.

Lemma truediv_range v t : (v <= t)%nat -> (0 < t)%nat ->
  (0 <= Py.truediv v t)%Q /\ (Py.truediv v t <= 1)%Q.
Proof.
  intros Hvt Ht. unfold Py.truediv.
  destruct t as [|t]; [lia|].
  unfold Qdiv, Qinv, Qmult, Qle, inject_Z. simpl Qnum. simpl Qden.
  rewrite Pos.mul_1_l, Zpos_P_of_succ_nat. lia.
Qed.

End CitationFacts.

(** C1.  Citation validation is membership in the retrieved-chunk ids of
    the same result: [citation_precision] files the extracted citations,
    in order, into [valid] (chunk id among the retrieved chunks) and
    [invalid] (chunk id not among them); [enhance_answer] reports the same
    invalid list and [passed] exactly when it is empty; the precision is 0
    without citations and valid/total otherwise.  On the example (ids
    {a}, citations (src, a) and (src, z)): 1 valid, 1 invalid, precision
    0.5, not passed. *)
Theorem citation_validation_by_membership :
  (forall result : query_result,
      let report := Metrics.citation_precision result in
      let enh := StructuredCitations.enhance_answer result in
      Metrics.classify (chunk_id_set (retrieved_chunks result))
                       (extract_citations (answer result))
      = (map rend (cited_valid result), map rend (cited_invalid result))
      /\ Metrics.total_citations report = length (cite_pairs (answer result))
      /\ Metrics.valid_citations report = length (cited_valid result)
      /\ Metrics.invalid report = map rend (cited_invalid result)
      /\ StructuredCitations.invalid_citations enh
         = map rend (cited_invalid result)
      /\ StructuredCitations.citation_validation_passed enh
         = match cited_invalid result with [] => true | _ :: _ => false end
      /\ match Metrics.total_citations report with
         | O => Metrics.precision report = 0%Q
         | S _ =>
             (Metrics.precision report
              == inject_Z (Z.of_nat (Metrics.valid_citations report))
                 / inject_Z (Z.of_nat (Metrics.total_citations report)))%Q
         end)
  /\ (let report := Metrics.citation_precision example_result in
      let enh := StructuredCitations.enhance_answer example_result in
      Metrics.total_citations report = 2%nat
      /\ Metrics.valid_citations report = 1%nat
      /\ Metrics.invalid report = ["(src, z)"]
      /\ (Metrics.precision report == 0.5)%Q
      /\ StructuredCitations.invalid_citations enh = ["(src, z)"]
      /\ StructuredCitations.citation_validation_passed enh = false).
Proof.
  split.
  - intros result report enh. subst report enh.
    split; [apply classify_eq|].
    pose proof (enhance_answer_invalid result) as Hinv.
    assert (Hpass : StructuredCitations.citation_validation_passed
                      (StructuredCitations.enhance_answer result)
                    = match cited_invalid result with
                      | [] => true
                      | _ :: _ => false
                      end).
    { unfold StructuredCitations.enhance_answer in *. simpl in *.
      rewrite Hinv. destruct (cited_invalid result); reflexivity. }
    rewrite citation_precision_eq.
    destruct (cite_pairs (answer result)) as [|m l] eqn:E.
    + assert (Hv : cited_valid result = [])
        by (unfold cited_valid; rewrite E; reflexivity).
      assert (Hi : cited_invalid result = [])
        by (unfold cited_invalid; rewrite E; reflexivity).
      cbn [Metrics.total_citations Metrics.valid_citations Metrics.invalid
             Metrics.precision].
      rewrite Hinv, Hpass, Hv, Hi. repeat split; reflexivity.
    + cbn [Metrics.total_citations Metrics.valid_citations Metrics.invalid
             Metrics.precision].
      split; [reflexivity|]. split; [reflexivity|]. split; [reflexivity|].
      split; [exact Hinv|]. split; [exact Hpass|].
      simpl length. unfold Py.truediv. reflexivity.
  - vm_compute. repeat split; reflexivity.
Qed.

(** C10.  Every extracted citation re-parses, so [citation_precision]
    files each of them under exactly one of [valid] and [invalid]: the two
    lists together are a rearrangement of the extracted citations, no
    citation is in both, the counts add up, and the precision lies in
    [0, 1]. *)
Theorem citation_precision_partition (result : query_result) :
  let citations := extract_citations (answer result) in
  let sorted := Metrics.classify (chunk_id_set (retrieved_chunks result))
                                 citations in
  let report := Metrics.citation_precision result in
  Forall (fun cit => is_Some (parse_chunk_id cit)) citations
  /\ Permutation citations (fst sorted ++ snd sorted)
  /\ Forall (fun cit => ~ In cit (snd sorted)) (fst sorted)
  /\ Metrics.total_citations report
     = (Metrics.valid_citations report + length (Metrics.invalid report))%nat
  /\ Metrics.valid_citations report = length (fst sorted)
  /\ Metrics.invalid report = snd sorted
  /\ (0 <= Metrics.precision report)%Q
  /\ (Metrics.precision report <= 1)%Q.
Proof.
  intros citations sorted report. subst citations sorted report.
  rewrite classify_eq, citation_precision_eq. simpl fst; simpl snd.
  pose proof (cite_pairs_tokens (answer result)) as Htok.
  split.
  { unfold extract_citations. apply Forall_map.
    eapply Forall_impl; [exact Htok|].
    intros m Hm. simpl. rewrite (parse_rend m Hm). eexists; reflexivity. }
  split.
  { unfold extract_citations. rewrite <- map_app. apply Permutation_map.
    apply filter_split_perm. }
  split.
  { apply List.Forall_forall. intros cit Hv Hi.
    apply in_map_iff in Hv as (m1 & <- & H1).
    apply in_map_iff in Hi as (m2 & Heq & H2).
    unfold cited_valid, cited_invalid in *.
    apply filter_In in H1 as [Hin1 Hr1].
    apply filter_In in H2 as [Hin2 Hr2].
    rewrite List.Forall_forall in Htok.
    pose proof (parse_rend m1 (Htok m1 Hin1)) as P1.
    pose proof (parse_rend m2 (Htok m2 Hin2)) as P2.
    rewrite Heq, P1 in P2. injection P2 as P2.
    rewrite <- P2, Hr1 in Hr2. discriminate. }
  assert (Hlen : length (cite_pairs (answer result))
                 = (length (cited_valid result)
                    + length (cited_invalid result))%nat)
    by apply (filter_split_length (fun m => retrieved result (snd m))).
  destruct (cite_pairs (answer result)) as [|m l] eqn:E.
  - unfold cited_valid, cited_invalid. rewrite E. simpl.
    repeat split; try reflexivity; unfold Qle; simpl; lia.
  - cbn [Metrics.total_citations Metrics.valid_citations Metrics.invalid
           Metrics.precision].
    rewrite !length_map.
    split; [exact Hlen|]. split; [reflexivity|]. split; [reflexivity|].
    apply truediv_range; [rewrite Hlen; lia | simpl; lia].
Qed.

(* ===================================================================== *)
(** * The sliding window of the chunker                                   *)
(* ===================================================================== *)

Section ChunkerFacts.
Import Chunker.
Context {token : Type}.
Variable decode : list token -> string.
Variable self : TextChunker.
Variable tokens : list token.
Variable sid : string.

Lemma window_from_shift start0 j :
  window_from self tokens (start0 + stride self) j
  = window_from self tokens start0 (S j).
Proof.
  unfold window_from.
  replace (start0 + stride self + Z.of_nat j * stride self)
    with (start0 + Z.of_nat (S j) * stride self) by lia.
  reflexivity.
Qed.

Lemma chunk_from_shift start0 num0 j :
  chunk_from decode self tokens sid (start0 + stride self) (num0 + 1) j
  = chunk_from decode self tokens sid start0 num0 (S j).
Proof.
  unfold chunk_from.
  replace (start0 + stride self + Z.of_nat j * stride self)
    with (start0 + Z.of_nat (S j) * stride self) by lia.
  replace (num0 + 1 + Z.of_nat j) with (num0 + Z.of_nat (S j)) by lia.
  reflexivity.
Qed.

(** What a finished loop has appended: one window and one chunk per
    multiple of the stride below the token count. *)
Lemma loop_trace fuel :
  forall st st',
    loop decode fuel self tokens sid st = Some st' ->
    exists m : nat,
      windows st' = windows st
                    ++ map (window_from self tokens (start st)) (seq 0 m)
      /\ chunks st' = chunks st
                      ++ map (chunk_from decode self tokens sid
                                         (start st) (chunk_num st))
                             (seq 0 m)
      /\ (forall j, (j < m)%nat ->
                    start st + Z.of_nat j * stride self
                    < Z.of_nat (length tokens))
      /\ Z.of_nat (length tokens) <= start st + Z.of_nat m * stride self.
Proof.
  induction fuel as [|fuel IH]; intros st st' H; simpl in H; [discriminate|].
  destruct (Z.ltb_spec (start st) (Z.of_nat (length tokens))) as [Hlt|Hge].
  - apply IH in H as (m & Hw & Hc & Hbelow & Hstop).
    exists (S m). simpl in Hw, Hc, Hbelow, Hstop.
    fold (stride self) in Hw, Hc, Hbelow, Hstop.
    change (seq 0 (S m)) with (0%nat :: seq 1 m).
    rewrite <- seq_shift. cbn [map]. rewrite !map_map.
    split; [|split; [|split]].
    + rewrite Hw, <- app_assoc. cbn [app]. do 2 f_equal.
      * unfold window_from. cbn [Z.of_nat]. f_equal; [lia|f_equal; lia].
      * apply map_ext. intros j. apply window_from_shift.
    + rewrite Hc, <- app_assoc. cbn [app]. do 2 f_equal.
      * unfold chunk_from. cbn [Z.of_nat]. f_equal; lia.
      * apply map_ext. intros j. apply chunk_from_shift.
    + intros [|j] Hj; [lia|]. specialize (Hbelow j ltac:(lia)). lia.
    + lia.
  - injection H as <-. exists 0%nat. simpl.
    rewrite !app_nil_r. repeat split; [intros j Hj; lia | lia].
Qed.

(** With a positive stride the loop is left after at most one test per
    remaining token, and one more. *)
Lemma loop_terminates fuel :
  0 < stride self ->
  forall st,
    (Z.to_nat (Z.of_nat (length tokens) - start st) < fuel)%nat ->
    exists st', loop decode fuel self tokens sid st = Some st'.
Proof.
  intros Hs. induction fuel as [|fuel IH]; intros st Hfuel; [lia|].
  simpl.
  destruct (Z.ltb_spec (start st) (Z.of_nat (length tokens))) as [Hlt|Hge];
    [|eauto].
  apply IH. simpl. fold (stride self). lia.
Qed.

(** With a stride that is not positive the loop is never left once it
    is entered. *)
Lemma loop_diverges fuel :
  stride self <= 0 ->
  forall st,
    start st < Z.of_nat (length tokens) ->
    loop decode fuel self tokens sid st = None.
Proof.
  intros Hs. induction fuel as [|fuel IH]; intros st Hlt; [reflexivity|].
  simpl.
  destruct (Z.ltb_spec (start st) (Z.of_nat (length tokens))) as [_|Hge];
    [|lia].
  apply IH. simpl. fold (stride self). lia.
Qed.

End ChunkerFacts.

Section ChunkerTheorems.
Import Chunker.

(** The whole run in closed form, for a positive stride. *)
Lemma run_closed_form {token} (encode : string -> list token)
      (decode : list token -> string) (self : TextChunker)
      (text sid : string) :
  overlap self < chunk_size self ->
  exists m : nat,
    chunk_windows encode decode (S (length (encode text))) self text sid
    = Some (map (window_from self (encode text) 0) (seq 0 m))
    /\ chunk_text encode decode (S (length (encode text))) self text sid
       = Some (map (chunk_from decode self (encode text) sid 0 1) (seq 0 m))
    /\ (forall j : nat,
           (j < m)%nat
           <-> Z.of_nat j * stride self < Z.of_nat (length (encode text))).
Proof.
  intros Hvalid.
  assert (Hs : 0 < stride self) by (unfold stride; lia).
  unfold chunk_windows, chunk_text, run.
  destruct (loop_terminates decode self (encode text) sid
              (S (length (encode text))) Hs
              {| chunks := []; windows := []; start := 0; chunk_num := 1 |})
    as [st' Hrun]; [simpl; lia|].
  rewrite Hrun. simpl.
  apply loop_trace in Hrun as (m & Hw & Hc & Hbelow & Hstop).
  simpl in Hw, Hc, Hbelow, Hstop.
  exists m. rewrite Hw, Hc. split; [reflexivity|]. split; [reflexivity|].
  intros j. split; [apply Hbelow|]. intros Hj.
  destruct (Nat.lt_ge_cases j m) as [|Hge]; [assumption|exfalso].
  assert (Z.of_nat m * stride self <= Z.of_nat j * stride self) by nia.
  lia.
Qed.

Lemma shared_consecutive {token} (self : TextChunker) (tokens : list token)
      (i : nat) :
  0 <= overlap self < chunk_size self ->
  Z.of_nat (S i) * stride self < Z.of_nat (length tokens) ->
  shared (window_from self tokens 0 i) (window_from self tokens 0 (S i))
  = Z.min (overlap self)
          (Z.of_nat (length tokens) - Z.of_nat (S i) * stride self).
Proof.
  unfold shared, window_from, window_end, stride. simpl fst; simpl snd.
  rewrite Nat2Z.inj_succ. lia.
Qed.

Lemma slice_whole {A} (l : list A) :
  Py.slice l 0 (Z.of_nat (length l)) = l.
Proof.
  unfold Py.slice, Py.clamp.
  destruct (Z.ltb_spec (Z.of_nat (length l)) 0) as [|_]; [lia|].
  simpl (0 <? 0).
  rewrite Z.min_id, Z.min_l by lia.
  rewrite Z.sub_0_r, Nat2Z.id. simpl. apply firstn_all.
Qed.

Lemma slice_to_zero {A} (l : list A) : Py.slice_to l 0 = [].
Proof.
  unfold Py.slice_to, Py.slice, Py.clamp. simpl (0 <? 0).
  rewrite Z.min_l by lia. reflexivity.
Qed.

End ChunkerTheorems.

(** C3 (amended).  The chunker checks no precondition and has no error
    path; whenever [overlap < chunk_size] the loop is left after at most
    [len(tokens) + 1] tests and the chunks are returned. *)
Theorem chunking_terminates {token} (encode : string -> list token)
        (decode : list token -> string) (self : Chunker.TextChunker)
        (text sid : string) :
  Chunker.overlap self < Chunker.chunk_size self ->
  exists chunks,
    Chunker.chunk_text encode decode (S (length (encode text))) self text sid
    = Some chunks.
Proof.
  intros Hvalid.
  destruct (run_closed_form encode decode self text sid Hvalid)
    as (m & _ & Hc & _).
  eexists. exact Hc.
Qed.

Lemma chunking_terminates_witness :
  3 < 10
  /\ exists chunks,
      Chunker.chunk_text Chunker.byte_encode Chunker.byte_decode 26
        {| Chunker.chunk_size := 10; Chunker.overlap := 3 |}
        "abcdefghijklmnopqrstuvwxy" "doc"
      = Some chunks.
Proof.
  split; [lia|].
  apply (chunking_terminates Chunker.byte_encode Chunker.byte_decode
           {| Chunker.chunk_size := 10; Chunker.overlap := 3 |}
           "abcdefghijklmnopqrstuvwxy" "doc").
  simpl. lia.
Defined.

(** C3 as worded fails: with [overlap = chunk_size] and one token the
    call returns nothing at any fuel (it neither returns nor raises), and
    with a negative overlap it returns chunks as usual. *)
Lemma invalid_overlap_not_rejected :
  (forall fuel,
      Chunker.chunk_text Chunker.byte_encode Chunker.byte_decode fuel
        {| Chunker.chunk_size := 1; Chunker.overlap := 1 |} "a" "doc"
      = None)
  /\ Chunker.chunk_windows Chunker.byte_encode Chunker.byte_decode 5
       {| Chunker.chunk_size := 2; Chunker.overlap := -1 |} "abcd" "doc"
     = Some [(0, 2); (3, 4)].
Proof.
  split; [|reflexivity].
  intros fuel. unfold Chunker.chunk_text, Chunker.run.
  rewrite loop_diverges; [reflexivity | | ]; vm_compute; [discriminate | reflexivity].
Qed.

(** C8 (amended).  For a valid pair, [0 <= overlap < chunk_size], the
    window starts are [0, s, 2s, ...] with [s = chunk_size - overlap], one
    for every multiple of [s] below the token count; the chunks are built
    from these windows and numbered from 1; two consecutive chunks share
    [min(overlap, token count - start of the later one)] tokens, which is
    exactly [overlap] whenever the earlier window is full.  With
    [chunk_size = 10], [overlap = 3] and 25 tokens the windows start at
    0, 7, 14, 21 and the last chunk holds 4 tokens. *)
Theorem chunk_starts_arithmetic :
  (forall (token : Type) (encode : string -> list token)
          (decode : list token -> string) (self : Chunker.TextChunker)
          (text sid : string),
      0 <= Chunker.overlap self < Chunker.chunk_size self ->
      exists m : nat,
        Chunker.chunk_windows encode decode (S (length (encode text)))
                              self text sid
        = Some (map (Chunker.window_from self (encode text) 0) (seq 0 m))
        /\ Chunker.chunk_text encode decode (S (length (encode text)))
                              self text sid
           = Some (map (Chunker.chunk_from decode self (encode text) sid 0 1)
                       (seq 0 m))
        /\ (forall j : nat,
               (j < m)%nat
               <-> Z.of_nat j * Chunker.stride self
                   < Z.of_nat (length (encode text)))
        /\ (forall i : nat,
               (S i < m)%nat ->
               Chunker.shared
                 (Chunker.window_from self (encode text) 0 i)
                 (Chunker.window_from self (encode text) 0 (S i))
               = Z.min (Chunker.overlap self)
                       (Z.of_nat (length (encode text))
                        - Z.of_nat (S i) * Chunker.stride self))
        /\ (forall i : nat,
               (S i < m)%nat ->
               Z.of_nat i * Chunker.stride self + Chunker.chunk_size self
               <= Z.of_nat (length (encode text)) ->
               Chunker.shared
                 (Chunker.window_from self (encode text) 0 i)
                 (Chunker.window_from self (encode text) 0 (S i))
               = Chunker.overlap self))
  /\ Chunker.chunk_windows Chunker.byte_encode Chunker.byte_decode 26
       {| Chunker.chunk_size := 10; Chunker.overlap := 3 |}
       "abcdefghijklmnopqrstuvwxy" "doc"
     = Some [(0, 10); (7, 17); (14, 24); (21, 25)]
  /\ option_map (map token_count)
       (Chunker.chunk_text Chunker.byte_encode Chunker.byte_decode 26
          {| Chunker.chunk_size := 10; Chunker.overlap := 3 |}
          "abcdefghijklmnopqrstuvwxy" "doc")
     = Some [10; 10; 10; 4].
Proof.
  split; [|split; reflexivity].
  intros token encode decode self text sid Hvalid.
  destruct (run_closed_form encode decode self text sid (proj2 Hvalid))
    as (m & Hw & Hc & Hm).
  exists m. split; [exact Hw|]. split; [exact Hc|]. split; [exact Hm|].
  split.
  - intros i Hi. apply shared_consecutive; [exact Hvalid | apply Hm, Hi].
  - intros i Hi Hfull.
    rewrite shared_consecutive by (try exact Hvalid; apply Hm, Hi).
    unfold Chunker.stride in *. rewrite Nat2Z.inj_succ. lia.
Qed.

Lemma chunk_starts_arithmetic_witness :
  0 <= 1 < 4
  /\ exists m : nat,
      Chunker.chunk_windows Chunker.byte_encode Chunker.byte_decode 9
        {| Chunker.chunk_size := 4; Chunker.overlap := 1 |} "abcdefgh" "doc"
      = Some (map (Chunker.window_from
                     {| Chunker.chunk_size := 4; Chunker.overlap := 1 |}
                     (Chunker.byte_encode "abcdefgh") 0) (seq 0 m)).
Proof.
  split; [lia|].
  destruct (proj1 chunk_starts_arithmetic ascii Chunker.byte_encode
              Chunker.byte_decode
              {| Chunker.chunk_size := 4; Chunker.overlap := 1 |}
              "abcdefgh" "doc" ltac:(simpl; lia))
    as (m & Hw & _).
  exists m. exact Hw.
Defined.

(** C8 as worded fails: with [chunk_size = 4], [overlap = 3] and 4 tokens
    the windows are (0,4), (1,4), (2,4), (3,4); the second and third share
    2 tokens although the third is not the final one. *)
Lemma overlap_short_before_last :
  exists ws,
    Chunker.chunk_windows Chunker.byte_encode Chunker.byte_decode 5
      {| Chunker.chunk_size := 4; Chunker.overlap := 3 |} "abcd" "doc"
    = Some ws
    /\ ~ Chunker.overlap_exact_but_last
           {| Chunker.chunk_size := 4; Chunker.overlap := 3 |} ws.
Proof.
  exists [(0, 4); (1, 4); (2, 4); (3, 4)]. split; [reflexivity|].
  intros H.
  specialize (H 1%nat (1, 4) (2, 4) eq_refl eq_refl ltac:(simpl; lia)).
  vm_compute in H. discriminate.
Qed.

(** C9 (amended).  Under [0 <= overlap < chunk_size], chunking yields
    exactly one chunk precisely when the token count [n] satisfies
    [0 < n <= chunk_size - overlap]; that chunk holds all the tokens and is
    numbered 1. *)
Theorem single_chunk_iff_within_stride {token}
        (encode : string -> list token) (decode : list token -> string)
        (self : Chunker.TextChunker) (text sid : string) :
  0 <= Chunker.overlap self < Chunker.chunk_size self ->
  exists chunks,
    Chunker.chunk_text encode decode (S (length (encode text))) self text sid
    = Some chunks
    /\ (length chunks = 1%nat
        <-> 0 < Z.of_nat (length (encode text))
            <= Chunker.chunk_size self - Chunker.overlap self)
    /\ (length chunks = 1%nat ->
        chunks =
        [ {| chunk_id := sid +:+ "_chunk_001";
             source_id := sid;
             text := decode (encode text);
             token_count := Z.of_nat (length (encode text));
             start_char := Chunker.strlen (decode []);
             end_char := Chunker.strlen (decode (encode text));
             similarity_score := None |} ]).
Proof.
  intros Hvalid.
  destruct (run_closed_form encode decode self text sid ltac:(lia))
    as (m & _ & Hc & Hm).
  eexists. split; [exact Hc|].
  rewrite length_map, length_seq.
  assert (Hiff : m = 1%nat
                 <-> 0 < Z.of_nat (length (encode text))
                     <= Chunker.chunk_size self - Chunker.overlap self).
  { fold (Chunker.stride self). split.
    - intros ->. pose proof (proj1 (Hm 0%nat) ltac:(lia)) as H0.
      assert (H1 : ~ Z.of_nat 1 * Chunker.stride self
                     < Z.of_nat (length (encode text))).
      { intros H. apply Hm in H. lia. }
      lia.
    - intros [Hpos Hle].
      assert (H0 : (0 < m)%nat) by (apply Hm; lia).
      assert (H1 : ~ (1 < m)%nat) by (intros H; apply Hm in H; lia).
      lia. }
  split; [exact Hiff|].
  intros ->. destruct (proj1 Hiff eq_refl) as [Hpos Hle].
  unfold Chunker.chunk_from, Chunker.make_chunk, Chunker.window_end.
  cbn [map seq Z.of_nat]. rewrite Z.mul_0_l, !Z.add_0_l, Z.add_0_r.
  rewrite Z.min_r by lia.
  rewrite slice_whole, slice_to_zero.
  unfold Py.slice_to. rewrite slice_whole. reflexivity.
Qed.

Lemma single_chunk_iff_within_stride_witness :
  0 <= 3 < 10
  /\ exists chunks,
      Chunker.chunk_text Chunker.byte_encode Chunker.byte_decode 8
        {| Chunker.chunk_size := 10; Chunker.overlap := 3 |} "abcdefg" "doc"
      = Some chunks
      /\ length chunks = 1%nat.
Proof.
  split; [lia|].
  destruct (single_chunk_iff_within_stride
              Chunker.byte_encode Chunker.byte_decode
              {| Chunker.chunk_size := 10; Chunker.overlap := 3 |}
              "abcdefg" "doc" ltac:(simpl; lia))
    as (chunks & Hc & Hiff & _).
  exists chunks. split; [exact Hc|].
  apply Hiff. simpl. lia.
Defined.

(** C9 as worded fails: 8 tokens are fewer than [chunk_size = 10], yet
    with [overlap = 3] a second window starts at token 7 and two chunks
    come out; and a text without tokens yields no chunk at all. *)
Lemma short_text_not_single_chunk :
  Z.of_nat (length (Chunker.byte_encode "abcdefgh")) < 10
  /\ option_map (map text)
       (Chunker.chunk_text Chunker.byte_encode Chunker.byte_decode 9
          {| Chunker.chunk_size := 10; Chunker.overlap := 3 |}
          "abcdefgh" "doc")
     = Some ["abcdefgh"; "h"]
  /\ Chunker.chunk_text Chunker.byte_encode Chunker.byte_decode 1
       {| Chunker.chunk_size := 10; Chunker.overlap := 3 |} "" "doc"
     = Some [].
Proof. split; [vm_compute; reflexivity | split; reflexivity]. Qed.

(* ===================================================================== *)
(** * The vector store                                                    *)
(* ===================================================================== *)

Section SearchFacts.

Lemma insert_desc_hd e l a :
  HdRel Faiss.best_first a l -> Faiss.best_first a e ->
  HdRel Faiss.best_first a (Faiss.insert_desc e l).
Proof.
  intros Hl He. destruct l as [|h t]; simpl; [constructor; exact He|].
  destruct (Py.flt (fst h) (fst e)); constructor; [exact He|].
  inversion Hl; assumption.
Qed.

Lemma insert_desc_sorted e l :
  Sorted Faiss.best_first l -> Sorted Faiss.best_first (Faiss.insert_desc e l).
Proof.
  induction 1 as [|h t Ht IH Hh]; simpl; [repeat constructor|].
  unfold Py.flt. destruct (Qle_bool (fst e) (fst h)) eqn:Hle; cbn [negb].
  - constructor; [exact IH|].
    apply insert_desc_hd; [exact Hh|]. apply Qle_bool_iff, Hle.
  - constructor; [constructor; assumption|]. constructor.
    apply Qlt_le_weak, Qnot_le_lt. intros H.
    apply Qle_bool_iff in H. congruence.
Qed.

Lemma insert_desc_length e l :
  length (Faiss.insert_desc e l) = S (length l).
Proof.
  induction l as [|h t IH]; simpl; [reflexivity|].
  destruct (Py.flt _ _); simpl; [reflexivity | rewrite IH; reflexivity].
Qed.

Lemma sort_desc_from l :
  forall acc,
    Sorted Faiss.best_first acc ->
    Sorted Faiss.best_first (fold_left (fun acc e => Faiss.insert_desc e acc) l acc)
    /\ length (fold_left (fun acc e => Faiss.insert_desc e acc) l acc)
       = (length l + length acc)%nat.
Proof.
  induction l as [|e l IH]; intros acc Hacc; simpl; [split; trivial|].
  destruct (IH (Faiss.insert_desc e acc) (insert_desc_sorted e acc Hacc))
    as [Hs Hl].
  split; [exact Hs|]. rewrite Hl, insert_desc_length. lia.
Qed.

Lemma sorted_firstn l :
  Sorted Faiss.best_first l -> forall k, Sorted Faiss.best_first (firstn k l).
Proof.
  induction 1 as [|h t Ht IH Hh]; intros [|k]; simpl; try constructor.
  - apply IH.
  - destruct Hh as [|b t' Hb]; destruct k; simpl; constructor. exact Hb.
Qed.

Lemma sorted_scores l :
  Sorted Faiss.best_first l -> VectorStore.nonincreasing (map fst l).
Proof.
  unfold VectorStore.nonincreasing.
  induction 1 as [|h t Ht IH Hh]; simpl; constructor; [exact IH|].
  destruct Hh; simpl; constructor. assumption.
Qed.

Lemma combine_fst_snd {X Y} (l : list (X * Y)) :
  combine (map fst l) (map snd l) = l.
Proof.
  induction l as [|[x y] l IH]; simpl; [reflexivity | rewrite IH; reflexivity].
Qed.

(** The loop of [search] attaches the scores in order, one result per
    entry. *)
Lemma annotate_scores metadata entries :
  forall acc rs,
    VectorStore.annotate metadata entries acc = Py.Ret rs ->
    VectorStore.scores rs = VectorStore.scores acc ++ map fst entries
    /\ length rs = (length acc + length entries)%nat.
Proof.
  induction entries as [|[score idx] entries IH]; intros acc rs H; simpl in H.
  - injection H as <-. rewrite app_nil_r. split; [reflexivity | simpl; lia].
  - destruct (Py.index metadata idx) as [c|e]; simpl in H; [|discriminate].
    apply IH in H as [Hs Hl]. split.
    + rewrite Hs. unfold VectorStore.scores. rewrite flat_map_app. simpl.
      rewrite <- app_assoc. reflexivity.
    + rewrite Hl, length_app. simpl. lia.
Qed.

(** A search that returns has [k] results; as long as [k] does not
    exceed the number of stored vectors their scores are best first. *)
Lemma search_returns_k_best_first self q k rs :
  VectorStore.search self q k = Py.Ret rs ->
  length rs = k
  /\ ((k <= length (Faiss.xb (VectorStore.index self)))%nat ->
      VectorStore.nonincreasing (VectorStore.scores rs)).
Proof.
  unfold VectorStore.search, Faiss.search.
  destruct (negb _); [discriminate|].
  destruct (negb _); [discriminate|]. simpl.
  rewrite combine_fst_snd. intros H.
  apply annotate_scores in H as [Hs Hl]. simpl in Hs, Hl.
  destruct (sort_desc_from (Faiss.scored (VectorStore.index self) q) []
              ltac:(constructor)) as [Hsorted Hlen].
  fold (Faiss.sort_desc (Faiss.scored (VectorStore.index self) q))
    in Hsorted, Hlen.
  unfold Faiss.scored in Hlen at 2. rewrite length_imap, Nat.add_0_r in Hlen.
  split.
  - rewrite Hl, length_app, repeat_length, length_firstn. lia.
  - intros Hk. rewrite Hs.
    rewrite length_firstn, Hlen, Nat.min_l, Nat.sub_diag by exact Hk.
    simpl. rewrite app_nil_r. apply sorted_scores, sorted_firstn, Hsorted.
Qed.

End SearchFacts.

(** C4 (amended).  [load] compares no counts: whatever index and metadata
    list are stored are installed as they are, with the dimension taken
    from the index; in particular a pair written by [save] comes back
    unchanged. *)
Theorem load_installs_stored_pair :
  (forall (self : VectorStore.t) (idx : Faiss.IndexFlatIP)
          (metadata : list chunk),
      VectorStore.load self
        {| VectorStore.faiss_index := Some idx;
           VectorStore.metadata_json := Some metadata |}
      = Py.Ret {| VectorStore.dimension := Faiss.d idx;
                  VectorStore.index := idx;
                  VectorStore.chunk_metadata := metadata |})
  /\ (forall self saved : VectorStore.t,
         VectorStore.load self (VectorStore.save saved)
         = Py.Ret {| VectorStore.dimension := Faiss.d (VectorStore.index saved);
                     VectorStore.index := VectorStore.index saved;
                     VectorStore.chunk_metadata :=
                       VectorStore.chunk_metadata saved |}).
Proof. split; intros; reflexivity. Qed.

(** C4 as worded fails: a stored index of two vectors with a single
    metadata entry is loaded without an error, and the loaded store holds
    two vectors and one metadata entry. *)
Lemma load_accepts_mismatched_counts :
  exists st,
    VectorStore.load (VectorStore.init 384) VectorStore.mismatched_disk
    = Py.Ret st
    /\ Faiss.ntotal (VectorStore.index st) = 2
    /\ length (VectorStore.chunk_metadata st) = 1%nat.
Proof. eexists. repeat split. Qed.

(** C5 at its failing input.  The store holds one vector and [k = 2]: the
    index pads its answer with the label [-1], which [chunk_metadata[idx]]
    reads as "last entry"; the search returns two results, both the only
    stored chunk, the second with the padding score. *)
Theorem search_beyond_index_size_repeats_last_chunk :
  VectorStore.search VectorStore.one_vector_store [1%Q; 0%Q] 2
  = Py.Ret [ VectorStore.with_score VectorStore.chunk0 1;
             VectorStore.with_score VectorStore.chunk0 Faiss.neg_flt_max ]
  /\ Faiss.ntotal (VectorStore.index VectorStore.one_vector_store) = 1.
Proof. split; vm_compute; reflexivity. Qed.

(* ===================================================================== *)
(** * The retry wrapper                                                   *)
(* ===================================================================== *)

Section RetryFacts.
Import ApiRetry.
Context {S A : Type}.
Variable sdk : bool.
Variable callable_fn : S -> Py.res error A * S.
Variable pol : policy.

(** The loop from attempt [i] on, with [len + 1] attempts left, the
    last of which is attempt [max_retries].  Every attempt but the last
    failed with a retryable error and was followed by a sleep that
    returned; the run ends with the outcome of the last attempt, unless
    that attempt too calls for a retry and its delay is negative. *)
Lemma retry_loop_trace len :
  forall i last st slept trace,
    Z.of_nat (i + len) = max_retries pol ->
    let r := retry_loop sdk callable_fn pol
               (map Z.of_nat (seq i (Datatypes.S len)))
               (delay_at pol i) last st slept trace in
    exists es lastr,
      attempts r = trace ++ map Py.Raise es ++ [lastr]
      /\ Forall (retryable sdk) es
      /\ (length es <= len)%nat
      /\ sleeps r = slept ++ map (delay_at pol) (seq i (length es))
      /\ Forall (fun d => (0 <= d)%Q)
                (map (delay_at pol) (seq i (length es)))
      /\ (result r = outcome_of lastr
          \/ (result r = RaisedValueError
              /\ (delay_at pol (i + length es) < 0)%Q
              /\ (length es < len)%nat
              /\ exists e, lastr = Py.Raise e /\ retryable sdk e))
      /\ (forall e, lastr = Py.Raise e -> retryable sdk e ->
                    result r = outcome_of lastr ->
                    length es = len).
Proof.
  induction len as [|len IH]; intros i last st slept trace Hlast r; subst r.
  - cbn [seq map retry_loop].
    destruct (callable_fn st) as [[v|e] st'].
    + exists [], (Py.Ret v). split; [cbn; rewrite ?app_nil_r; reflexivity|].
      split; [constructor|]. split; [cbn; lia|].
      split; [cbn; rewrite ?app_nil_r; reflexivity|].
      split; [constructor|]. split; [left; reflexivity|].
      intros e' He'. discriminate He'.
    + replace (Z.of_nat i =? max_retries pol) with true
        by (symmetry; apply Z.eqb_eq; lia).
      cbn [orb]. exists [], (Py.Raise e). split; [cbn; rewrite ?app_nil_r; reflexivity|].
      split; [constructor|]. split; [cbn; lia|].
      split; [cbn; rewrite ?app_nil_r; reflexivity|].
      split; [constructor|]. split; [left; reflexivity|].
      intros e' _ _ _. reflexivity.
  - change (seq i (Datatypes.S (Datatypes.S len)))
      with (i :: seq (Datatypes.S i) (Datatypes.S len)).
    cbn [map retry_loop].
    destruct (callable_fn st) as [[v|e] st'].
    + exists [], (Py.Ret v). split; [cbn; rewrite ?app_nil_r; reflexivity|].
      split; [constructor|]. split; [cbn; lia|].
      split; [cbn; rewrite ?app_nil_r; reflexivity|].
      split; [constructor|]. split; [left; reflexivity|].
      intros e' He'. discriminate He'.
    + replace (Z.of_nat i =? max_retries pol) with false
        by (symmetry; apply Z.eqb_neq; lia).
      cbn [orb]. destruct (is_retryable sdk e) eqn:He; cbn [negb].
      * destruct (Py.flt (delay_at pol i) 0) eqn:Hneg.
        { exists [], (Py.Raise e). cbn [length map app seq attempts sleeps
                                        result].
          rewrite app_nil_r, Nat.add_0_r.
          split; [reflexivity|]. split; [constructor|].
          split; [lia|]. split; [reflexivity|]. split; [constructor|].
          split.
          - right. split; [reflexivity|].
            split; [|split; [lia | exists e; split; [reflexivity | exact He]]].
            unfold Py.flt in Hneg. apply negb_true_iff in Hneg.
            apply Qnot_le_lt. intros Hle. apply Qle_bool_iff in Hle.
            congruence.
          - intros e' _ _ Hres. discriminate Hres. }
        destruct (IH (Datatypes.S i) (Some e) st' (slept ++ [delay_at pol i])
                     (trace ++ [Py.Raise e]) ltac:(lia))
          as (es & lastr & Hat & Hes & Hlen & Hsl & Hpos & Hres & Hex).
        cbn [delay_at] in Hat, Hsl, Hres.
        exists (e :: es), lastr.
        split; [rewrite Hat, <- app_assoc; reflexivity|].
        split; [constructor; assumption|].
        split; [cbn; lia|].
        split; [rewrite Hsl, <- app_assoc; reflexivity|].
        split.
        { cbn [length seq map]. constructor; [|exact Hpos].
          unfold Py.flt in Hneg. apply negb_false_iff in Hneg.
          apply Qle_bool_iff. exact Hneg. }
        split.
        { destruct Hres as [Hres | (Hres & Hd & Hl & Hlast')];
            [left; exact Hres|].
          right. split; [exact Hres|].
          split; [|split; [cbn; lia | exact Hlast']].
          cbn [length].
          replace (i + Datatypes.S (length es))%nat
            with (Datatypes.S i + length es)%nat by lia.
          exact Hd. }
        intros e' He1 He2 Hr. cbn. f_equal.
        eapply Hex; [exact He1 | exact He2 | exact Hr].
      * exists [], (Py.Raise e). split; [cbn; rewrite ?app_nil_r; reflexivity|].
      split; [constructor|]. split; [cbn; lia|].
      split; [cbn; rewrite ?app_nil_r; reflexivity|].
      split; [constructor|]. split; [left; reflexivity|].
        intros e' [= ->] He'. unfold retryable in He'. congruence.
Qed.

(** The whole run, when [max_retries] is not negative. *)
Lemma with_retry_run st :
  0 <= max_retries pol ->
  let r := with_retry sdk callable_fn pol st in
  exists es lastr,
    attempts r = map Py.Raise es ++ [lastr]
    /\ Forall (retryable sdk) es
    /\ Z.of_nat (length es) <= max_retries pol
    /\ sleeps r = map (delay_at pol) (seq 0 (length es))
    /\ Forall (fun d => (0 <= d)%Q) (sleeps r)
    /\ (result r = outcome_of lastr
        \/ (result r = RaisedValueError
            /\ (delay_at pol (length es) < 0)%Q
            /\ Z.of_nat (length es) < max_retries pol
            /\ exists e, lastr = Py.Raise e /\ retryable sdk e))
    /\ (forall e, lastr = Py.Raise e -> retryable sdk e ->
                  result r = outcome_of lastr ->
                  Z.of_nat (length es) = max_retries pol).
Proof.
  intros Hmax r. subst r. unfold with_retry, range.
  replace (Z.to_nat (max_retries pol + 1))
    with (Datatypes.S (Z.to_nat (max_retries pol))) by lia.
  destruct (retry_loop_trace (Z.to_nat (max_retries pol)) 0 None st [] []
              ltac:(simpl; lia))
    as (es & lastr & Hat & Hes & Hlen & Hsl & Hpos & Hres & Hex).
  cbn [delay_at app] in Hat, Hsl, Hres.
  exists es, lastr.
  split; [exact Hat|]. split; [exact Hes|]. split; [lia|].
  split; [exact Hsl|]. split; [rewrite Hsl; exact Hpos|].
  split.
  - destruct Hres as [Hres | (Hres & Hd & Hl & Hlast)]; [left; exact Hres|].
    right. split; [exact Hres|]. split; [exact Hd|]. split; [lia | exact Hlast].
  - intros e He1 He2 Hr. rewrite (Hex e He1 He2 Hr). lia.
Qed.

(** With delays that can be slept, no delay of the schedule is
    negative. *)
Lemma delay_at_nonneg i : sleepable pol -> (0 <= delay_at pol i)%Q.
Proof.
  intros (Hi & Hm & Hb). induction i as [|i IH]; [exact Hi|].
  cbn [delay_at]. unfold Py.min.
  destruct (Py.flt _ _); [exact Hm|]. apply Qmult_le_0_compat; assumption.
Qed.

(** The whole run under such a policy: it ends with the outcome of its
    last attempt. *)
Lemma with_retry_trace st :
  0 <= max_retries pol ->
  sleepable pol ->
  let r := with_retry sdk callable_fn pol st in
  exists es lastr,
    attempts r = map Py.Raise es ++ [lastr]
    /\ Forall (retryable sdk) es
    /\ Z.of_nat (length es) <= max_retries pol
    /\ sleeps r = map (delay_at pol) (seq 0 (length es))
    /\ result r = outcome_of lastr
    /\ (forall e, lastr = Py.Raise e -> retryable sdk e ->
                  Z.of_nat (length es) = max_retries pol).
Proof.
  intros Hmax Hpol r. subst r.
  destruct (with_retry_run st Hmax)
    as (es & lastr & Hat & Hes & Hlen & Hsl & _ & Hres & Hex).
  assert (Hr : result (with_retry sdk callable_fn pol st) = outcome_of lastr).
  { destruct Hres as [Hres | (_ & Hd & _)]; [exact Hres|].
    exfalso. apply (Qlt_not_le _ _ Hd). apply delay_at_nonneg, Hpol. }
  exists es, lastr. repeat split; try assumption.
  intros e He1 He2. apply (Hex e He1 He2 Hr).
Qed.

(** A run without attempts: only for a negative [max_retries]. *)
Lemma with_retry_no_attempt st :
  max_retries pol < 0 ->
  attempts (with_retry sdk callable_fn pol st) = [].
Proof.
  intros Hneg. unfold with_retry, range.
  replace (Z.to_nat (max_retries pol + 1)) with 0%nat by lia.
  reflexivity.
Qed.

Lemma split_at_last {T} (pre post l : list T) (x y : T) :
  pre ++ x :: post = l ++ [y] ->
  (post = [] /\ pre = l /\ x = y) \/ In x l.
Proof.
  destruct post as [|z post _] using rev_ind; intros H.
  - apply app_inj_tail in H as [-> ->]. left. repeat split.
  - right. change (pre ++ x :: post ++ [z]) with (pre ++ (x :: post) ++ [z]) in H.
    rewrite app_assoc in H. apply app_inj_tail in H as [<- _].
    apply in_or_app. right. left. reflexivity.
Qed.

End RetryFacts.

(** C6 (amended).  A failure is retryable exactly when the SDK is present
    and the error is a timeout, a connection failure, or a status error
    (rate-limit errors included) whose status code is 429, 500, 502 or
    503; every other failure is fatal, among them every other 4xx and
    every other 5xx.  A fatal failure ends the run at once: it is the last
    attempt, it is the error raised, and no sleep follows it. *)
Theorem retry_classification :
  (forall (sdk : bool) (e : ApiRetry.error),
      ApiRetry.is_retryable sdk e = ApiRetry.retryable_by_code sdk e)
  /\ (forall (S A : Type) (sdk : bool)
             (callable_fn : S -> Py.res ApiRetry.error A * S)
             (pol : ApiRetry.policy) (st : S)
             (pre post : list (Py.res ApiRetry.error A)) (e : ApiRetry.error),
         let r := ApiRetry.with_retry sdk callable_fn pol st in
         ApiRetry.attempts r = pre ++ Py.Raise e :: post ->
         ApiRetry.is_retryable sdk e = false ->
         post = []
         /\ ApiRetry.result r = ApiRetry.Raised e
         /\ length (ApiRetry.sleeps r) = length pre).
Proof.
  split.
  - intros sdk e. unfold ApiRetry.is_retryable, ApiRetry.retryable_by_code,
      ApiRetry.isinstance.
    destruct sdk; [|reflexivity].
    destruct e as [c sc rs]. destruct c; cbn; try reflexivity;
      destruct (ApiRetry._status_code _) as [code|]; try reflexivity;
      rewrite !orb_false_r, !orb_assoc; reflexivity.
  - intros S A sdk callable_fn pol st pre post e r Hat Hfatal. subst r.
    destruct (Z.lt_ge_cases (ApiRetry.max_retries pol) 0) as [Hneg|Hmax].
    { rewrite with_retry_no_attempt in Hat by assumption.
      destruct pre; discriminate. }
    destruct (with_retry_run sdk callable_fn pol st Hmax)
      as (es & lastr & Hat' & Hes & _ & Hsl & _ & Hres & _).
    rewrite Hat' in Hat. symmetry in Hat.
    apply split_at_last in Hat as [(-> & -> & <-) | Hin].
    + split; [reflexivity|]. split.
      * destruct Hres as [Hres | (_ & _ & _ & e' & [= <-] & He')];
          [exact Hres|].
        unfold ApiRetry.retryable in He'. congruence.
      * rewrite Hsl, !length_map, length_seq. reflexivity.
    + apply in_map_iff in Hin as (e' & [= ->] & Hin).
      rewrite List.Forall_forall in Hes. specialize (Hes e Hin).
      unfold ApiRetry.retryable in Hes. congruence.
Qed.

Lemma retry_classification_witness :
  let r := ApiRetry.with_retry true
             (ApiRetry.fail_then_succeed 1 (ApiRetry.status_error 400) tt)
             ApiRetry.default_policy 0%nat in
  ApiRetry.attempts r = [] ++ Py.Raise (ApiRetry.status_error 400) :: []
  /\ ApiRetry.is_retryable true (ApiRetry.status_error 400) = false
  /\ ApiRetry.result r = ApiRetry.Raised (ApiRetry.status_error 400)
  /\ length (ApiRetry.sleeps r) = 0%nat.
Proof.
  intros r.
  assert (Hat : ApiRetry.attempts r
                = [] ++ Py.Raise (ApiRetry.status_error 400) :: [])
    by reflexivity.
  assert (Hfatal : ApiRetry.is_retryable true (ApiRetry.status_error 400)
                   = false) by reflexivity.
  destruct (proj2 retry_classification nat unit true
              (ApiRetry.fail_then_succeed 1 (ApiRetry.status_error 400) tt)
              ApiRetry.default_policy 0%nat [] []
              (ApiRetry.status_error 400) Hat Hfatal)
    as (_ & Hres & Hsl).
  split; [exact Hat|]. split; [exact Hfatal|]. split; [exact Hres|exact Hsl].
Defined.

(** C6 as worded fails: a 504 is a 5xx server error, so the specification
    calls it retryable, but its status code is not in the retryable set;
    the wrapper raises it after the first attempt without sleeping. *)
Lemma gateway_timeout_is_fatal :
  ApiRetry.spec_retryable (ApiRetry.status_error 504) = true
  /\ ApiRetry.is_retryable true (ApiRetry.status_error 504) = false
  /\ (let r := ApiRetry.with_retry true
                 (ApiRetry.fail_then_succeed 1 (ApiRetry.status_error 504) tt)
                 ApiRetry.default_policy 0%nat in
      ApiRetry.result r = ApiRetry.Raised (ApiRetry.status_error 504)
      /\ length (ApiRetry.attempts r) = 1%nat
      /\ ApiRetry.sleeps r = []).
Proof. repeat split. Qed.

(** C7.  With [max_retries >= 0] and no negative number among
    [initial_delay], [max_delay] and [exponential_base] (a negative delay
    makes [time.sleep] raise), a call makes at most [max_retries + 1]
    attempts; every attempt but the last failed with a retryable error and
    was followed by one sleep; the sleeps are the delay schedule, which
    starts at [initial_delay], is multiplied by [exponential_base] after
    each retry and capped at [max_delay]; the outcome is that of the last
    attempt, so when all [max_retries + 1] attempts fail the last error is
    raised.  With the default policy (1, 2, 60), two rate-limit failures
    and then a success give the sleeps 1, 2 and three attempts. *)
Theorem with_retry_backoff :
  (forall (S A : Type) (sdk : bool)
          (callable_fn : S -> Py.res ApiRetry.error A * S)
          (pol : ApiRetry.policy) (st : S),
      0 <= ApiRetry.max_retries pol ->
      (0 <= ApiRetry.initial_delay pol)%Q ->
      (0 <= ApiRetry.max_delay pol)%Q ->
      (0 <= ApiRetry.exponential_base pol)%Q ->
      let r := ApiRetry.with_retry sdk callable_fn pol st in
      exists es lastr,
        ApiRetry.attempts r = map Py.Raise es ++ [lastr]
        /\ Z.of_nat (length (ApiRetry.attempts r))
           <= ApiRetry.max_retries pol + 1
        /\ Forall (ApiRetry.retryable sdk) es
        /\ ApiRetry.sleeps r
           = map (ApiRetry.delay_at pol) (seq 0 (length es))
        /\ ApiRetry.result r = ApiRetry.outcome_of lastr
        /\ (forall e, lastr = Py.Raise e -> ApiRetry.retryable sdk e ->
                      Z.of_nat (length (ApiRetry.attempts r))
                      = ApiRetry.max_retries pol + 1))
  /\ (forall (pol : ApiRetry.policy) (i : nat),
         ApiRetry.delay_at pol 0 = ApiRetry.initial_delay pol
         /\ ApiRetry.delay_at pol (S i)
            = Py.min (ApiRetry.delay_at pol i * ApiRetry.exponential_base pol)
                     (ApiRetry.max_delay pol)
         /\ (ApiRetry.delay_at pol (S i) <= ApiRetry.max_delay pol)%Q)
  /\ (let r := ApiRetry.with_retry true
                 (ApiRetry.fail_then_succeed 2 ApiRetry.rate_limit_429 tt)
                 ApiRetry.default_policy 0%nat in
      ApiRetry.sleeps r = [1%Q; 2%Q]
      /\ length (ApiRetry.attempts r) = 3%nat
      /\ ApiRetry.result r = ApiRetry.Returned tt).
Proof.
  split; [|split].
  - intros S A sdk callable_fn pol st Hmax Hinit Hcap Hbase r. subst r.
    destruct (with_retry_trace sdk callable_fn pol st Hmax
                (conj Hinit (conj Hcap Hbase)))
      as (es & lastr & Hat & Hes & Hlen & Hsl & Hres & Hex).
    exists es, lastr. rewrite Hat, length_app, length_map. cbn [length].
    repeat split; try assumption; try lia.
    intros e He1 He2. rewrite <- (Hex e He1 He2). lia.
  - intros pol i. split; [reflexivity|]. split; [reflexivity|].
    cbn [ApiRetry.delay_at]. unfold Py.min, Py.flt.
    destruct (Qle_bool _ _) eqn:Hle; cbn [negb].
    + apply Qle_bool_iff. exact Hle.
    + apply Qle_refl.
  - repeat split.
Qed.

Lemma with_retry_backoff_witness :
  0 <= ApiRetry.max_retries ApiRetry.default_policy
  /\ (0 <= ApiRetry.initial_delay ApiRetry.default_policy)%Q
  /\ (0 <= ApiRetry.max_delay ApiRetry.default_policy)%Q
  /\ (0 <= ApiRetry.exponential_base ApiRetry.default_policy)%Q
  /\ exists es lastr,
      ApiRetry.attempts
        (ApiRetry.with_retry true
           (ApiRetry.fail_then_succeed 2 ApiRetry.rate_limit_429 tt)
           ApiRetry.default_policy 0%nat)
      = map Py.Raise es ++ [lastr].
Proof.
  split; [simpl; lia|].
  split; [discriminate|]. split; [discriminate|]. split; [discriminate|].
  destruct (proj1 with_retry_backoff nat unit true
              (ApiRetry.fail_then_succeed 2 ApiRetry.rate_limit_429 tt)
              ApiRetry.default_policy 0%nat ltac:(simpl; lia)
              ltac:(discriminate) ltac:(discriminate) ltac:(discriminate))
    as (es & lastr & Hat & _).
  exists es, lastr. exact Hat.
Defined.

(* ===================================================================== *)
(** * Failure mining                                                      *)
(* ===================================================================== *)

Section FailureFacts.
Import CompareBaselineEnhanced.
Variable rd : gmap py_id eval_result.

Lemma id_eqb_spec a b : reflect (a = b) (id_eqb a b).
Proof.
  destruct a as [x|x], b as [y|y]; simpl; try (constructor; discriminate).
  - destruct (String.eqb_spec x y) as [->|Hne]; constructor; congruence.
  - destruct (Z.eqb_spec x y) as [->|Hne]; constructor; congruence.
Qed.

Lemma id_eqb_refl a : id_eqb a a = true.
Proof. destruct (id_eqb_spec a a); [reflexivity | contradiction]. Qed.

Lemma id_eqb_eq a b : id_eqb a b = true <-> a = b.
Proof. destruct (id_eqb_spec a b); split; congruence. Qed.

Lemma types_of_app fs1 fs2 q :
  types_of (fs1 ++ fs2) q = types_of fs1 q ++ types_of fs2 q.
Proof. unfold types_of. rewrite List.filter_app, map_app. reflexivity. Qed.

Lemma types_of_one f q :
  types_of [f] q = if id_eqb (f_query_id f) q then [f_type f] else [].
Proof. unfold types_of. simpl. destruct (id_eqb _ _); reflexivity. Qed.

(** A query is found in [failures] exactly when it has a type there. *)
Lemma classified_types fs q :
  classified fs q = match types_of fs q with [] => false | _ :: _ => true end.
Proof.
  unfold classified, types_of.
  induction fs as [|f fs IH]; [reflexivity|]. simpl.
  destruct (id_eqb_spec (f_query_id f) q) as [->|Hne]; simpl.
  - apply bool_decide_eq_true. left.
  - rewrite <- IH. apply eq_true_iff_eq.
    rewrite !bool_decide_eq_true, elem_of_cons. split; [|tauto].
    intros [->|H]; [contradiction|exact H].
Qed.

Lemma existsb_filter {T} (f g : T -> bool) l :
  existsb f (List.filter g l) = existsb (fun x => g x && f x) l.
Proof.
  induction l as [|x l IH]; [reflexivity|]. simpl.
  destruct (g x); simpl; rewrite IH; reflexivity.
Qed.

Lemma filter_filter {T} (f g : T -> bool) l :
  List.filter f (List.filter g l) = List.filter (fun x => g x && f x) l.
Proof.
  induction l as [|x l IH]; [reflexivity|]. simpl.
  destruct (g x); simpl; [destruct (f x)|]; rewrite IH; reflexivity.
Qed.

(** Rule 1 records every selected row. *)
Lemma rule1_types scores q :
  forall fs,
    types_of (rule1 rd scores fs) q
    = types_of fs q ++ repeat LowCitationPrecision (hits low_precision scores q).
Proof.
  unfold rule1, hits. rewrite <- filter_filter.
  fold low_precision.
  induction (List.filter low_precision scores) as [|row rows IH];
    intros fs; simpl.
  - rewrite app_nil_r. reflexivity.
  - rewrite IH, types_of_app, types_of_one. simpl. unfold of_query.
    destruct (id_eqb (query_id row) q); simpl;
      rewrite <- app_assoc; reflexivity.
Qed.

(** Rule 2 records every selected row whose result has chunks. *)
Lemma rule2_types scores q :
  forall fs,
    types_of (rule2 rd scores fs) q
    = types_of fs q
      ++ (if (0 <? length (get_chunks rd q))%nat
          then repeat MissingCitations (hits no_citations scores q)
          else []).
Proof.
  unfold rule2, hits. rewrite <- filter_filter.
  fold no_citations.
  induction (List.filter no_citations scores) as [|row rows IH];
    intros fs; simpl.
  - destruct (0 <? _)%nat; rewrite app_nil_r; reflexivity.
  - rewrite IH. unfold of_query.
    destruct (id_eqb_spec (query_id row) q) as [->|Hne].
    + destruct (0 <? length (get_chunks rd q))%nat; [|reflexivity].
      rewrite types_of_app, types_of_one. simpl. rewrite id_eqb_refl.
      rewrite <- app_assoc. reflexivity.
    + destruct (0 <? length (get_chunks rd (query_id row)))%nat;
        [|reflexivity].
      rewrite types_of_app, types_of_one. simpl.
      destruct (id_eqb_spec (query_id row) q); [contradiction|].
      rewrite app_nil_r. reflexivity.
Qed.

(** Rules 3 and 4 record a query only if it has no type yet. *)
Lemma guarded_rule_types ty sel scores q :
  forall fs,
    types_of (guarded_rule rd ty sel scores fs) q
    = otherwise (types_of fs q) ty (any sel scores q).
Proof.
  unfold guarded_rule, any. rewrite <- existsb_filter.
  induction (List.filter sel scores) as [|row rows IH]; intros fs; simpl.
  - unfold otherwise. destruct (types_of fs q); reflexivity.
  - rewrite IH. unfold of_query.
    rewrite classified_types.
    destruct (id_eqb_spec (query_id row) q) as [->|Hne].
    + destruct (types_of fs q) as [|t ts] eqn:E; simpl.
      * rewrite types_of_app, E, types_of_one. simpl.
        rewrite id_eqb_refl. reflexivity.
      * rewrite E. reflexivity.
    + assert (Hsame : forall fs',
                 types_of (fs' ++ [mk ty rd (query_id row)]) q
                 = types_of fs' q).
      { intros fs'. rewrite types_of_app, types_of_one. simpl.
        destruct (id_eqb_spec (query_id row) q); [contradiction|].
        apply app_nil_r. }
      destruct (types_of fs (query_id row)); simpl;
        rewrite ?Hsame; reflexivity.
Qed.

(** Rule 5 does the same over the results log. *)
Lemma rule5_types results q :
  forall fs,
    types_of (rule5 results fs) q
    = otherwise (types_of fs q) InvalidCitations (has_invalid results q).
Proof.
  unfold rule5, has_invalid.
  induction results as [|r results IH]; intros fs; simpl.
  - unfold otherwise. destruct (types_of fs q); reflexivity.
  - rewrite IH. rewrite classified_types.
    destruct (r_invalid_citations r) as [|c cs] eqn:Einv; simpl;
      [reflexivity|].
    destruct (id_eqb_spec (r_query_id r) q) as [->|Hne].
    + destruct (types_of fs q) as [|t ts] eqn:E; simpl.
      * rewrite types_of_app, E, types_of_one. simpl.
        rewrite id_eqb_refl. reflexivity.
      * rewrite E. reflexivity.
    + destruct (types_of fs (r_query_id r)); simpl; [|reflexivity].
      rewrite types_of_app, types_of_one. simpl.
      destruct (id_eqb_spec (r_query_id r) q); [contradiction|].
      rewrite app_nil_r. reflexivity.
Qed.

End FailureFacts.

Lemma find_failures_types scores results q :
  CompareBaselineEnhanced.types_of
    (CompareBaselineEnhanced.find_failures scores results) q
  = CompareBaselineEnhanced.expected_types scores results q.
Proof.
  unfold CompareBaselineEnhanced.find_failures,
    CompareBaselineEnhanced.expected_types,
    CompareBaselineEnhanced.rule3, CompareBaselineEnhanced.rule4.
  rewrite rule5_types, !guarded_rule_types, rule2_types, rule1_types.
  reflexivity.
Qed.

Section FirstMatch.
Import CompareBaselineEnhanced.

Lemma otherwise_cons t ts ty b : otherwise (t :: ts) ty b = t :: ts.
Proof. reflexivity. Qed.

Lemma rules_1_2_types n m b ty :
  In ty (repeat LowCitationPrecision n
         ++ (if b : bool then repeat MissingCitations m else [])) ->
  ty = LowCitationPrecision \/ ty = MissingCitations.
Proof.
  intros H. apply in_app_or in H as [H|H].
  - left. eapply repeat_spec, H.
  - right. destruct b; [eapply repeat_spec, H | destruct H].
Qed.

End FirstMatch.

(** X29.  The types recorded under a query id are: 'Low Citation
    Precision' once per row with precision below 0.8; then 'Missing
    Citations' once per row without citations when the log record found
    under that id has retrieved chunks, whether or not rule 1 already
    recorded the query; and, only for an id that rules 1 and 2 left
    unrecorded, the first of 'Low Groundedness', 'Low Answer Relevance',
    'Invalid Citations' whose rule applies.  So an id recorded by rule 3,
    4 or 5 has that single type, and an id whose log record has no
    retrieved chunks, or is not found, is never 'Missing Citations'.  An
    id that reads back from the scores table as the integer 7 is not found
    in the log, which holds ["7"]: rule 2 misses it, and rule 5 records the
    log's ["7"] though rule 1 recorded 7. *)
Theorem failure_types_first_match :
  (forall scores results q,
      CompareBaselineEnhanced.types_of
        (CompareBaselineEnhanced.find_failures scores results) q
      = CompareBaselineEnhanced.expected_types scores results q)
  /\ (forall scores results q ty,
         In ty (CompareBaselineEnhanced.types_of
                  (CompareBaselineEnhanced.find_failures scores results) q) ->
         ty = CompareBaselineEnhanced.LowGroundedness
         \/ ty = CompareBaselineEnhanced.LowAnswerRelevance
         \/ ty = CompareBaselineEnhanced.InvalidCitations ->
         CompareBaselineEnhanced.types_of
           (CompareBaselineEnhanced.find_failures scores results) q
         = [ty])
  /\ (forall scores results q,
         CompareBaselineEnhanced.get_chunks
           (CompareBaselineEnhanced.results_dict results) q = [] ->
         ~ In CompareBaselineEnhanced.MissingCitations
              (CompareBaselineEnhanced.types_of
                 (CompareBaselineEnhanced.find_failures scores results) q))
  /\ CompareBaselineEnhanced.types_of
       (CompareBaselineEnhanced.find_failures
          [CompareBaselineEnhanced.row_no_citations]
          [CompareBaselineEnhanced.result_without_chunks])
       (CompareBaselineEnhanced.IdStr "q1")
     = [CompareBaselineEnhanced.LowCitationPrecision]
  /\ CompareBaselineEnhanced.types_of
       (CompareBaselineEnhanced.find_failures
          [CompareBaselineEnhanced.row_low_scores]
          [CompareBaselineEnhanced.result_low_scores])
       (CompareBaselineEnhanced.IdStr "q2")
     = [CompareBaselineEnhanced.LowGroundedness]
  /\ CompareBaselineEnhanced.types_of
       (CompareBaselineEnhanced.find_failures
          [CompareBaselineEnhanced.row_numeric_id]
          [CompareBaselineEnhanced.result_numeric_id])
       (CompareBaselineEnhanced.IdInt 7)
     = [CompareBaselineEnhanced.LowCitationPrecision]
  /\ CompareBaselineEnhanced.types_of
       (CompareBaselineEnhanced.find_failures
          [CompareBaselineEnhanced.row_numeric_id]
          [CompareBaselineEnhanced.result_numeric_id_invalid])
       (CompareBaselineEnhanced.IdStr "7")
     = [CompareBaselineEnhanced.InvalidCitations].
Proof.
  split; [exact find_failures_types|].
  split; [|split; [|split; [|split; [|split]]; vm_compute; reflexivity]].
  - intros scores results q ty. rewrite find_failures_types.
    unfold CompareBaselineEnhanced.expected_types.
    set (b := (0 <? _)%nat).
    destruct (repeat _ _ ++ _) as [|t ts] eqn:E.
    + unfold CompareBaselineEnhanced.otherwise.
      destruct (CompareBaselineEnhanced.any _ _ _);
        [|destruct (CompareBaselineEnhanced.any _ _ _);
          [|destruct (CompareBaselineEnhanced.has_invalid _ _)]];
        simpl; intros H _; intuition (subst; reflexivity).
    + rewrite !otherwise_cons. rewrite <- E. intros Hin Hty.
      apply rules_1_2_types in Hin. destruct Hin as [-> | ->];
        destruct Hty as [H|[H|H]]; discriminate.
  - intros scores results q Hchunks. rewrite find_failures_types.
    unfold CompareBaselineEnhanced.expected_types. rewrite Hchunks.
    simpl length. simpl (0 <? 0)%nat. rewrite app_nil_r.
    destruct (repeat _ _) as [|t ts] eqn:E.
    + unfold CompareBaselineEnhanced.otherwise.
      destruct (CompareBaselineEnhanced.any _ _ _);
        [|destruct (CompareBaselineEnhanced.any _ _ _);
          [|destruct (CompareBaselineEnhanced.has_invalid _ _)]];
        simpl; intros H; intuition discriminate.
    + rewrite !otherwise_cons. rewrite <- E. intros Hin.
      apply repeat_spec in Hin. discriminate.
Qed.

Lemma failure_types_first_match_witness :
  In CompareBaselineEnhanced.LowGroundedness
     (CompareBaselineEnhanced.types_of
        (CompareBaselineEnhanced.find_failures
           [CompareBaselineEnhanced.row_low_scores]
           [CompareBaselineEnhanced.result_low_scores])
        (CompareBaselineEnhanced.IdStr "q2"))
  /\ CompareBaselineEnhanced.types_of
       (CompareBaselineEnhanced.find_failures
          [CompareBaselineEnhanced.row_low_scores]
          [CompareBaselineEnhanced.result_low_scores])
       (CompareBaselineEnhanced.IdStr "q2")
     = [CompareBaselineEnhanced.LowGroundedness].
Proof.
  assert (Hin : In CompareBaselineEnhanced.LowGroundedness
                   (CompareBaselineEnhanced.types_of
                      (CompareBaselineEnhanced.find_failures
                         [CompareBaselineEnhanced.row_low_scores]
                         [CompareBaselineEnhanced.result_low_scores])
                      (CompareBaselineEnhanced.IdStr "q2")))
    by (vm_compute; left; reflexivity).
  split; [exact Hin|].
  apply (proj1 (proj2 failure_types_first_match)
               [CompareBaselineEnhanced.row_low_scores]
               [CompareBaselineEnhanced.result_low_scores]
               (CompareBaselineEnhanced.IdStr "q2")
               CompareBaselineEnhanced.LowGroundedness Hin).
  left. reflexivity.
Defined.

(** C2 at its failing input.  A query whose answer has no citation
    (precision 0.0, no citations counted) and whose log record has one
    retrieved chunk is recorded under two types, 'Low Citation Precision'
    by rule 1 and 'Missing Citations' by rule 2, which unlike rules 3 to 5
    does not skip a query that is already recorded; the same query without
    retrieved chunks is recorded under the rule-1 type. *)
Lemma query_recorded_under_two_types :
  CompareBaselineEnhanced.types_of
    (CompareBaselineEnhanced.find_failures
       [CompareBaselineEnhanced.row_no_citations]
       [CompareBaselineEnhanced.result_with_chunk])
    (CompareBaselineEnhanced.IdStr "q1")
  = [CompareBaselineEnhanced.LowCitationPrecision;
     CompareBaselineEnhanced.MissingCitations]
  /\ CompareBaselineEnhanced.types_of
       (CompareBaselineEnhanced.find_failures
          [CompareBaselineEnhanced.row_no_citations]
          [CompareBaselineEnhanced.result_without_chunks])
       (CompareBaselineEnhanced.IdStr "q1")
     = [CompareBaselineEnhanced.LowCitationPrecision].
Proof. split; vm_compute; reflexivity. Qed.

(* ===================================================================== *)
(** * More on the chunker                                                 *)
(* ===================================================================== *)

Section ChunkerMore.
Import Chunker.

Lemma slice_length {A} (l : list A) (a b : Z) :
  0 <= a <= b -> b <= Z.of_nat (length l) ->
  Z.of_nat (length (Py.slice l a b)) = b - a.
Proof.
  intros Hab Hb. unfold Py.slice, Py.clamp.
  destruct (Z.ltb_spec a 0) as [|_]; [lia|].
  destruct (Z.ltb_spec b 0) as [|_]; [lia|].
  rewrite length_firstn, length_skipn. lia.
Qed.

Lemma decimal_value_zeros k s :
  decimal_value (string_of_list_ascii (repeat "0"%char k) +:+ s)
  = decimal_value s.
Proof.
  induction k as [|k IH]; [reflexivity|].
  unfold decimal_value in *. simpl.
  destruct (NilEmpty.uint_of_string
              (string_of_list_ascii (repeat "0"%char k) +:+ s)) as [d|];
    destruct (NilEmpty.uint_of_string s) as [d'|]; simpl in *;
    try discriminate; try reflexivity.
  exact IH.
Qed.

Lemma decimal_value_of_N (n : N) :
  decimal_value (NilZero.string_of_uint (N.to_uint n)) = Some (Z.of_N n).
Proof.
  unfold decimal_value.
  assert (H : NilZero.string_of_uint (N.to_uint n)
              = NilEmpty.string_of_uint (N.to_uint n)).
  { destruct n as [|p]; [reflexivity|]. simpl.
    pose proof (DecimalPos.Unsigned.to_uint_nonnil p) as Hp.
    destruct (Pos.to_uint p); [contradiction|reflexivity..]. }
  rewrite H, NilEmpty.usu. simpl. rewrite DecimalN.Unsigned.of_to.
  reflexivity.
Qed.

(** The chunk number can be read back from its three-digit rendering. *)
Lemma decimal_value_fmt_03d (n : Z) :
  0 <= n -> decimal_value (Py.fmt_03d n) = Some n.
Proof.
  intros Hn. unfold Py.fmt_03d.
  destruct (Z.ltb_spec n 0) as [|_]; [lia|].
  unfold Py.zfill. rewrite decimal_value_zeros, decimal_value_of_N.
  rewrite Z2N.id by exact Hn. reflexivity.
Qed.

Lemma append_inj_r (p a b : string) : p +:+ a = p +:+ b -> a = b.
Proof.
  induction p as [|c p IH]; simpl; [trivial|].
  intros [= H]. apply IH, H.
Qed.

Lemma chunk_from_id {token} (decode : list token -> string) self
      (tokens : list token) sid i j :
  chunk_id (chunk_from decode self tokens sid 0 1 i)
  = chunk_id (chunk_from decode self tokens sid 0 1 j) ->
  i = j.
Proof.
  unfold chunk_from, make_chunk. cbn [chunk_id]. intros H.
  apply append_inj_r, append_inj_r in H.
  apply (f_equal decimal_value) in H.
  rewrite !decimal_value_fmt_03d in H by lia.
  injection H as H. lia.
Qed.

End ChunkerMore.

(** X1.  Under [0 <= overlap < chunk_size] the windows lie inside the
    token sequence, none is empty or longer than [chunk_size], and every
    token position falls into at least one of them. *)
Theorem chunk_windows_cover {token} (encode : string -> list token)
        (decode : list token -> string) (self : Chunker.TextChunker)
        (text sid : string) :
  0 <= Chunker.overlap self < Chunker.chunk_size self ->
  exists ws,
    Chunker.chunk_windows encode decode (S (length (encode text)))
                          self text sid = Some ws
    /\ Forall (fun w => 0 <= fst w < snd w
                        /\ snd w <= Z.of_nat (length (encode text))
                        /\ snd w - fst w <= Chunker.chunk_size self) ws
    /\ (forall t, 0 <= t < Z.of_nat (length (encode text)) ->
                  Exists (fun w => fst w <= t < snd w) ws).
Proof.
  intros Hvalid.
  destruct (run_closed_form encode decode self text sid ltac:(lia))
    as (m & Hw & _ & Hm).
  eexists. split; [exact Hw|]. split.
  - apply List.Forall_forall. intros w Hin.
    apply in_map_iff in Hin as (j & <- & Hj). apply in_seq in Hj.
    pose proof (proj1 (Hm j) ltac:(lia)) as Hlt.
    assert (Hpos : 0 <= Z.of_nat j * Chunker.stride self)
      by (unfold Chunker.stride; nia).
    unfold Chunker.window_from, Chunker.window_end, Chunker.stride in *.
    cbn [fst snd]. lia.
  - intros t Ht. apply List.Exists_exists.
    assert (Hs : 0 < Chunker.stride self) by (unfold Chunker.stride; lia).
    pose proof (Z.div_mod t (Chunker.stride self) ltac:(lia)) as Hdm.
    pose proof (Z.mod_pos_bound t (Chunker.stride self) Hs) as Hmod.
    assert (Hq : 0 <= t / Chunker.stride self)
      by (apply Z.div_pos; lia).
    exists (Chunker.window_from self (encode text) 0
              (Z.to_nat (t / Chunker.stride self))).
    split.
    + apply in_map, in_seq. split; [lia|]. simpl.
      apply Hm. rewrite Z2Nat.id by exact Hq. nia.
    + unfold Chunker.window_from, Chunker.window_end. cbn [fst snd].
      rewrite Z2Nat.id by exact Hq.
      unfold Chunker.stride in *. nia.
Qed.

Lemma chunk_windows_cover_witness :
  0 <= 3 < 10
  /\ exists ws,
      Chunker.chunk_windows Chunker.byte_encode Chunker.byte_decode 26
        {| Chunker.chunk_size := 10; Chunker.overlap := 3 |}
        "abcdefghijklmnopqrstuvwxy" "doc" = Some ws
      /\ Exists (fun w => fst w <= 20 < snd w) ws.
Proof.
  split; [lia|].
  destruct (chunk_windows_cover Chunker.byte_encode Chunker.byte_decode
              {| Chunker.chunk_size := 10; Chunker.overlap := 3 |}
              "abcdefghijklmnopqrstuvwxy" "doc" ltac:(simpl; lia))
    as (ws & Hw & _ & Hcover).
  exists ws. split; [exact Hw|]. apply Hcover. simpl. lia.
Defined.

(** X2.  For [overlap < chunk_size] the number of chunks is the token
    count divided by the stride, rounded up. *)
Theorem chunk_count_ceiling {token} (encode : string -> list token)
        (decode : list token -> string) (self : Chunker.TextChunker)
        (text sid : string) :
  Chunker.overlap self < Chunker.chunk_size self ->
  exists chunks,
    Chunker.chunk_text encode decode (S (length (encode text)))
                       self text sid = Some chunks
    /\ Z.of_nat (length chunks)
       = (Z.of_nat (length (encode text)) + Chunker.stride self - 1)
         / Chunker.stride self.
Proof.
  intros Hvalid.
  destruct (run_closed_form encode decode self text sid Hvalid)
    as (m & _ & Hc & Hm).
  eexists. split; [exact Hc|].
  rewrite length_map, length_seq.
  assert (Hs : 0 < Chunker.stride self) by (unfold Chunker.stride; lia).
  set (n := Z.of_nat (length (encode text))) in *.
  set (s := Chunker.stride self) in *.
  assert (Hup : n <= Z.of_nat m * s).
  { destruct (Z.le_gt_cases n (Z.of_nat m * s)) as [|Hgt]; [assumption|].
    apply Hm in Hgt. lia. }
  assert (Hlow : m <> 0%nat -> (Z.of_nat m - 1) * s < n).
  { intros Hne.
    replace (Z.of_nat m - 1) with (Z.of_nat (m - 1)) by lia.
    apply Hm. lia. }
  apply Z.le_antisymm.
  - apply Z.div_le_lower_bound; [exact Hs|].
    destruct (Nat.eq_dec m 0%nat) as [->|Hne]; [simpl; lia|].
    specialize (Hlow Hne). lia.
  - apply Z.lt_succ_r. apply Z.div_lt_upper_bound; [exact Hs|]. lia.
Qed.

Lemma chunk_count_ceiling_witness :
  3 < 10
  /\ exists chunks,
      Chunker.chunk_text Chunker.byte_encode Chunker.byte_decode 26
        {| Chunker.chunk_size := 10; Chunker.overlap := 3 |}
        "abcdefghijklmnopqrstuvwxy" "doc" = Some chunks
      /\ Z.of_nat (length chunks) = 4.
Proof.
  split; [lia|].
  destruct (chunk_count_ceiling Chunker.byte_encode Chunker.byte_decode
              {| Chunker.chunk_size := 10; Chunker.overlap := 3 |}
              "abcdefghijklmnopqrstuvwxy" "doc" ltac:(simpl; lia))
    as (chunks & Hc & Hlen).
  exists chunks. split; [exact Hc | exact Hlen].
Defined.

(** X3.  Under [0 <= overlap < chunk_size] every chunk records as
    [token_count] the length of its window, which is at least 1 and at
    most [chunk_size], and its text is the detokenised window. *)
Theorem chunk_token_counts {token} (encode : string -> list token)
        (decode : list token -> string) (self : Chunker.TextChunker)
        (doc sid : string) :
  0 <= Chunker.overlap self < Chunker.chunk_size self ->
  exists chunks ws,
    Chunker.chunk_text encode decode (S (length (encode doc)))
                       self doc sid = Some chunks
    /\ Chunker.chunk_windows encode decode (S (length (encode doc)))
                             self doc sid = Some ws
    /\ map token_count chunks = map (fun w => snd w - fst w) ws
    /\ map text chunks
       = map (fun w => decode (Py.slice (encode doc) (fst w) (snd w))) ws
    /\ Forall (fun c => 1 <= token_count c <= Chunker.chunk_size self) chunks.
Proof.
  intros Hvalid.
  destruct (run_closed_form encode decode self doc sid ltac:(lia))
    as (m & Hw & Hc & Hm).
  do 2 eexists. split; [exact Hc|]. split; [exact Hw|].
  assert (Hcount : forall j, In j (seq 0 m) ->
            token_count (Chunker.chunk_from decode self (encode doc) sid 0 1 j)
            = snd (Chunker.window_from self (encode doc) 0 j)
              - fst (Chunker.window_from self (encode doc) 0 j)
            /\ 1 <= token_count
                      (Chunker.chunk_from decode self (encode doc) sid 0 1 j)
               <= Chunker.chunk_size self).
  { intros j Hj. apply in_seq in Hj.
    pose proof (proj1 (Hm j) ltac:(lia)) as Hlt.
    assert (Hpos : 0 <= Z.of_nat j * Chunker.stride self)
      by (unfold Chunker.stride; nia).
    unfold Chunker.chunk_from, Chunker.make_chunk, Chunker.window_from.
    cbn [token_count fst snd].
    rewrite slice_length; unfold Chunker.window_end; lia. }
  rewrite !map_map. split; [|split].
  - apply map_ext_in. intros j Hj. apply Hcount, Hj.
  - apply map_ext. intros j. reflexivity.
  - apply List.Forall_forall. intros c Hin.
    apply in_map_iff in Hin as (j & <- & Hj). apply Hcount, Hj.
Qed.

Lemma chunk_token_counts_witness :
  0 <= 3 < 10
  /\ exists chunks,
      Chunker.chunk_text Chunker.byte_encode Chunker.byte_decode 26
        {| Chunker.chunk_size := 10; Chunker.overlap := 3 |}
        "abcdefghijklmnopqrstuvwxy" "doc" = Some chunks
      /\ Forall (fun c => 1 <= token_count c <= 10) chunks.
Proof.
  split; [lia|].
  destruct (chunk_token_counts Chunker.byte_encode Chunker.byte_decode
              {| Chunker.chunk_size := 10; Chunker.overlap := 3 |}
              "abcdefghijklmnopqrstuvwxy" "doc" ltac:(simpl; lia))
    as (chunks & ws & Hc & _ & _ & _ & Hall).
  exists chunks. split; [exact Hc | exact Hall].
Defined.

(** X4.  For [overlap < chunk_size] the chunk ids of one call are pairwise
    distinct, and every chunk carries the source id it was made for. *)
Theorem chunk_ids_distinct {token} (encode : string -> list token)
        (decode : list token -> string) (self : Chunker.TextChunker)
        (doc sid : string) :
  Chunker.overlap self < Chunker.chunk_size self ->
  exists chunks,
    Chunker.chunk_text encode decode (S (length (encode doc)))
                       self doc sid = Some chunks
    /\ List.NoDup (map chunk_id chunks)
    /\ Forall (fun c => source_id c = sid) chunks.
Proof.
  intros Hvalid.
  destruct (run_closed_form encode decode self doc sid Hvalid)
    as (m & _ & Hc & _).
  eexists. split; [exact Hc|]. split.
  - rewrite map_map. apply Injective_map_NoDup; [|apply seq_NoDup].
    intros i j. apply chunk_from_id.
  - apply List.Forall_forall. intros c Hin.
    apply in_map_iff in Hin as (j & <- & _). reflexivity.
Qed.

Lemma chunk_ids_distinct_witness :
  3 < 10
  /\ exists chunks,
      Chunker.chunk_text Chunker.byte_encode Chunker.byte_decode 26
        {| Chunker.chunk_size := 10; Chunker.overlap := 3 |}
        "abcdefghijklmnopqrstuvwxy" "doc" = Some chunks
      /\ List.NoDup (map chunk_id chunks).
Proof.
  split; [lia|].
  destruct (chunk_ids_distinct Chunker.byte_encode Chunker.byte_decode
              {| Chunker.chunk_size := 10; Chunker.overlap := 3 |}
              "abcdefghijklmnopqrstuvwxy" "doc" ltac:(simpl; lia))
    as (chunks & Hc & Hnd & _).
  exists chunks. split; [exact Hc | exact Hnd].
Defined.

(** X5.  When [overlap >= chunk_size] and the text has at least one token,
    the call does not return, whatever the fuel: the window start never
    reaches the token count. *)
Theorem chunking_never_returns {token} (encode : string -> list token)
        (decode : list token -> string) (self : Chunker.TextChunker)
        (doc sid : string) :
  Chunker.chunk_size self <= Chunker.overlap self ->
  encode doc <> [] ->
  forall fuel, Chunker.chunk_text encode decode fuel self doc sid = None.
Proof.
  intros Hbad Hne fuel. unfold Chunker.chunk_text, Chunker.run.
  rewrite loop_diverges; [reflexivity | unfold Chunker.stride; lia |].
  simpl. destruct (encode doc); [contradiction | simpl; lia].
Qed.

Lemma chunking_never_returns_witness :
  128 <= 128
  /\ Chunker.byte_encode "sleep" <> []
  /\ Chunker.chunk_text Chunker.byte_encode Chunker.byte_decode 1000
       {| Chunker.chunk_size := 128; Chunker.overlap := 128 |} "sleep" "doc"
     = None.
Proof.
  split; [lia|]. split; [discriminate|].
  apply (chunking_never_returns Chunker.byte_encode Chunker.byte_decode
           {| Chunker.chunk_size := 128; Chunker.overlap := 128 |}
           "sleep" "doc"); [simpl; lia | discriminate].
Defined.

(* ===================================================================== *)
(** * More on the vector store                                            *)
(* ===================================================================== *)

Section StoreMore.

Lemma forallb_false_exists {T} (f : T -> bool) l :
  forallb f l = false -> Exists (fun x => f x = false) l.
Proof.
  induction l as [|x l IH]; simpl; [discriminate|].
  destruct (f x) eqn:Hx; simpl; intros H.
  - apply Exists_cons_tl, IH, H.
  - apply Exists_cons_hd, Hx.
Qed.

Lemma insert_desc_perm e l : Permutation (e :: l) (Faiss.insert_desc e l).
Proof.
  induction l as [|h t IH]; simpl; [reflexivity|].
  destruct (Py.flt _ _); [reflexivity|].
  rewrite perm_swap. constructor. exact IH.
Qed.

Lemma sort_desc_perm_from l :
  forall acc,
    Permutation (l ++ acc)
                (fold_left (fun acc e => Faiss.insert_desc e acc) l acc).
Proof.
  induction l as [|e l IH]; intros acc; simpl; [reflexivity|].
  rewrite <- IH, <- insert_desc_perm.
  apply Permutation_middle.
Qed.

Lemma sort_desc_perm l : Permutation l (Faiss.sort_desc l).
Proof.
  unfold Faiss.sort_desc. rewrite <- sort_desc_perm_from, app_nil_r.
  reflexivity.
Qed.

Lemma sort_desc_sorted l : Sorted Faiss.best_first (Faiss.sort_desc l).
Proof. apply (sort_desc_from l []). constructor. Qed.

Lemma best_first_trans : Relations_1.Transitive Faiss.best_first.
Proof.
  intros a b c Hab Hbc. unfold Faiss.best_first in *.
  eapply Qle_trans; eassumption.
Qed.

Lemma strongly_sorted_app {T} (R : T -> T -> Prop) l1 l2 :
  StronglySorted R (l1 ++ l2) ->
  forall a b, In a l1 -> In b l2 -> R a b.
Proof.
  induction l1 as [|x l1 IH]; simpl; intros Hs a b Ha Hb; [destruct Ha|].
  inversion Hs as [|? ? Hs' Hall]; subst.
  destruct Ha as [<-|Ha]; [|eapply IH; eassumption].
  rewrite List.Forall_forall in Hall. apply Hall, in_or_app. right. exact Hb.
Qed.

(** The labels of the scored entries are the positions 0, 1, ... *)
Lemma imap_labels {T} (g : T -> Q) l :
  forall k,
    map snd (imap (fun i v => (g v, Z.of_nat (k + i))) l)
    = map Z.of_nat (seq k (length l)).
Proof.
  induction l as [|x l IH]; intros k; simpl; [reflexivity|].
  rewrite Nat.add_0_r. f_equal.
  rewrite <- IH. f_equal. apply imap_ext. intros i v _. simpl.
  do 2 f_equal. lia.
Qed.

Lemma imap_entries {T} (g : T -> Q) l :
  forall k e,
    In e (imap (fun i v => (g v, Z.of_nat (k + i))) l) ->
    exists i v, nth_error l i = Some v /\ e = (g v, Z.of_nat (k + i)).
Proof.
  induction l as [|x l IH]; intros k e; simpl; [intros []|].
  intros [<-|Hin].
  - exists 0%nat, x. split; reflexivity.
  - assert (Hin' : In e (imap (fun i v => (g v, Z.of_nat (S k + i))) l)).
    { erewrite imap_ext; [exact Hin|]. intros i v _. simpl.
      do 2 f_equal. lia. }
    apply IH in Hin' as (i & v & Hi & ->).
    exists (S i), v. split; [exact Hi|]. do 2 f_equal. lia.
Qed.

Lemma imap_entry {T} (g : T -> Q) l :
  forall k i v,
    nth_error l i = Some v ->
    In (g v, Z.of_nat (k + i)) (imap (fun i v => (g v, Z.of_nat (k + i))) l).
Proof.
  induction l as [|x l IH]; intros k [|i] v; simpl; try discriminate.
  - intros [= ->]. left. reflexivity.
  - intros Hi. right.
    pose proof (IH (S k) i v Hi) as Hin.
    replace (Z.of_nat (k + S i)) with (Z.of_nat (S k + i)) by (f_equal; lia).
    erewrite imap_ext; [exact Hin|]. intros j w _. simpl.
    do 2 f_equal. lia.
Qed.

Lemma index_in_range {T} (l : list T) (i : Z) (d : T) :
  0 <= i < Z.of_nat (length l) ->
  Py.index l i = Py.Ret (nth (Z.to_nat i) l d).
Proof.
  intros Hi. unfold Py.index.
  destruct (Z.ltb_spec i 0) as [|_]; [lia|].
  destruct (Z.ltb_spec i 0) as [|_]; [lia|].
  destruct (Z.leb_spec (Z.of_nat (length l)) i) as [|_]; [lia|]. simpl.
  destruct (nth_error l (Z.to_nat i)) as [x|] eqn:E.
  - rewrite (nth_error_nth _ _ d E). reflexivity.
  - apply nth_error_None in E. lia.
Qed.

Lemma nth_pred_length {T} (l : list T) (d : T) :
  l <> [] -> nth (length l - 1) l d = List.last l d.
Proof.
  induction l as [|x l IH]; [contradiction|]. intros _.
  destruct l as [|y l]; [reflexivity|].
  replace (length (x :: y :: l) - 1)%nat with (S (length (y :: l) - 1))
    by (simpl; lia).
  change (nth (S (length (y :: l) - 1)) (x :: y :: l) d)
    with (nth (length (y :: l) - 1) (y :: l) d).
  rewrite IH by discriminate. reflexivity.
Qed.

Lemma index_minus_one {T} (l : list T) (d : T) :
  l <> [] -> Py.index l (-1) = Py.Ret (List.last l d).
Proof.
  intros Hne. unfold Py.index. cbv zeta.
  assert (Hlen : (0 < length l)%nat) by (destruct l; [contradiction|simpl; lia]).
  change (-1 <? 0) with true. cbv iota.
  assert (H1 : (-1 + Z.of_nat (length l) <? 0) = false)
    by (apply Z.ltb_ge; lia).
  assert (H2 : (Z.of_nat (length l) <=? -1 + Z.of_nat (length l)) = false)
    by (apply Z.leb_gt; lia).
  rewrite H1, H2. cbn [orb].
  replace (Z.to_nat (-1 + Z.of_nat (length l))) with (length l - 1)%nat by lia.
  destruct (nth_error l (length l - 1)) as [x|] eqn:E.
  - apply (nth_error_nth _ _ d) in E. rewrite <- E.
    rewrite nth_pred_length by exact Hne. reflexivity.
  - apply nth_error_None in E. lia.
Qed.

End StoreMore.

Section SearchMore.

Lemma annotate_valid_app (st : VectorStore.t) e1 :
  forall e2 acc,
    Forall (fun e => 0 <= snd e
                     < Z.of_nat (length (VectorStore.chunk_metadata st))) e1 ->
    VectorStore.annotate (VectorStore.chunk_metadata st) (e1 ++ e2) acc
    = VectorStore.annotate (VectorStore.chunk_metadata st) e2
        (acc ++ map (hit_result st) e1).
Proof.
  induction e1 as [|[score idx] e1 IH]; intros e2 acc Hall; simpl.
  - rewrite app_nil_r. reflexivity.
  - inversion Hall as [|? ? Hidx Hall']; subst. simpl in Hidx.
    rewrite (index_in_range _ idx VectorStore.chunk0 Hidx). simpl.
    rewrite IH by exact Hall'. rewrite <- app_assoc. reflexivity.
Qed.

Lemma annotate_padding (md : list chunk) m :
  md <> [] ->
  forall acc,
    VectorStore.annotate md (repeat (Faiss.neg_flt_max, -1) m) acc
    = Py.Ret (acc ++ repeat (VectorStore.with_score
                               (List.last md VectorStore.chunk0)
                               Faiss.neg_flt_max) m).
Proof.
  intros Hne. induction m as [|m IH]; intros acc; simpl.
  - rewrite app_nil_r. reflexivity.
  - rewrite (index_minus_one md VectorStore.chunk0 Hne). simpl.
    rewrite IH, <- app_assoc. reflexivity.
Qed.

(** The search, unfolded for a query of the right width. *)
Lemma search_unfold (st : VectorStore.t) q k :
  Z.of_nat (length q) = Faiss.d (VectorStore.index st) ->
  (0 < k)%nat ->
  VectorStore.search st q k
  = VectorStore.annotate (VectorStore.chunk_metadata st)
      (firstn k (Faiss.sort_desc (Faiss.scored (VectorStore.index st) q))
       ++ repeat (Faiss.neg_flt_max, -1)
            (k - length (firstn k (Faiss.sort_desc
                                     (Faiss.scored (VectorStore.index st) q)))))
      [].
Proof.
  intros Hd Hk. unfold VectorStore.search, Faiss.search.
  rewrite (proj2 (Z.eqb_eq _ _) Hd), (proj2 (Nat.ltb_lt _ _) Hk). simpl.
  rewrite combine_fst_snd. reflexivity.
Qed.

Lemma sorted_entries (st : VectorStore.t) q e :
  In e (Faiss.sort_desc (Faiss.scored (VectorStore.index st) q)) ->
  exists (i : nat) v,
    nth_error (Faiss.xb (VectorStore.index st)) i = Some v
    /\ e = (Faiss.inner_product q v, Z.of_nat i).
Proof.
  intros Hin.
  apply (Permutation_in _ (Permutation_sym (sort_desc_perm _))) in Hin.
  apply (imap_entries (Faiss.inner_product q) _ 0%nat) in Hin. exact Hin.
Qed.

Lemma sorted_labels_nodup (st : VectorStore.t) q :
  List.NoDup (map snd (Faiss.sort_desc
                         (Faiss.scored (VectorStore.index st) q))).
Proof.
  eapply Permutation_NoDup.
  - apply Permutation_map, sort_desc_perm.
  - unfold Faiss.scored.
    rewrite (imap_labels (Faiss.inner_product q) _ 0%nat).
    apply Injective_map_NoDup; [|apply seq_NoDup].
    intros a b. apply Nat2Z.inj.
Qed.

Lemma sorted_length (st : VectorStore.t) q :
  length (Faiss.sort_desc (Faiss.scored (VectorStore.index st) q))
  = length (Faiss.xb (VectorStore.index st)).
Proof.
  rewrite <- (Permutation_length (sort_desc_perm _)).
  unfold Faiss.scored. apply length_imap.
Qed.

Lemma sorted_entry_valid (st : VectorStore.t) q e :
  store_aligned st ->
  In e (Faiss.sort_desc (Faiss.scored (VectorStore.index st) q)) ->
  0 <= snd e < Z.of_nat (length (VectorStore.chunk_metadata st))
  /\ stored_hit st q (snd e)
       (nth (Z.to_nat (snd e)) (VectorStore.chunk_metadata st)
            VectorStore.chunk0)
       (fst e).
Proof.
  intros [Hal _] Hin.
  apply sorted_entries in Hin as (i & v & Hi & ->). simpl.
  assert (Hlt : (i < length (VectorStore.chunk_metadata st))%nat).
  { rewrite <- Hal. apply nth_error_Some. congruence. }
  split; [lia|]. split; [lia|]. rewrite Nat2Z.id. split.
  - apply nth_error_nth'. exact Hlt.
  - exists v. split; [exact Hi | reflexivity].
Qed.

End SearchMore.

(** X6.  [add_chunks] keeps an aligned store aligned: it either appends
    the chunks and the rows of the array, or raises [AssertionError],
    which it does exactly when the number of rows is not the number of
    chunks or the width of the array is not the dimension of the store,
    also for an array without rows. *)
Theorem add_chunks_keeps_alignment (self : VectorStore.t)
        (chunks : list chunk) (embeddings : Np.ndarray) :
  store_aligned self ->
  match VectorStore.add_chunks self chunks embeddings with
  | Py.Ret st' =>
      store_aligned st'
      /\ Np.shape0 embeddings = length chunks
      /\ Np.shape1 embeddings = VectorStore.dimension self
      /\ VectorStore.chunk_metadata st'
         = VectorStore.chunk_metadata self ++ chunks
      /\ Faiss.xb (VectorStore.index st')
         = Faiss.xb (VectorStore.index self) ++ Np.rows embeddings
  | Py.Raise e =>
      e = Py.AssertionError
      /\ (Np.shape0 embeddings <> length chunks
          \/ Np.shape1 embeddings <> VectorStore.dimension self)
  end.
Proof.
  intros [Hlen Hdim]. unfold VectorStore.add_chunks, Faiss.add.
  destruct (Nat.eqb_spec (Np.shape0 embeddings) (length chunks))
    as [Heq|Hne];
    cbn [negb]; [|split; [reflexivity | left; exact Hne]].
  destruct (Z.eqb_spec (Np.shape1 embeddings) (VectorStore.dimension self))
    as [Hw|Hw];
    cbn [negb]; [|split; [reflexivity | right; exact Hw]].
  assert (Hw' : Np.shape1 embeddings = Faiss.d (VectorStore.index self))
    by (rewrite Hw; exact Hdim).
  rewrite (proj2 (Z.eqb_eq _ _) Hw'). cbn [negb Py.bind].
  split; [split; cbn; [|exact Hdim]|].
  - unfold Np.shape0 in Heq. rewrite !length_app. lia.
  - split; [exact Heq|]. split; [exact Hw|]. split; reflexivity.
Qed.

Lemma add_chunks_keeps_alignment_witness :
  store_aligned (VectorStore.init 2)
  /\ exists st',
      VectorStore.add_chunks (VectorStore.init 2) [VectorStore.chunk0]
        {| Np.shape1 := 2; Np.rows := [[1%Q; 0%Q]] |} = Py.Ret st'
      /\ store_aligned st'.
Proof.
  assert (H0 : store_aligned (VectorStore.init 2)) by (split; reflexivity).
  split; [exact H0|].
  pose proof (add_chunks_keeps_alignment (VectorStore.init 2)
                [VectorStore.chunk0]
                {| Np.shape1 := 2; Np.rows := [[1%Q; 0%Q]] |} H0) as H.
  cbv beta iota delta [VectorStore.add_chunks] in H.
  eexists. split; [reflexivity|]. apply H.
Defined.

(** X7.  On an aligned store, a query of the index's width and
    [0 < k <= ntotal] get exactly [k] results: each is a stored chunk with
    its own inner-product score attached, no stored position occurs twice,
    the scores are best first, and every vector left out scores no more
    than each one returned. *)
Theorem search_returns_nearest (self : VectorStore.t) (q : list Q)
        (k : nat) :
  store_aligned self ->
  Z.of_nat (length q) = Faiss.d (VectorStore.index self) ->
  (0 < k <= length (Faiss.xb (VectorStore.index self)))%nat ->
  exists top : list (Q * Z),
    VectorStore.search self q k = Py.Ret (map (hit_result self) top)
    /\ length top = k
    /\ List.NoDup (map snd top)
    /\ Forall (fun e => stored_hit self q (snd e)
                          (nth (Z.to_nat (snd e))
                               (VectorStore.chunk_metadata self)
                               VectorStore.chunk0)
                          (fst e)) top
    /\ VectorStore.nonincreasing (map fst top)
    /\ (forall (i : nat) v,
           nth_error (Faiss.xb (VectorStore.index self)) i = Some v ->
           ~ In (Z.of_nat i) (map snd top) ->
           Forall (fun e => (Faiss.inner_product q v <= fst e)%Q) top).
Proof.
  intros Hal Hd Hk.
  set (sorted := Faiss.sort_desc (Faiss.scored (VectorStore.index self) q)).
  exists (firstn k sorted).
  assert (Hlen : length (firstn k sorted) = k).
  { rewrite length_firstn. unfold sorted. rewrite sorted_length. lia. }
  assert (Hin : forall e, In e (firstn k sorted) -> In e sorted).
  { intros e He. rewrite <- (firstn_skipn k sorted).
    apply in_or_app. left. exact He. }
  split; [|split; [exact Hlen|split; [|split; [|split]]]].
  - rewrite search_unfold by (try exact Hd; lia). fold sorted.
    rewrite Hlen, Nat.sub_diag. simpl repeat.
    rewrite annotate_valid_app; [reflexivity|].
    apply List.Forall_forall. intros e He.
    apply (sorted_entry_valid self q e Hal), Hin, He.
  - pose proof (sorted_labels_nodup self q) as Hnd. fold sorted in Hnd.
    rewrite <- (firstn_skipn k sorted), map_app in Hnd.
    apply NoDup_app_remove_r in Hnd. exact Hnd.
  - apply List.Forall_forall. intros e He.
    apply (sorted_entry_valid self q e Hal), Hin, He.
  - apply sorted_scores, sorted_firstn, sort_desc_sorted.
  - intros i v Hi Hout. apply List.Forall_forall. intros e He.
    pose proof (sort_desc_sorted (Faiss.scored (VectorStore.index self) q))
      as Hs. fold sorted in Hs.
    apply (Sorted_StronglySorted best_first_trans) in Hs.
    rewrite <- (firstn_skipn k sorted) in Hs.
    apply (strongly_sorted_app _ _ _ Hs e
             (Faiss.inner_product q v, Z.of_nat i) He).
    assert (Hall : In (Faiss.inner_product q v, Z.of_nat i) sorted).
    { apply (Permutation_in _ (sort_desc_perm _)).
      apply (imap_entry (Faiss.inner_product q) _ 0%nat i v Hi). }
    rewrite <- (firstn_skipn k sorted) in Hall.
    apply in_app_or in Hall as [Htop|Hrest]; [|exact Hrest].
    exfalso. apply Hout.
    apply (in_map snd) in Htop. exact Htop.
Qed.

Lemma search_returns_nearest_witness :
  store_aligned VectorStore.one_vector_store
  /\ Z.of_nat (length [1%Q; 0%Q])
     = Faiss.d (VectorStore.index VectorStore.one_vector_store)
  /\ (0 < 1
      <= length (Faiss.xb (VectorStore.index VectorStore.one_vector_store)))%nat
  /\ exists top : list (Q * Z),
      VectorStore.search VectorStore.one_vector_store [1%Q; 0%Q] 1
      = Py.Ret (map (hit_result VectorStore.one_vector_store) top)
      /\ length top = 1%nat.
Proof.
  assert (H0 : store_aligned VectorStore.one_vector_store)
    by (split; reflexivity).
  split; [exact H0|]. split; [reflexivity|]. split; [simpl; lia|].
  destruct (search_returns_nearest VectorStore.one_vector_store [1%Q; 0%Q] 1
              H0 eq_refl ltac:(simpl; lia))
    as (top & Hs & Hl & _).
  exists top. split; [exact Hs | exact Hl].
Defined.

(** X8.  On a freshly created store (no vectors yet) every search for at
    least one neighbour raises [IndexError]: the index pads its answer
    with the label [-1], and the metadata list is empty. *)
Theorem search_empty_store_raises (dimension : Z) (q : list Q) (k : nat) :
  Z.of_nat (length q) = dimension ->
  (0 < k)%nat ->
  VectorStore.search (VectorStore.init dimension) q k
  = Py.Raise Py.IndexError.
Proof.
  intros Hd Hk. rewrite search_unfold by assumption.
  destruct k as [|k]; [lia|]. reflexivity.
Qed.

Lemma search_empty_store_raises_witness :
  Z.of_nat (length [1%Q; 0%Q]) = 2
  /\ (0 < 5)%nat
  /\ VectorStore.search (VectorStore.init 2) [1%Q; 0%Q] 5
     = Py.Raise Py.IndexError.
Proof.
  split; [reflexivity|]. split; [lia|].
  apply (search_empty_store_raises 2 [1%Q; 0%Q] 5); [reflexivity | lia].
Defined.

(** X9.  On an aligned store that holds [n >= 1] vectors, a search with
    [k > n] returns [k] results: the [n] stored chunks, best first, and
    then [k - n] copies of the last stored chunk with the padding score. *)
Theorem search_pads_with_last_chunk (self : VectorStore.t) (q : list Q)
        (k : nat) :
  store_aligned self ->
  Z.of_nat (length q) = Faiss.d (VectorStore.index self) ->
  (0 < length (Faiss.xb (VectorStore.index self)) < k)%nat ->
  exists top : list (Q * Z),
    VectorStore.search self q k
    = Py.Ret (map (hit_result self) top
              ++ repeat (VectorStore.with_score
                           (List.last (VectorStore.chunk_metadata self)
                                      VectorStore.chunk0)
                           Faiss.neg_flt_max)
                        (k - length (Faiss.xb (VectorStore.index self))))
    /\ length top = length (Faiss.xb (VectorStore.index self))
    /\ Permutation (map snd top)
         (map Z.of_nat
              (seq 0 (length (Faiss.xb (VectorStore.index self)))))
    /\ VectorStore.nonincreasing (map fst top).
Proof.
  intros Hal Hd Hk.
  set (sorted := Faiss.sort_desc (Faiss.scored (VectorStore.index self) q)).
  exists sorted.
  assert (Hlen : length sorted = length (Faiss.xb (VectorStore.index self)))
    by apply sorted_length.
  assert (Hfirst : firstn k sorted = sorted)
    by (apply firstn_all2; lia).
  split; [|split; [exact Hlen|split]].
  - rewrite search_unfold by (try exact Hd; lia). fold sorted.
    rewrite Hfirst, Hlen.
    rewrite annotate_valid_app.
    + apply annotate_padding. destruct Hal as [Hal _].
      destruct (VectorStore.chunk_metadata self); [simpl in Hal; lia|].
      discriminate.
    + apply List.Forall_forall. intros e He.
      apply (sorted_entry_valid self q e Hal He).
  - rewrite <- (imap_labels (Faiss.inner_product q) _ 0%nat).
    symmetry. apply Permutation_map, sort_desc_perm.
  - apply sorted_scores, sort_desc_sorted.
Qed.

Lemma search_pads_with_last_chunk_witness :
  store_aligned VectorStore.one_vector_store
  /\ Z.of_nat (length [1%Q; 0%Q])
     = Faiss.d (VectorStore.index VectorStore.one_vector_store)
  /\ (0 < length (Faiss.xb (VectorStore.index VectorStore.one_vector_store))
      < 3)%nat
  /\ exists top : list (Q * Z),
      VectorStore.search VectorStore.one_vector_store [1%Q; 0%Q] 3
      = Py.Ret (map (hit_result VectorStore.one_vector_store) top
                ++ repeat (VectorStore.with_score VectorStore.chunk0
                                                  Faiss.neg_flt_max) 2).
Proof.
  assert (H0 : store_aligned VectorStore.one_vector_store)
    by (split; reflexivity).
  split; [exact H0|]. split; [reflexivity|]. split; [simpl; lia|].
  destruct (search_pads_with_last_chunk VectorStore.one_vector_store
              [1%Q; 0%Q] 3 H0 eq_refl ltac:(simpl; lia))
    as (top & Hs & _).
  exists top. exact Hs.
Defined.

(* ===================================================================== *)
(** * More on the retry wrapper                                           *)
(* ===================================================================== *)

Section RetryMore.
Import ApiRetry.

Lemma no_sdk_never_retryable e : is_retryable false e = false.
Proof. reflexivity. Qed.

Lemma py_min_le_r x y : (Py.min x y <= y)%Q.
Proof.
  unfold Py.min, Py.flt.
  destruct (Qle_bool x y) eqn:Hle; cbn [negb].
  - apply Qle_bool_iff, Hle.
  - apply Qle_refl.
Qed.

Lemma py_min_is_min x y : (Py.min x y == Qmin x y)%Q.
Proof.
  unfold Py.min, Py.flt.
  destruct (Qle_bool x y) eqn:Hle; cbn [negb].
  - symmetry. apply Q.min_l, Qle_bool_iff, Hle.
  - symmetry. apply Q.min_r, Qlt_le_weak, Qnot_le_lt.
    intros H. apply Qle_bool_iff in H. congruence.
Qed.

Lemma Qsum_app l1 l2 : (Qsum (l1 ++ l2) == Qsum l1 + Qsum l2)%Q.
Proof.
  induction l1 as [|x l1 IH]; simpl; [ring | rewrite IH; ring].
Qed.

Lemma delay_schedule_sum pol n :
  (0 <= initial_delay pol)%Q -> (0 <= max_delay pol)%Q ->
  (Qsum (map (delay_at pol) (seq 0 n))
   <= initial_delay pol + inject_Z (Z.of_nat n) * max_delay pol)%Q.
Proof.
  intros Hi Hm. induction n as [|n IH].
  - change (inject_Z (Z.of_nat 0)) with 0%Q. unfold Qsum. simpl. nra.
  - rewrite seq_S, map_app, Qsum_app. change (0 + n)%nat with n.
    assert (Hn : (inject_Z (Z.of_nat (S n)) == inject_Z (Z.of_nat n) + 1)%Q).
    { rewrite Nat2Z.inj_succ. unfold Z.succ. rewrite inject_Z_plus.
      reflexivity. }
    rewrite Hn. unfold Qsum at 2. cbn [map fold_right].
    assert (Hcap : (delay_at pol n <= initial_delay pol + max_delay pol)%Q).
    { destruct n as [|n]; cbn [delay_at]; [nra|].
      pose proof (py_min_le_r (delay_at pol n * exponential_base pol)
                              (max_delay pol)). nra. }
    destruct n as [|n].
    + change (inject_Z (Z.of_nat 0)) with 0%Q. unfold Qsum. simpl. nra.
    + pose proof (py_min_le_r (delay_at pol n * exponential_base pol)
                              (max_delay pol)) as Hcap'.
      cbn [delay_at] in *. nra.
Qed.

End RetryMore.

(** X10.  When the SDK cannot be imported nothing is retryable: with
    [max_retries >= 0] the callee is called exactly once, its outcome is
    the outcome of the run, and there is no sleep. *)
Theorem no_sdk_single_attempt {S A : Type}
        (callable_fn : S -> Py.res ApiRetry.error A * S)
        (pol : ApiRetry.policy) (st : S) :
  0 <= ApiRetry.max_retries pol ->
  let r := ApiRetry.with_retry false callable_fn pol st in
  ApiRetry.attempts r = [fst (callable_fn st)]
  /\ ApiRetry.result r = ApiRetry.outcome_of (fst (callable_fn st))
  /\ ApiRetry.final r = snd (callable_fn st)
  /\ ApiRetry.sleeps r = [].
Proof.
  intros Hmax r. subst r. unfold ApiRetry.with_retry, ApiRetry.range.
  replace (Z.to_nat (ApiRetry.max_retries pol + 1))
    with (Datatypes.S (Z.to_nat (ApiRetry.max_retries pol))) by lia.
  cbn [seq map ApiRetry.retry_loop].
  destruct (callable_fn st) as [[v|e] st']; cbn [fst snd].
  - repeat split.
  - rewrite no_sdk_never_retryable, orb_true_r. repeat split.
Qed.

Lemma no_sdk_single_attempt_witness :
  0 <= ApiRetry.max_retries ApiRetry.default_policy
  /\ ApiRetry.sleeps
       (ApiRetry.with_retry false
          (ApiRetry.fail_then_succeed 2 ApiRetry.rate_limit_429 tt)
          ApiRetry.default_policy 0%nat) = [].
Proof.
  split; [simpl; lia|].
  apply (no_sdk_single_attempt
           (ApiRetry.fail_then_succeed 2 ApiRetry.rate_limit_429 tt)
           ApiRetry.default_policy 0%nat).
  simpl. lia.
Defined.

(** X11.  With a negative [max_retries] the callee is never called: the
    loop body does not run and the final [raise last_error] raises with
    [last_error = None]. *)
Theorem negative_retries_no_call {S A : Type} (sdk : bool)
        (callable_fn : S -> Py.res ApiRetry.error A * S)
        (pol : ApiRetry.policy) (st : S) :
  ApiRetry.max_retries pol < 0 ->
  ApiRetry.with_retry sdk callable_fn pol st
  = {| ApiRetry.result := ApiRetry.RaisedNone;
       ApiRetry.final := st;
       ApiRetry.sleeps := [];
       ApiRetry.attempts := [] |}.
Proof.
  intros Hneg. unfold ApiRetry.with_retry, ApiRetry.range.
  replace (Z.to_nat (ApiRetry.max_retries pol + 1)) with 0%nat by lia.
  reflexivity.
Qed.

Lemma negative_retries_no_call_witness :
  -1 < 0
  /\ ApiRetry.attempts
       (ApiRetry.with_retry true
          (ApiRetry.fail_then_succeed 0 ApiRetry.rate_limit_429 tt)
          {| ApiRetry.max_retries := -1; ApiRetry.initial_delay := 1;
             ApiRetry.max_delay := 60; ApiRetry.exponential_base := 2 |}
          0%nat) = [].
Proof.
  split; [lia|].
  rewrite (negative_retries_no_call true
             (ApiRetry.fail_then_succeed 0 ApiRetry.rate_limit_429 tt)
             {| ApiRetry.max_retries := -1; ApiRetry.initial_delay := 1;
                ApiRetry.max_delay := 60; ApiRetry.exponential_base := 2 |}
             0%nat); [reflexivity | simpl; lia].
Defined.

(** X12.  With non-negative delays a run sleeps at most
    [initial_delay + max_retries * max_delay] seconds in total, and at
    most [max_retries] times. *)
Theorem total_sleep_bounded {S A : Type} (sdk : bool)
        (callable_fn : S -> Py.res ApiRetry.error A * S)
        (pol : ApiRetry.policy) (st : S) :
  0 <= ApiRetry.max_retries pol ->
  (0 <= ApiRetry.initial_delay pol)%Q ->
  (0 <= ApiRetry.max_delay pol)%Q ->
  let r := ApiRetry.with_retry sdk callable_fn pol st in
  Z.of_nat (length (ApiRetry.sleeps r)) <= ApiRetry.max_retries pol
  /\ (Qsum (ApiRetry.sleeps r)
      <= ApiRetry.initial_delay pol
         + inject_Z (ApiRetry.max_retries pol) * ApiRetry.max_delay pol)%Q.
Proof.
  intros Hmax Hi Hm r. subst r.
  destruct (with_retry_run sdk callable_fn pol st Hmax)
    as (es & lastr & _ & _ & Hlen & Hsl & _).
  rewrite Hsl, length_map, length_seq. split; [exact Hlen|].
  eapply Qle_trans; [apply delay_schedule_sum; assumption|].
  assert (Hle : (inject_Z (Z.of_nat (length es))
                 <= inject_Z (ApiRetry.max_retries pol))%Q)
    by (rewrite <- Zle_Qle; exact Hlen).
  nra.
Qed.

Lemma total_sleep_bounded_witness :
  0 <= ApiRetry.max_retries ApiRetry.default_policy
  /\ (0 <= ApiRetry.initial_delay ApiRetry.default_policy)%Q
  /\ (0 <= ApiRetry.max_delay ApiRetry.default_policy)%Q
  /\ (Qsum (ApiRetry.sleeps
              (ApiRetry.with_retry true
                 (ApiRetry.fail_then_succeed 9 ApiRetry.rate_limit_429 tt)
                 ApiRetry.default_policy 0%nat))
      <= 1 + inject_Z 5 * 60)%Q.
Proof.
  split; [simpl; lia|]. split; [discriminate|]. split; [discriminate|].
  apply (total_sleep_bounded true
           (ApiRetry.fail_then_succeed 9 ApiRetry.rate_limit_429 tt)
           ApiRetry.default_policy 0%nat);
    [simpl; lia | discriminate | discriminate].
Defined.

(** X13.  With [exponential_base >= 1] and [0 <= initial_delay <=
    max_delay] the delay before the [i]-th retry is
    [min(initial_delay * exponential_base^i, max_delay)]: the delays grow
    geometrically up to the cap and never decrease. *)
Theorem delay_closed_form (pol : ApiRetry.policy) (i : nat) :
  (1 <= ApiRetry.exponential_base pol)%Q ->
  (0 <= ApiRetry.initial_delay pol)%Q ->
  (ApiRetry.initial_delay pol <= ApiRetry.max_delay pol)%Q ->
  (ApiRetry.delay_at pol i
   == Qmin (geometric (ApiRetry.initial_delay pol)
                      (ApiRetry.exponential_base pol) i)
           (ApiRetry.max_delay pol))%Q
  /\ (ApiRetry.delay_at pol i <= ApiRetry.delay_at pol (S i))%Q.
Proof.
  intros Hb Hi Hm.
  assert (Hgeo : forall j,
             (0 <= geometric (ApiRetry.initial_delay pol)
                             (ApiRetry.exponential_base pol) j)%Q
             /\ (geometric (ApiRetry.initial_delay pol)
                           (ApiRetry.exponential_base pol) j
                 <= geometric (ApiRetry.initial_delay pol)
                              (ApiRetry.exponential_base pol) (S j))%Q).
  { induction j as [|j [IH0 IH1]]; simpl in *; split; nra. }
  assert (Hform : forall j,
             (ApiRetry.delay_at pol j
              == Qmin (geometric (ApiRetry.initial_delay pol)
                                 (ApiRetry.exponential_base pol) j)
                      (ApiRetry.max_delay pol))%Q).
  { induction j as [|j IH].
    - simpl. symmetry. apply Q.min_l. exact Hm.
    - cbn [ApiRetry.delay_at geometric].
      rewrite py_min_is_min, IH.
      destruct (Hgeo j) as [G0 G1]. simpl in G1.
      destruct (Qlt_le_dec (ApiRetry.max_delay pol)
                  (geometric (ApiRetry.initial_delay pol)
                             (ApiRetry.exponential_base pol) j))
        as [Hgt|Hle].
      + rewrite (Q.min_r _ _ (Qlt_le_weak _ _ Hgt)).
        rewrite Q.min_r by nra. rewrite Q.min_r by nra. reflexivity.
      + rewrite (Q.min_l _ _ Hle). reflexivity. }
  split; [apply Hform|].
  rewrite !Hform. destruct (Hgeo i) as [_ G1].
  apply Q.min_le_compat_r. exact G1.
Qed.

Lemma delay_closed_form_witness :
  (1 <= ApiRetry.exponential_base ApiRetry.default_policy)%Q
  /\ (0 <= ApiRetry.initial_delay ApiRetry.default_policy)%Q
  /\ (ApiRetry.initial_delay ApiRetry.default_policy
      <= ApiRetry.max_delay ApiRetry.default_policy)%Q
  /\ (ApiRetry.delay_at ApiRetry.default_policy 7
      == Qmin (geometric 1 2 7) 60)%Q.
Proof.
  split; [discriminate|]. split; [discriminate|]. split; [discriminate|].
  apply (delay_closed_form ApiRetry.default_policy 7); discriminate.
Defined.

(* ===================================================================== *)
(** * More on citations                                                   *)
(* ===================================================================== *)

Section CitationMore.
Import Re.

(** Once the whole rest is stepped over, only a match of the empty rest
    could follow. *)
Lemma findall_from_skip_all pat s :
  match_here pat [] = None ->
  findall_from pat (length s) s = [].
Proof.
  intros Hnil. induction s as [|c s IH]; simpl; [rewrite Hnil|]; trivial.
Qed.

(** Without an opening parenthesis nothing matches. *)
Lemma findall_from_no_paren s :
  ~ In "("%char s ->
  forall skip, findall_from citation_pattern skip s = [].
Proof.
  induction s as [|c s IH]; intros Hno skip; cbn [findall_from].
  - destruct skip; reflexivity.
  - destruct skip as [|n]; [|apply IH; intros H; apply Hno; right; exact H].
    destruct (match_here citation_pattern (c :: s)) as [[gs rest]|] eqn:Hm.
    + apply match_lit_inv in Hm as (s' & [= -> ->] & _).
      exfalso. apply Hno. left. reflexivity.
    + apply IH. intros H. apply Hno. right. exact H.
Qed.

(** A citation with any whitespace after the comma matches as a whole. *)
Lemma match_citation_spaced w1 w2 sp :
  token w1 -> token w2 -> all_in Py.isspace sp ->
  match_here citation_pattern
    ("("%char :: w1 ++ ","%char :: sp ++ w2 ++ [")"%char])
  = Some ([w1; w2], []).
Proof.
  intros [Hne1 Hall1] Hw2 Hsp. pose proof Hw2 as [Hne2 Hall2].
  unfold citation_pattern. rewrite match_lit_fwd.
  apply match_group_fwd; [assumption | assumption | reflexivity |].
  rewrite match_lit_fwd.
  apply match_star_fwd; [assumption | apply token_stops_space, Hw2 |].
  apply match_group_fwd; [assumption | assumption | reflexivity | reflexivity].
Qed.

(** The source pattern captures the first token of a rendered citation. *)
Lemma search_source_rend m :
  token_pair m ->
  search source_pattern (rend m)
  = Some [list_ascii_of_string (fst m)].
Proof.
  intros (w1 & w2 & -> & [Hne1 Hall1] & _).
  unfold search, rend, render. simpl fst; simpl snd.
  rewrite !list_ascii_of_string_app, !list_ascii_of_string_of_list_ascii.
  simpl app.
  erewrite search_from_here; [reflexivity|].
  unfold source_pattern. rewrite match_lit_fwd.
  apply match_group_fwd; [assumption | | reflexivity | reflexivity].
  eapply Forall_impl; [exact Hall1|]. apply word_not_comma.
Qed.

Lemma source_fold pairs :
  Forall token_pair pairs ->
  forall acc : gset string,
    fold_left StructuredCitations.source_step (map rend pairs) acc
    = list_to_set (map fst pairs) ∪ acc.
Proof.
  induction 1 as [|m pairs Hm _ IH]; intros acc; simpl.
  - symmetry. apply union_empty_l_L.
  - rewrite IH. unfold StructuredCitations.source_step.
    rewrite (search_source_rend m Hm), string_of_list_ascii_of_string.
    apply set_eq. intros x.
    rewrite !elem_of_union, elem_of_singleton. tauto.
Qed.

End CitationMore.

(** X14.  A citation written with two tokens and any amount of whitespace
    after the comma is extracted, alone and in the canonical rendering
    with a single space; in particular rendering and extracting again
    gives the same citation. *)
Theorem citation_round_trip (w1 w2 sp : list ascii) :
  Re.token w1 -> Re.token w2 -> Re.all_in Py.isspace sp ->
  extract_citations
    (string_of_list_ascii
       ("("%char :: w1 ++ ","%char :: sp ++ w2 ++ [")"%char]))
  = [render (string_of_list_ascii w1) (string_of_list_ascii w2)]
  /\ extract_citations
       (render (string_of_list_ascii w1) (string_of_list_ascii w2))
     = [render (string_of_list_ascii w1) (string_of_list_ascii w2)].
Proof.
  intros Hw1 Hw2 Hsp.
  assert (Hgen : forall sp', Re.all_in Py.isspace sp' ->
            extract_citations
              (string_of_list_ascii
                 ("("%char :: w1 ++ ","%char :: sp' ++ w2 ++ [")"%char]))
            = [render (string_of_list_ascii w1) (string_of_list_ascii w2)]).
  { intros sp' Hsp'.
    unfold extract_citations, cite_pairs, Re.findall.
    rewrite list_ascii_of_string_of_list_ascii.
    cbn [Re.findall_from].
    rewrite (match_citation_spaced w1 w2 sp' Hw1 Hw2 Hsp').
    cbn [length]. rewrite Nat.sub_0_r.
    replace (S (length (w1 ++ ","%char :: sp' ++ w2 ++ [")"%char])) - 1)%nat
      with (length (w1 ++ ","%char :: sp' ++ w2 ++ [")"%char])) by lia.
    rewrite findall_from_skip_all by reflexivity.
    reflexivity. }
  split; [apply Hgen, Hsp|].
  specialize (Hgen [" "%char] ltac:(repeat constructor)).
  unfold render at 1.
  replace ("(" +:+ string_of_list_ascii w1 +:+ ", "
           +:+ string_of_list_ascii w2 +:+ ")")
    with (string_of_list_ascii
            ("("%char :: w1 ++ ","%char :: [" "%char] ++ w2 ++ [")"%char]));
    [exact Hgen|].
  rewrite <- (string_of_list_ascii_of_string
                ("(" +:+ string_of_list_ascii w1 +:+ ", "
                 +:+ string_of_list_ascii w2 +:+ ")")).
  rewrite !list_ascii_of_string_app, !list_ascii_of_string_of_list_ascii.
  reflexivity.
Qed.

Lemma citation_round_trip_witness :
  Re.token (list_ascii_of_string "smith2020")
  /\ Re.token (list_ascii_of_string "smith2020_chunk_004")
  /\ Re.all_in Py.isspace (list_ascii_of_string "   ")
  /\ extract_citations "(smith2020,   smith2020_chunk_004)"
     = ["(smith2020, smith2020_chunk_004)"].
Proof.
  assert (H1 : Re.token (list_ascii_of_string "smith2020"))
    by (split; [discriminate | repeat constructor]).
  assert (H2 : Re.token (list_ascii_of_string "smith2020_chunk_004"))
    by (split; [discriminate | repeat constructor]).
  assert (H3 : Re.all_in Py.isspace (list_ascii_of_string "   "))
    by (repeat constructor).
  split; [exact H1|]. split; [exact H2|]. split; [exact H3|].
  exact (proj1 (citation_round_trip _ _ _ H1 H2 H3)).
Defined.

(** X15.  [num_unique_sources] is the number of distinct source ids among
    the citations extracted from the answer, whether or not they are in
    the manifest. *)
Theorem unique_sources_counts_cited_sources (result : query_result) :
  StructuredCitations.num_unique_sources
    (StructuredCitations.enhance_answer result)
  = length (remove_dups (map fst (cite_pairs (answer result)))).
Proof.
  unfold StructuredCitations.enhance_answer, extract_citations. simpl.
  rewrite source_fold by apply cite_pairs_tokens.
  rewrite union_empty_r_L.
  replace (list_to_set (map fst (cite_pairs (answer result))) : gset string)
    with (list_to_set (remove_dups (map fst (cite_pairs (answer result))))
          : gset string).
  - apply size_list_to_set, NoDup_remove_dups.
  - apply set_eq. intros x.
    rewrite !elem_of_list_to_set, elem_of_remove_dups. reflexivity.
Qed.

(** X16.  The two validators agree: [enhance_answer] reports
    [citation_validation_passed] exactly when [citation_precision] counts
    every citation as valid. *)
Theorem validation_passed_iff_all_valid (result : query_result) :
  StructuredCitations.citation_validation_passed
    (StructuredCitations.enhance_answer result) = true
  <-> Metrics.valid_citations (Metrics.citation_precision result)
      = Metrics.total_citations (Metrics.citation_precision result).
Proof.
  pose proof (enhance_answer_invalid result) as Hinv.
  assert (Hpass : StructuredCitations.citation_validation_passed
                    (StructuredCitations.enhance_answer result)
                  = match cited_invalid result with
                    | [] => true
                    | _ :: _ => false
                    end).
  { unfold StructuredCitations.enhance_answer in *. simpl in *.
    rewrite Hinv. destruct (cited_invalid result); reflexivity. }
  rewrite Hpass, citation_precision_eq.
  assert (Hlen : length (cite_pairs (answer result))
                 = (length (cited_valid result)
                    + length (cited_invalid result))%nat)
    by apply (filter_split_length (fun m => retrieved result (snd m))).
  destruct (cite_pairs (answer result)) as [|m l] eqn:E.
  - assert (Hi : cited_invalid result = [])
      by (unfold cited_invalid; rewrite E; reflexivity).
    rewrite Hi. simpl. tauto.
  - cbn [Metrics.valid_citations Metrics.total_citations].
    destruct (cited_invalid result) as [|x xs]; simpl in Hlen |- *.
    + split; [lia | reflexivity].
    + split; [discriminate | lia].
Qed.

(** X17.  An answer without an opening parenthesis has no citations: its
    precision is 0, its validation passes, and it cites no source. *)
Theorem no_parenthesis_no_citation (result : query_result) :
  ~ In "("%char (list_ascii_of_string (answer result)) ->
  extract_citations (answer result) = []
  /\ Metrics.total_citations (Metrics.citation_precision result) = 0%nat
  /\ Metrics.precision (Metrics.citation_precision result) = 0%Q
  /\ StructuredCitations.citation_validation_passed
       (StructuredCitations.enhance_answer result) = true
  /\ StructuredCitations.num_unique_sources
       (StructuredCitations.enhance_answer result) = 0%nat.
Proof.
  intros Hno.
  assert (Hnone : extract_citations (answer result) = []).
  { unfold extract_citations, cite_pairs, Re.findall.
    rewrite findall_from_no_paren by exact Hno. reflexivity. }
  split; [exact Hnone|].
  unfold Metrics.citation_precision, StructuredCitations.enhance_answer.
  rewrite Hnone. repeat split.
Qed.

Lemma no_parenthesis_no_citation_witness :
  ~ In "("%char
       (list_ascii_of_string
          (answer {| answer := "The evidence does not cover naps.";
                     retrieved_chunks := [] |}))
  /\ extract_citations "The evidence does not cover naps." = [].
Proof.
  assert (Hno : ~ In "("%char
                     (list_ascii_of_string
                        (answer {| answer := "The evidence does not cover naps.";
                                   retrieved_chunks := [] |}))).
  { simpl. intros H. repeat (destruct H as [H|H]; [discriminate|]).
    exact H. }
  split; [exact Hno|].
  exact (proj1 (no_parenthesis_no_citation _ Hno)).
Defined.

(* ===================================================================== *)
(** * Selection of representative failures                                *)
(* ===================================================================== *)

Section SelectionFacts.
Import FailureSelection.

Lemma type_eqb_eq a b : type_eqb a b = true <-> a = b.
Proof. destruct a, b; simpl; split; intros H; congruence. Qed.

Lemma seen_in ty seen_types : seen ty seen_types = true <-> In ty seen_types.
Proof.
  unfold seen. rewrite existsb_exists. split.
  - intros (x & Hx & Heq). apply type_eqb_eq in Heq. subst. exact Hx.
  - intros H. exists ty. split; [exact H | apply type_eqb_eq; reflexivity].
Qed.

(** The first loop keeps the first three entries of "the first failure of
    each type". *)
Lemma first_pass_firstn failures :
  forall selected seen_types,
    (length selected < 3)%nat ->
    first_pass failures selected seen_types
    = firstn 3 (selected ++ first_of_each_type failures seen_types).
Proof.
  induction failures as [|f rest IH]; intros selected seen_types Hlen;
    cbn [first_pass first_of_each_type].
  - rewrite app_nil_r. symmetry. apply firstn_all2. lia.
  - destruct (seen (c_type f) seen_types); cbn [negb]; [apply IH, Hlen|].
    assert (Hl : length (selected ++ [f]) = Datatypes.S (length selected))
      by (rewrite length_app; simpl; lia).
    destruct (Nat.leb_spec 3 (length (selected ++ [f]))) as [Hfull|Hroom].
    + change (selected ++ f :: first_of_each_type rest
                                  (c_type f :: seen_types))
        with (selected ++ [f] ++ first_of_each_type rest
                                   (c_type f :: seen_types)).
      rewrite app_assoc, firstn_app.
      replace (3 - length (selected ++ [f]))%nat with 0%nat by lia.
      rewrite firstn_all2 by lia.
      simpl. rewrite app_nil_r. reflexivity.
    + rewrite IH by lia.
      rewrite <- app_assoc. reflexivity.
Qed.

Lemma first_of_each_type_spec failures :
  forall seen_types,
    List.NoDup (map c_type (first_of_each_type failures seen_types))
    /\ Forall (fun c => In c failures /\ ~ In (c_type c) seen_types)
              (first_of_each_type failures seen_types).
Proof.
  induction failures as [|f rest IH]; intros seen_types; simpl.
  - split; constructor.
  - destruct (seen (c_type f) seen_types) eqn:Hseen.
    + destruct (IH seen_types) as [Hnd Hall]. split; [exact Hnd|].
      eapply Forall_impl; [exact Hall|]. intros c [H1 H2]. tauto.
    + destruct (IH (c_type f :: seen_types)) as [Hnd Hall].
      rewrite List.Forall_forall in Hall. split.
      * simpl. constructor; [|exact Hnd].
        intros Hin. apply in_map_iff in Hin as (c & Heq & Hc).
        apply Hall in Hc as [_ Hc]. apply Hc. left. symmetry. exact Heq.
      * constructor.
        -- split; [left; reflexivity|].
           intros Hin. apply seen_in in Hin. congruence.
        -- apply List.Forall_forall. intros c Hc.
           apply Hall in Hc as [H1 H2]. split; [right; exact H1|].
           intros Hin. apply H2. right. exact Hin.
Qed.

(** Every type that occurs among the failures is represented. *)
Lemma first_of_each_type_complete failures :
  forall seen_types f,
    In f failures ->
    In (c_type f) seen_types
    \/ In (c_type f) (map c_type (first_of_each_type failures seen_types)).
Proof.
  induction failures as [|g rest IH]; intros seen_types f Hin; [destruct Hin|].
  simpl. destruct (seen (c_type g) seen_types) eqn:Hseen.
  - destruct Hin as [->|Hin]; [left; apply seen_in, Hseen|].
    apply IH, Hin.
  - destruct Hin as [->|Hin]; [right; left; reflexivity|].
    destruct (IH (c_type g :: seen_types) f Hin) as [[Heq|H]|H].
    + right. left. exact Heq.
    + left. exact H.
    + right. right. exact H.
Qed.

Lemma insert_by_key_perm x l : Permutation (x :: l) (insert_by_key x l).
Proof.
  induction l as [|y t IH]; cbn [insert_by_key]; [reflexivity|].
  destruct (key_lt (severity x) (severity y)); [reflexivity|].
  rewrite perm_swap. constructor. exact IH.
Qed.

Lemma sort_by_key_perm_from l :
  forall acc,
    Permutation (l ++ acc)
                (fold_left (fun acc x => insert_by_key x acc) l acc).
Proof.
  induction l as [|x l IH]; intros acc; simpl; [reflexivity|].
  rewrite <- IH, <- insert_by_key_perm. apply Permutation_middle.
Qed.

Lemma sort_by_key_perm l : Permutation l (sort_by_key l).
Proof.
  unfold sort_by_key. rewrite <- sort_by_key_perm_from, app_nil_r.
  reflexivity.
Qed.

(** Comparisons of floats, as propositions. *)
Lemma flt_true x y : Py.flt x y = true <-> (x < y)%Q.
Proof.
  unfold Py.flt. rewrite negb_true_iff. split.
  - intros H. apply Qnot_le_lt. intros Hle.
    apply Qle_bool_iff in Hle. congruence.
  - intros H. destruct (Qle_bool y x) eqn:E; [|reflexivity].
    apply Qle_bool_iff in E. apply Qlt_not_le in H. contradiction.
Qed.

Lemma flt_false x y : Py.flt x y = false <-> (y <= x)%Q.
Proof.
  unfold Py.flt. rewrite negb_false_iff. apply Qle_bool_iff.
Qed.

Lemma key_lt_cases a1 a2 a3 b1 b2 b3 :
  key_lt (a1, a2, a3) (b1, b2, b3) = true
  <-> (a1 < b1
       \/ (a1 == b1 /\ a2 < b2)
       \/ (a1 == b1 /\ a2 == b2 /\ a3 < b3))%Q.
Proof.
  unfold key_lt.
  destruct (Qeq_bool a1 b1) eqn:E1; cbn [negb].
  - apply Qeq_bool_iff in E1.
    destruct (Qeq_bool a2 b2) eqn:E2; cbn [negb].
    + apply Qeq_bool_iff in E2. rewrite flt_true. split.
      * intros H. right. right. tauto.
      * intros [H|[[_ H]|[_ [_ H]]]]; [lra | lra | exact H].
    + apply Qeq_bool_neq in E2. rewrite flt_true. split.
      * intros H. right. left. tauto.
      * intros [H|[[_ H]|[_ [H _]]]]; [lra | exact H | contradiction].
  - apply Qeq_bool_neq in E1. rewrite flt_true. split.
    + intros H. left. exact H.
    + intros [H|[[H _]|[H _]]]; [exact H | contradiction | contradiction].
Qed.

Lemma key_lt_false_cases a1 a2 a3 b1 b2 b3 :
  key_lt (a1, a2, a3) (b1, b2, b3) = false
  <-> (b1 < a1
       \/ (a1 == b1 /\ b2 < a2)
       \/ (a1 == b1 /\ a2 == b2 /\ b3 <= a3))%Q.
Proof.
  rewrite <- not_true_iff_false, key_lt_cases.
  destruct (Q_dec a1 b1) as [[H1|H1]|H1];
    destruct (Q_dec a2 b2) as [[H2|H2]|H2];
    destruct (Qlt_le_dec a3 b3) as [H3|H3];
    split; intros H; try lra;
    try (exfalso; apply H; lra);
    try (intros H'; lra).
Qed.

Lemma not_less_severe_trans :
  Relations_1.Transitive not_less_severe.
Proof.
  intros a b c. unfold not_less_severe.
  destruct (severity a) as [[a1 a2] a3].
  destruct (severity b) as [[b1 b2] b3].
  destruct (severity c) as [[c1 c2] c3].
  rewrite !key_lt_false_cases. lra.
Qed.

Lemma insert_by_key_hd x l a :
  HdRel not_less_severe a l -> not_less_severe a x ->
  HdRel not_less_severe a (insert_by_key x l).
Proof.
  intros Hl Hx. destruct l as [|y t]; cbn [insert_by_key];
    [constructor; exact Hx|].
  destruct (key_lt (severity x) (severity y)); constructor; [exact Hx|].
  inversion Hl; assumption.
Qed.

Lemma insert_by_key_sorted x l :
  Sorted not_less_severe l -> Sorted not_less_severe (insert_by_key x l).
Proof.
  induction 1 as [|y t Ht IH Hy]; cbn [insert_by_key];
    [repeat constructor|].
  destruct (key_lt (severity x) (severity y)) eqn:Hlt.
  - constructor; [constructor; assumption|]. constructor.
    unfold not_less_severe.
    destruct (severity x) as [[x1 x2] x3].
    destruct (severity y) as [[y1 y2] y3].
    apply key_lt_cases in Hlt. apply key_lt_false_cases. lra.
  - constructor; [exact IH|].
    apply insert_by_key_hd; [exact Hy | exact Hlt].
Qed.

Lemma sort_by_key_sorted l : Sorted not_less_severe (sort_by_key l).
Proof.
  unfold sort_by_key.
  assert (H : forall acc, Sorted not_less_severe acc ->
                Sorted not_less_severe
                  (fold_left (fun acc x => insert_by_key x acc) l acc)).
  { induction l as [|x l IH]; intros acc Hacc; simpl; [exact Hacc|].
    apply IH, insert_by_key_sorted, Hacc. }
  apply H. constructor.
Qed.

End SelectionFacts.


Section SelectionMore.
Import FailureSelection.

Lemma first_of_each_type_first failures :
  forall seen_types c,
    In c (first_of_each_type failures seen_types) ->
    exists before after,
      failures = before ++ c :: after
      /\ ~ In (c_type c) (map c_type before).
Proof.
  induction failures as [|f rest IH]; intros seen_types c Hc;
    cbn [first_of_each_type] in Hc; [destruct Hc|].
  destruct (first_of_each_type_spec (f :: rest) seen_types) as [_ Hall].
  rewrite List.Forall_forall in Hall.
  cbn [first_of_each_type] in Hall.
  destruct (seen (c_type f) seen_types) eqn:Hseen.
  - destruct (IH _ _ Hc) as (before & after & -> & Hfirst).
    exists (f :: before), after. split; [reflexivity|].
    intros [Heq|Hin]; [|exact (Hfirst Hin)].
    apply Hall in Hc as [_ Hc]. apply Hc. rewrite <- Heq.
    apply seen_in, Hseen.
  - destruct Hc as [<-|Hc].
    + exists [], rest. split; [reflexivity | intros []].
    + destruct (IH _ _ Hc) as (before & after & -> & Hfirst).
      exists (f :: before), after. split; [reflexivity|].
      intros [Heq|Hin]; [|exact (Hfirst Hin)].
      destruct (first_of_each_type_spec (before ++ c :: after)
                  (c_type f :: seen_types)) as [_ Hall'].
      rewrite List.Forall_forall in Hall'.
      apply Hall' in Hc as [_ Hc]. apply Hc. left. exact Heq.
Qed.

Lemma in_firstn {T} n (l : list T) x : In x (firstn n l) -> In x l.
Proof.
  intros H. rewrite <- (firstn_skipn n l). apply in_or_app. left. exact H.
Qed.

Lemma strongly_sorted_prefix {T} (R : T -> T -> Prop) l1 l2 :
  StronglySorted R (l1 ++ l2) -> StronglySorted R l1.
Proof.
  induction l1 as [|x l1 IH]; simpl; intros Hs; [constructor|].
  inversion Hs as [|? ? Hs' Hall]; subst. constructor; [apply IH, Hs'|].
  apply Forall_app in Hall as [Hall _]. exact Hall.
Qed.

Lemma first_pass_subset failures c :
  In c (first_pass failures [] []) -> In c failures.
Proof.
  rewrite first_pass_firstn by (simpl; lia). simpl app. intros Hc.
  apply in_firstn in Hc.
  destruct (first_of_each_type_spec failures []) as [_ Hall].
  rewrite List.Forall_forall in Hall. apply Hall, Hc.
Qed.

Lemma first_pass_length failures :
  (length (first_pass failures [] []) <= 3)%nat.
Proof.
  rewrite first_pass_firstn by (simpl; lia). apply firstn_le_length.
Qed.

End SelectionMore.

(** X18.  At most three failures are selected, each of them is one of
    the failures found, and the failures picked by the first loop come
    first. *)
Theorem selection_at_most_three
        (failures : list FailureSelection.candidate) :
  (length (FailureSelection.select_representative failures) <= 3)%nat
  /\ (forall c, In c (FailureSelection.select_representative failures) ->
                In c failures)
  /\ exists fill,
       FailureSelection.select_representative failures
       = FailureSelection.first_pass failures [] [] ++ fill.
Proof.
  pose proof (first_pass_length failures) as Hlen.
  unfold FailureSelection.select_representative. cbv zeta.
  destruct (Nat.ltb_spec (length (FailureSelection.first_pass failures [] []))
                         3) as [Hlt|Hge].
  - split; [|split].
    + rewrite length_app.
      pose proof (firstn_le_length
                    (3 - length (FailureSelection.first_pass failures [] []))
                    (FailureSelection.sort_by_key
                       (List.filter
                          (FailureSelection.unselected
                             (FailureSelection.first_pass failures [] []))
                          failures))).
      lia.
    + intros c Hc. apply in_app_or in Hc as [Hc|Hc];
        [apply first_pass_subset, Hc|].
      apply in_firstn in Hc.
      apply (Permutation_in _ (Permutation_sym (sort_by_key_perm _))) in Hc.
      apply List.filter_In in Hc as [Hc _]. exact Hc.
    + eexists. reflexivity.
  - split; [exact Hlen|]. split; [apply first_pass_subset|].
    exists []. rewrite app_nil_r. reflexivity.
Qed.

(** X19.  The first loop selects failures of pairwise different types,
    each the first of its type in the list of failures; when it selects
    fewer than three, every type that occurs is represented. *)
Theorem first_pass_one_per_type
        (failures : list FailureSelection.candidate) :
  List.NoDup (map FailureSelection.c_type
                  (FailureSelection.first_pass failures [] []))
  /\ (forall c, In c (FailureSelection.first_pass failures [] []) ->
        exists before after,
          failures = before ++ c :: after
          /\ ~ In (FailureSelection.c_type c)
                  (map FailureSelection.c_type before))
  /\ ((length (FailureSelection.first_pass failures [] []) < 3)%nat ->
      forall f, In f failures ->
        In (FailureSelection.c_type f)
           (map FailureSelection.c_type
                (FailureSelection.first_pass failures [] []))).
Proof.
  rewrite first_pass_firstn by (simpl; lia). simpl app.
  destruct (first_of_each_type_spec failures []) as [Hnd _].
  split; [|split].
  - rewrite <- firstn_map.
    rewrite <- (firstn_skipn 3 (map FailureSelection.c_type
                                    (FailureSelection.first_of_each_type
                                       failures []))) in Hnd.
    apply NoDup_app_remove_r in Hnd. exact Hnd.
  - intros c Hc. apply in_firstn in Hc.
    apply (first_of_each_type_first failures [] c Hc).
  - intros Hlt f Hf.
    rewrite firstn_all2.
    + destruct (first_of_each_type_complete failures [] f Hf) as [[]|H].
      exact H.
    + rewrite length_firstn in Hlt. lia.
Qed.

(** X20.  When the first loop selects fewer than three failures, the
    selection is filled with failures of queries not selected yet, the
    most severe first: the fill is sorted by its key, and no failure left
    out has a smaller key than one that was taken. *)
Theorem fill_most_severe (failures : list FailureSelection.candidate) :
  let selected := FailureSelection.first_pass failures [] [] in
  let remaining :=
    List.filter (FailureSelection.unselected selected) failures in
  (length selected < 3)%nat ->
  exists fill rest,
    FailureSelection.select_representative failures = selected ++ fill
    /\ Permutation (fill ++ rest) remaining
    /\ length fill = Nat.min (3 - length selected) (length remaining)
    /\ StronglySorted FailureSelection.not_less_severe fill
    /\ (forall a b, In a fill -> In b rest ->
                    FailureSelection.not_less_severe a b).
Proof.
  intros selected remaining Hlt.
  exists (firstn (3 - length selected)
                 (FailureSelection.sort_by_key remaining)),
         (skipn (3 - length selected)
                (FailureSelection.sort_by_key remaining)).
  assert (Hs : StronglySorted FailureSelection.not_less_severe
                 (firstn (3 - length selected)
                         (FailureSelection.sort_by_key remaining)
                  ++ skipn (3 - length selected)
                           (FailureSelection.sort_by_key remaining))).
  { rewrite firstn_skipn.
    apply Sorted_StronglySorted;
      [exact not_less_severe_trans | apply sort_by_key_sorted]. }
  split; [|split; [|split; [|split]]].
  - unfold FailureSelection.select_representative. cbv zeta.
    fold selected. fold remaining.
    apply Nat.ltb_lt in Hlt. rewrite Hlt. reflexivity.
  - rewrite firstn_skipn. symmetry. apply sort_by_key_perm.
  - rewrite length_firstn.
    rewrite <- (Permutation_length (sort_by_key_perm remaining)).
    reflexivity.
  - eapply strongly_sorted_prefix. exact Hs.
  - apply strongly_sorted_app. exact Hs.
Qed.

Lemma fill_most_severe_witness :
  let failures :=
    [ {| FailureSelection.c_type := CompareBaselineEnhanced.LowGroundedness;
         FailureSelection.c_query_id :=
           CompareBaselineEnhanced.IdStr "q01";
         FailureSelection.m_citation_precision := Some 1%Q;
         FailureSelection.m_groundedness_score := Some 2%Q;
         FailureSelection.m_answer_relevance := None |};
      {| FailureSelection.c_type := CompareBaselineEnhanced.LowGroundedness;
         FailureSelection.c_query_id :=
           CompareBaselineEnhanced.IdStr "q02";
         FailureSelection.m_citation_precision := Some 1%Q;
         FailureSelection.m_groundedness_score := Some 2%Q;
         FailureSelection.m_answer_relevance := Some 4%Q |};
      {| FailureSelection.c_type := CompareBaselineEnhanced.LowGroundedness;
         FailureSelection.c_query_id :=
           CompareBaselineEnhanced.IdStr "q03";
         FailureSelection.m_citation_precision := Some (1 # 2)%Q;
         FailureSelection.m_groundedness_score := Some 2%Q;
         FailureSelection.m_answer_relevance := Some 4%Q |};
      {| FailureSelection.c_type := CompareBaselineEnhanced.LowGroundedness;
         FailureSelection.c_query_id :=
           CompareBaselineEnhanced.IdStr "q04";
         FailureSelection.m_citation_precision := None;
         FailureSelection.m_groundedness_score := Some 1%Q;
         FailureSelection.m_answer_relevance := Some 4%Q |} ] in
  (length (FailureSelection.first_pass failures [] []) < 3)%nat
  /\ map FailureSelection.c_query_id
         (FailureSelection.select_representative failures)
     = [CompareBaselineEnhanced.IdStr "q01";
        CompareBaselineEnhanced.IdStr "q03";
        CompareBaselineEnhanced.IdStr "q04"]
  /\ exists fill rest,
       FailureSelection.select_representative failures
       = FailureSelection.first_pass failures [] [] ++ fill
       /\ Permutation (fill ++ rest)
            (List.filter
               (FailureSelection.unselected
                  (FailureSelection.first_pass failures [] []))
               failures)
       /\ length fill
          = Nat.min (3 - length (FailureSelection.first_pass failures [] []))
              (length (List.filter
                         (FailureSelection.unselected
                            (FailureSelection.first_pass failures [] []))
                         failures))
       /\ StronglySorted FailureSelection.not_less_severe fill
       /\ (forall a b, In a fill -> In b rest ->
                       FailureSelection.not_less_severe a b).
Proof.
  intros failures.
  assert (Hlt : (length (FailureSelection.first_pass failures [] []) < 3)%nat)
    by (vm_compute; lia).
  split; [exact Hlt|]. split; [reflexivity|].
  exact (fill_most_severe failures Hlt).
Defined.


(* ===================================================================== *)
(** * Which queries the failure analysis reports                          *)
(* ===================================================================== *)

Section EvaluationFacts.
Import CompareBaselineEnhanced.

Lemma otherwise_nil ts ty b : otherwise ts ty b = [] <-> ts = [] /\ b = false.
Proof.
  destruct ts, b; simpl; split; intros H; try tauto; try discriminate;
    destruct H; discriminate.
Qed.

Lemma repeat_nil {T} (x : T) n : repeat x n = [] <-> n = 0%nat.
Proof. destruct n; simpl; split; intros H; congruence. Qed.

Lemma existsb_false {T} (f : T -> bool) l :
  existsb f l = false <-> forall x, In x l -> f x = false.
Proof.
  induction l as [|y l IH]; simpl.
  - split; [intros _ x [] | reflexivity].
  - rewrite orb_false_iff, IH. split.
    + intros [Hy Hl] x [<-|Hx]; [exact Hy | apply Hl, Hx].
    + intros H. split; [apply H; left; reflexivity|].
      intros x Hx. apply H. right. exact Hx.
Qed.

Lemma filter_nil {T} (f : T -> bool) l :
  List.filter f l = [] <-> forall x, In x l -> f x = false.
Proof.
  induction l as [|y l IH]; simpl.
  - split; [intros _ x [] | reflexivity].
  - destruct (f y) eqn:Hy.
    + split; [discriminate|]. intros H.
      specialize (H y (or_introl eq_refl)). congruence.
    + rewrite IH. split.
      * intros Hl x [<-|Hx]; [exact Hy | apply Hl, Hx].
      * intros H x Hx. apply H. right. exact Hx.
Qed.

Lemma hits_zero sel scores q :
  hits sel scores q = 0%nat
  <-> forall row, In row scores -> query_id row = q -> sel row = false.
Proof.
  unfold hits. rewrite length_zero_iff_nil, filter_nil. unfold of_query.
  split; intros H row Hrow.
  - intros Hq. specialize (H row Hrow).
    apply id_eqb_eq in Hq. rewrite Hq, andb_true_r in H. exact H.
  - destruct (id_eqb (query_id row) q) eqn:Hq;
      [|apply andb_false_r].
    apply id_eqb_eq in Hq. rewrite (H row Hrow Hq). reflexivity.
Qed.

Lemma any_false sel scores q :
  any sel scores q = false
  <-> forall row, In row scores -> query_id row = q -> sel row = false.
Proof.
  unfold any. rewrite existsb_false. unfold of_query.
  split; intros H row Hrow.
  - intros Hq. specialize (H row Hrow).
    apply id_eqb_eq in Hq. rewrite Hq, andb_true_r in H. exact H.
  - destruct (id_eqb (query_id row) q) eqn:Hq;
      [|apply andb_false_r].
    apply id_eqb_eq in Hq. rewrite (H row Hrow Hq). reflexivity.
Qed.

Lemma has_invalid_false results q :
  has_invalid results q = false
  <-> forall r, In r results -> r_query_id r = q ->
                r_invalid_citations r = [].
Proof.
  unfold has_invalid. rewrite existsb_false.
  split; intros H r Hr.
  - intros Hq. specialize (H r Hr).
    apply id_eqb_eq in Hq. rewrite Hq, andb_true_r in H.
    destruct (r_invalid_citations r); [reflexivity | discriminate].
  - destruct (id_eqb (r_query_id r) q) eqn:Hq;
      [|apply andb_false_r].
    apply id_eqb_eq in Hq. rewrite (H r Hr Hq). reflexivity.
Qed.

(** No type is recorded for a query exactly when none of the five rules
    applies to it. *)
Lemma expected_types_nil scores results q :
  expected_types scores results q = []
  <-> (forall row, In row scores -> query_id row = q ->
         low_precision row = false)
      /\ ((0 <? length (get_chunks (results_dict results) q))%nat = true ->
          forall row, In row scores -> query_id row = q ->
            no_citations row = false)
      /\ (forall row, In row scores -> query_id row = q ->
            low_groundedness row = false)
      /\ (forall row, In row scores -> query_id row = q ->
            low_relevance row = false)
      /\ (forall r, In r results -> r_query_id r = q ->
            r_invalid_citations r = []).
Proof.
  unfold expected_types. cbv zeta.
  rewrite !otherwise_nil, app_nil, repeat_nil, hits_zero, !any_false,
    has_invalid_false.
  destruct (0 <? length (get_chunks (results_dict results) q))%nat.
  - rewrite repeat_nil, hits_zero. intuition auto.
  - intuition (auto; discriminate).
Qed.

Lemma truediv_same n : (0 < n)%nat -> (Py.truediv n n == 1)%Q.
Proof.
  intros Hn. unfold Py.truediv. apply Qmult_inv_r.
  intros H. unfold Qeq, inject_Z in H. simpl in H. lia.
Qed.

Lemma all_valid_no_invalid result :
  Metrics.valid_citations (Metrics.citation_precision result)
  = Metrics.total_citations (Metrics.citation_precision result)
  <-> cited_invalid result = [].
Proof.
  rewrite citation_precision_eq.
  assert (Hlen : length (cite_pairs (answer result))
                 = (length (cited_valid result)
                    + length (cited_invalid result))%nat)
    by apply (filter_split_length (fun m => retrieved result (snd m))).
  rewrite <- length_zero_iff_nil.
  destruct (cite_pairs (answer result)) as [|m l] eqn:E.
  - simpl in Hlen. split; [lia | reflexivity].
  - cbn [Metrics.valid_citations Metrics.total_citations]. lia.
Qed.

Lemma scored_low_precision judge e :
  low_precision (Evaluation.score judge e) = false
  <-> Metrics.total_citations
        (Metrics.citation_precision (Evaluation.e_result e)) <> 0%nat
      /\ (8 # 10 <= Py.truediv
                      (Metrics.valid_citations
                         (Metrics.citation_precision (Evaluation.e_result e)))
                      (Metrics.total_citations
                         (Metrics.citation_precision (Evaluation.e_result e))))%Q.
Proof.
  unfold low_precision, Evaluation.score. cbv zeta.
  cbn [citation_precision]. rewrite flt_false, citation_precision_eq.
  destruct (cite_pairs (answer (Evaluation.e_result e))) as [|m l] eqn:E.
  - cbn [Metrics.precision Metrics.total_citations]. split.
    + intros H. exfalso. revert H. apply Qlt_not_le. reflexivity.
    + intros [H _]. contradiction.
  - cbn [Metrics.precision Metrics.total_citations Metrics.valid_citations].
    split; [intros H; split; [discriminate | exact H] | intros [_ H]; exact H].
Qed.

End EvaluationFacts.

(** X21.  With the enhanced log and the scores computed from it (ids
    that read back from the table as text), a query goes unreported
    exactly when every record of it is clean: the answer cites something,
    every citation names a retrieved chunk, and neither judged score is
    below 3.  So an answer with an invalid citation, or with no citation,
    is always reported. *)
Theorem unreported_iff_clean
        (judge : Evaluation.entry -> Evaluation.llm_eval)
        (results : list Evaluation.entry) (q : string) :
  CompareBaselineEnhanced.types_of
    (CompareBaselineEnhanced.find_failures
       (Evaluation.score_all_results judge results)
       (map (Evaluation.logged true) results))
    (CompareBaselineEnhanced.IdStr q) = []
  <-> forall e, In e results -> Evaluation.e_query_id e = q ->
                Evaluation.clean judge e.
Proof.
  rewrite find_failures_types, expected_types_nil.
  unfold Evaluation.score_all_results. split.
  - intros (Hlp & _ & Hlg & Hlr & Hinv) e He Hq.
    apply (f_equal CompareBaselineEnhanced.IdStr) in Hq.
    specialize (Hlp _ (in_map (Evaluation.score judge) _ _ He) Hq).
    specialize (Hlg _ (in_map (Evaluation.score judge) _ _ He) Hq).
    specialize (Hlr _ (in_map (Evaluation.score judge) _ _ He) Hq).
    specialize (Hinv _ (in_map (Evaluation.logged true) _ _ He) Hq).
    cbn [Evaluation.logged CompareBaselineEnhanced.r_invalid_citations]
      in Hinv.
    rewrite enhance_answer_invalid in Hinv. apply map_eq_nil in Hinv.
    apply scored_low_precision in Hlp as [Htot _].
    unfold Evaluation.clean. split; [exact Htot|].
    split; [apply all_valid_no_invalid, Hinv|].
    split; [exact Hlg | exact Hlr].
  - intros Hclean.
    assert (Hrow : forall row,
               In row (map (Evaluation.score judge) results) ->
               CompareBaselineEnhanced.query_id row
               = CompareBaselineEnhanced.IdStr q ->
               exists e, row = Evaluation.score judge e
                         /\ Evaluation.clean judge e).
    { intros row Hrow Hq. apply in_map_iff in Hrow as (e & <- & He).
      injection Hq as Hq.
      exists e. split; [reflexivity | apply Hclean; assumption]. }
    split; [|split; [|split; [|split]]].
    + intros row Hin Hq.
      destruct (Hrow row Hin Hq) as (e & -> & Htot & Hval & _).
      apply scored_low_precision. split; [exact Htot|].
      rewrite Hval, truediv_same by lia. discriminate.
    + intros _ row Hin Hq.
      destruct (Hrow row Hin Hq) as (e & -> & Htot & _).
      unfold CompareBaselineEnhanced.no_citations, Evaluation.score.
      cbv zeta. cbn [CompareBaselineEnhanced.total_citations].
      apply Z.eqb_neq. lia.
    + intros row Hin Hq.
      destruct (Hrow row Hin Hq) as (e & -> & _ & _ & Hg & _). exact Hg.
    + intros row Hin Hq.
      destruct (Hrow row Hin Hq) as (e & -> & _ & _ & _ & Hr). exact Hr.
    + intros r Hin Hq. apply in_map_iff in Hin as (e & <- & He).
      injection Hq as Hq.
      destruct (Hclean e He Hq) as (_ & Hval & _).
      cbn [Evaluation.logged CompareBaselineEnhanced.r_invalid_citations].
      rewrite enhance_answer_invalid.
      apply all_valid_no_invalid in Hval. rewrite Hval. reflexivity.
Qed.


(* ===================================================================== *)
(** * The ingestion run                                                   *)
(* ===================================================================== *)

Section IngestionFacts.
Context {token : Type}.
Variable encode : string -> list token.
Variable decode : list token -> string.
Variable extract_text : string -> Py.res string string.
Variable write_error : string -> string -> option string.
Variable tokenize_error : string -> option string.

(** The chunker of the pipeline always returns, with the chunks in closed
    form. *)
Lemma ingestion_chunk_text text sid :
  Ingestion.chunk_text encode decode text sid
  = Some (Ingestion.chunks_of encode decode (sid, text)).
Proof.
  unfold Ingestion.chunk_text, Ingestion.chunks_of. cbn [fst snd].
  destruct (run_closed_form encode decode Ingestion.chunker text sid
              ltac:(simpl; lia)) as (m & _ & Hc & Hm).
  rewrite Hc. do 3 f_equal.
  change (Chunker.stride Ingestion.chunker) with 384 in Hm.
  set (n := Z.of_nat (length (encode text))) in *.
  assert (Hup : n <= Z.of_nat m * 384).
  { destruct (Z.le_gt_cases n (Z.of_nat m * 384)) as [|Hgt]; [assumption|].
    apply Hm in Hgt. lia. }
  assert (Hlow : m <> 0%nat -> (Z.of_nat m - 1) * 384 < n).
  { intros Hne.
    replace (Z.of_nat m - 1) with (Z.of_nat (m - 1)) by lia.
    apply Hm. lia. }
  assert (Hm' : Z.of_nat m = (n + 383) / 384).
  { apply Z.le_antisymm.
    - apply Z.div_le_lower_bound; [lia|].
      destruct (Nat.eq_dec m 0%nat) as [->|Hne]; [simpl; lia|].
      specialize (Hlow Hne). lia.
    - apply Z.lt_succ_r. apply Z.div_lt_upper_bound; lia. }
  lia.
Qed.

(** One pass of the loop body, by what becomes of the source. *)
Lemma body_status sid s :
  Ingestion.body encode decode extract_text write_error tokenize_error sid s
  = Some
      match Ingestion.status extract_text write_error tokenize_error sid with
      | Ingestion.Chunked text =>
          {| Ingestion.all_chunks :=
               Ingestion.all_chunks s
               ++ Ingestion.chunks_of encode decode (sid, text);
             Ingestion.st :=
               {| Ingestion.total_sources :=
                    Ingestion.total_sources (Ingestion.st s) + 1;
                  Ingestion.total_chunks :=
                    Ingestion.total_chunks (Ingestion.st s);
                  Ingestion.errors := Ingestion.errors (Ingestion.st s) |};
             Ingestion.written :=
               Ingestion.written s ++ [(Ingestion.processed_path sid, text)];
             Ingestion.processed_dir := true |}
      | Ingestion.Failed msg text_written dir_made =>
          {| Ingestion.all_chunks := Ingestion.all_chunks s;
             Ingestion.st :=
               {| Ingestion.total_sources :=
                    Ingestion.total_sources (Ingestion.st s);
                  Ingestion.total_chunks :=
                    Ingestion.total_chunks (Ingestion.st s);
                  Ingestion.errors :=
                    Ingestion.errors (Ingestion.st s)
                    ++ [Ingestion.error_msg sid msg] |};
             Ingestion.written :=
               Ingestion.written s
               ++ match text_written with
                  | Some text => [(Ingestion.processed_path sid, text)]
                  | None => []
                  end;
             Ingestion.processed_dir :=
               Ingestion.processed_dir s || dir_made |}
      end.
Proof.
  unfold Ingestion.body, Ingestion.status.
  destruct (extract_text sid) as [text|msg].
  - cbv zeta. destruct (write_error sid text) as [msg|].
    + unfold Ingestion.record_error, Ingestion.mkdir. cbn.
      rewrite app_nil_r, orb_true_r. reflexivity.
    + destruct (tokenize_error text) as [msg|].
      * unfold Ingestion.record_error, Ingestion.write_text, Ingestion.mkdir.
        cbn. rewrite orb_true_r. reflexivity.
      * rewrite ingestion_chunk_text. reflexivity.
  - unfold Ingestion.record_error. cbn.
    rewrite app_nil_r, orb_false_r. reflexivity.
Qed.

Lemma for_each_spec manifest :
  forall s,
    Ingestion.for_each encode decode extract_text write_error tokenize_error
                       manifest s
    = Some {| Ingestion.all_chunks :=
                Ingestion.all_chunks s
                ++ flat_map (Ingestion.chunks_of encode decode)
                     (Ingestion.ingested extract_text write_error
                                         tokenize_error manifest);
              Ingestion.st :=
                {| Ingestion.total_sources :=
                     Ingestion.total_sources (Ingestion.st s)
                     + Z.of_nat
                         (length (Ingestion.ingested extract_text write_error
                                                     tokenize_error manifest));
                   Ingestion.total_chunks :=
                     Ingestion.total_chunks (Ingestion.st s);
                   Ingestion.errors :=
                     Ingestion.errors (Ingestion.st s)
                     ++ map (fun p => Ingestion.error_msg (fst p) (snd p))
                            (Ingestion.failed extract_text write_error
                                              tokenize_error manifest) |};
              Ingestion.written :=
                Ingestion.written s
                ++ map (fun p => (Ingestion.processed_path (fst p), snd p))
                       (Ingestion.texts extract_text write_error
                                        tokenize_error manifest);
              Ingestion.processed_dir :=
                Ingestion.processed_dir s
                || Ingestion.made_dir extract_text write_error
                                      tokenize_error manifest |}.
Proof.
  induction manifest as [|sid rest IH]; intros s.
  - simpl. rewrite !app_nil_r, Z.add_0_r, orb_false_r.
    destruct s as [c [n k e] w d]; reflexivity.
  - cbn [Ingestion.for_each Ingestion.ingested Ingestion.texts
         Ingestion.failed Ingestion.made_dir flat_map existsb].
    fold (Ingestion.ingested extract_text write_error tokenize_error rest).
    fold (Ingestion.texts extract_text write_error tokenize_error rest).
    fold (Ingestion.failed extract_text write_error tokenize_error rest).
    fold (Ingestion.made_dir extract_text write_error tokenize_error rest).
    rewrite body_status, IH.
    destruct (Ingestion.status extract_text write_error tokenize_error sid)
      as [text|msg [text|] dir_made];
      cbn [Ingestion.all_chunks Ingestion.st Ingestion.written
           Ingestion.processed_dir Ingestion.total_sources
           Ingestion.total_chunks Ingestion.errors
           app flat_map map length fst snd];
      rewrite <- ?app_assoc, ?app_nil_r, ?orb_assoc; cbn [app orb];
      do 2 f_equal; f_equal; lia.
Qed.

Lemma status_lengths manifest :
  (length (Ingestion.ingested extract_text write_error tokenize_error manifest)
   + length (Ingestion.failed extract_text write_error tokenize_error
                              manifest))%nat
  = length manifest.
Proof.
  induction manifest as [|sid rest IH]; [reflexivity|].
  cbn [Ingestion.ingested Ingestion.failed flat_map].
  fold (Ingestion.ingested extract_text write_error tokenize_error rest).
  fold (Ingestion.failed extract_text write_error tokenize_error rest).
  destruct (Ingestion.status extract_text write_error tokenize_error sid);
    simpl; lia.
Qed.

(** No directory is made exactly when no source can be parsed. *)
Lemma made_dir_false manifest :
  Ingestion.made_dir extract_text write_error tokenize_error manifest = false
  <-> forall sid, In sid manifest ->
                  exists msg, extract_text sid = Py.Raise msg.
Proof.
  unfold Ingestion.made_dir. rewrite existsb_false. split.
  - intros H sid Hin. specialize (H sid Hin).
    unfold Ingestion.status in H.
    destruct (extract_text sid) as [text|msg]; [|eauto].
    destruct (write_error sid text); [discriminate|].
    destruct (tokenize_error text); discriminate.
  - intros H sid Hin. destruct (H sid Hin) as [msg Hmsg].
    unfold Ingestion.status. rewrite Hmsg. reflexivity.
Qed.

(** Without a directory made, no text was written and no source was
    chunked. *)
Lemma made_dir_false_nothing manifest :
  Ingestion.made_dir extract_text write_error tokenize_error manifest = false ->
  Ingestion.texts extract_text write_error tokenize_error manifest = []
  /\ Ingestion.ingested extract_text write_error tokenize_error manifest = [].
Proof.
  unfold Ingestion.made_dir. rewrite existsb_false.
  induction manifest as [|sid rest IH]; intros H; [split; reflexivity|].
  cbn [Ingestion.texts Ingestion.ingested flat_map].
  fold (Ingestion.ingested extract_text write_error tokenize_error rest).
  fold (Ingestion.texts extract_text write_error tokenize_error rest).
  destruct IH as [IH1 IH2]; [intros x Hx; apply H; right; exact Hx|].
  rewrite IH1, IH2.
  specialize (H sid (or_introl eq_refl)).
  unfold Ingestion.status in *.
  destruct (extract_text sid) as [text|msg]; [|split; reflexivity].
  destruct (write_error sid text); [discriminate|].
  destruct (tokenize_error text); discriminate.
Qed.

Lemma ingested_ids manifest p :
  In p (Ingestion.ingested extract_text write_error tokenize_error manifest) ->
  In (fst p) manifest.
Proof.
  induction manifest as [|sid rest IH]; [intros []|].
  cbn [Ingestion.ingested flat_map].
  fold (Ingestion.ingested extract_text write_error tokenize_error rest).
  intros H. apply in_app_or in H as [H|H]; [|right; apply IH, H].
  destruct (Ingestion.status extract_text write_error tokenize_error sid);
    [|destruct H].
  destruct H as [<-|[]]. left. reflexivity.
Qed.

(** The run, from what becomes of each source. *)
Lemma run_spec (processed_dir0 : bool) manifest :
  Ingestion.run encode decode extract_text write_error tokenize_error
                processed_dir0 manifest
  = Some
      (let collected :=
         flat_map (Ingestion.chunks_of encode decode)
           (Ingestion.ingested extract_text write_error tokenize_error
                               manifest) in
       let processed :=
         map (fun p => (Ingestion.processed_path (fst p), snd p))
           (Ingestion.texts extract_text write_error tokenize_error
                            manifest) in
       if processed_dir0
          || Ingestion.made_dir extract_text write_error tokenize_error
                                manifest
       then
         {| Ingestion.processed := processed;
            Ingestion.collected := collected;
            Ingestion.chunks_jsonl := Some collected;
            Ingestion.report :=
              Some {| Ingestion.total_sources :=
                        Z.of_nat
                          (length (Ingestion.ingested extract_text write_error
                                     tokenize_error manifest));
                      Ingestion.total_chunks := Z.of_nat (length collected);
                      Ingestion.errors :=
                        map (fun p => Ingestion.error_msg (fst p) (snd p))
                          (Ingestion.failed extract_text write_error
                                            tokenize_error manifest) |};
            Ingestion.result :=
              match Ingestion.ingested extract_text write_error
                                       tokenize_error manifest with
              | [] => Py.Raise Ingestion.ZeroDivisionError
              | _ :: _ => Py.Ret tt
              end |}
       else
         {| Ingestion.processed := processed;
            Ingestion.collected := collected;
            Ingestion.chunks_jsonl := None;
            Ingestion.report := None;
            Ingestion.result := Py.Raise Ingestion.FileNotFoundError |}).
Proof.
  unfold Ingestion.run. rewrite for_each_spec. cbv zeta.
  cbn [Ingestion.all_chunks Ingestion.st Ingestion.written
       Ingestion.processed_dir Ingestion.total_sources
       Ingestion.total_chunks Ingestion.errors app].
  destruct (processed_dir0 || _); cbn [negb]; [|reflexivity].
  do 2 f_equal.
  destruct (Ingestion.ingested extract_text write_error tokenize_error
                               manifest) as [|p ps]; [reflexivity|].
  destruct (Z.eqb_spec (0 + Z.of_nat (length (p :: ps))) 0) as [H0|_];
    [simpl in H0; lia | reflexivity].
Qed.

End IngestionFacts.

Section ChunkIdFacts.

Lemma uint_of_string_no_underscore s d :
  NilEmpty.uint_of_string s = Some d ->
  Forall (fun c => c <> "_"%char) (list_ascii_of_string s).
Proof.
  revert d. induction s as [|a s IH]; intros d H; simpl; [constructor|].
  simpl in H.
  destruct (NilEmpty.uint_of_string s) as [d'|] eqn:E.
  - constructor; [|eapply IH; reflexivity].
    intros ->. discriminate.
  - destruct a as [[] [] [] [] [] [] [] []]; discriminate.
Qed.

Lemma fmt_03d_no_underscore n :
  0 <= n -> Forall (fun c => c <> "_"%char) (list_ascii_of_string (Py.fmt_03d n)).
Proof.
  intros Hn. pose proof (decimal_value_fmt_03d n Hn) as H.
  unfold decimal_value in H.
  destruct (NilEmpty.uint_of_string (Py.fmt_03d n)) as [d|] eqn:E;
    [|discriminate].
  eapply uint_of_string_no_underscore, E.
Qed.

Lemma split_at_first {T} (c : T) d1 :
  forall d2 r1 r2,
    Forall (fun x => x <> c) d1 -> Forall (fun x => x <> c) d2 ->
    d1 ++ c :: r1 = d2 ++ c :: r2 -> d1 = d2 /\ r1 = r2.
Proof.
  induction d1 as [|x d1 IH]; intros d2 r1 r2 H1 H2 Heq.
  - destruct d2 as [|y d2]; simpl in Heq.
    + injection Heq as ->. split; reflexivity.
    + injection Heq as <- _. inversion H2; congruence.
  - destruct d2 as [|y d2]; simpl in Heq.
    + injection Heq as -> _. inversion H1; congruence.
    + injection Heq as -> Heq. inversion H1; inversion H2; subst.
      destruct (IH d2 r1 r2) as [-> ->]; try assumption.
      split; reflexivity.
Qed.

(** A chunk id determines its source id as well as its number. *)
Lemma chunk_id_source sid1 sid2 n1 n2 :
  0 <= n1 -> 0 <= n2 ->
  sid1 +:+ "_chunk_" +:+ Py.fmt_03d n1 = sid2 +:+ "_chunk_" +:+ Py.fmt_03d n2 ->
  sid1 = sid2.
Proof.
  intros H1 H2 Heq.
  apply (f_equal list_ascii_of_string) in Heq.
  rewrite !list_ascii_of_string_app in Heq.
  apply (f_equal (@rev ascii)) in Heq.
  rewrite !rev_app_distr in Heq.
  change (rev (list_ascii_of_string "_chunk_"))
    with ("_"%char :: rev (list_ascii_of_string "_chunk")) in Heq.
  rewrite <- !app_assoc in Heq. cbn [app] in Heq.
  apply split_at_first in Heq as [_ Heq];
    [| apply Forall_rev, fmt_03d_no_underscore, H1
     | apply Forall_rev, fmt_03d_no_underscore, H2].
  apply app_inv_head in Heq.
  apply (f_equal (@rev ascii)) in Heq. rewrite !rev_involutive in Heq.
  apply (f_equal string_of_list_ascii) in Heq.
  rewrite !string_of_list_ascii_of_string in Heq. exact Heq.
Qed.

End ChunkIdFacts.

(** X22.  A run that finds or makes the directory [data/processed]
    accounts for every manifest item: each source is either chunked or
    reported with its error line, in manifest order; the chunks file is
    the concatenation of the chunks of the chunked sources, each numbered
    from 1, and the statistics count them.  The processed text of a source
    is written when it was parsed and the write succeeded.  A run that
    neither finds nor makes the directory writes nothing and reports
    nothing. *)
Theorem ingestion_accounts_for_every_source {token : Type}
        (encode : string -> list token) (decode : list token -> string)
        (extract_text : string -> Py.res string string)
        (write_error : string -> string -> option string)
        (tokenize_error : string -> option string)
        (processed_dir0 : bool) (manifest : list string) :
  exists out,
    Ingestion.run encode decode extract_text write_error tokenize_error
                  processed_dir0 manifest = Some out
    /\ Ingestion.collected out
       = flat_map (Ingestion.chunks_of encode decode)
           (Ingestion.ingested extract_text write_error tokenize_error
                               manifest)
    /\ Ingestion.processed out
       = map (fun p => (Ingestion.processed_path (fst p), snd p))
           (Ingestion.texts extract_text write_error tokenize_error manifest)
    /\ (processed_dir0
        || Ingestion.made_dir extract_text write_error tokenize_error manifest
        = true ->
        Ingestion.chunks_jsonl out = Some (Ingestion.collected out)
        /\ exists stats,
             Ingestion.report out = Some stats
             /\ Ingestion.errors stats
                = map (fun p => Ingestion.error_msg (fst p) (snd p))
                    (Ingestion.failed extract_text write_error tokenize_error
                                      manifest)
             /\ Ingestion.total_chunks stats
                = Z.of_nat (length (Ingestion.collected out))
             /\ Ingestion.total_sources stats
                = Z.of_nat
                    (length (Ingestion.ingested extract_text write_error
                                                tokenize_error manifest))
             /\ Ingestion.total_sources stats
                + Z.of_nat (length (Ingestion.errors stats))
                = Z.of_nat (length manifest))
    /\ (processed_dir0
        || Ingestion.made_dir extract_text write_error tokenize_error manifest
        = false ->
        Ingestion.chunks_jsonl out = None
        /\ Ingestion.report out = None
        /\ Ingestion.processed out = []
        /\ Ingestion.collected out = []).
Proof.
  rewrite run_spec. cbv zeta. eexists. split; [reflexivity|].
  destruct (processed_dir0
            || Ingestion.made_dir extract_text write_error tokenize_error
                                  manifest) eqn:Hdir;
    cbn [Ingestion.collected Ingestion.processed Ingestion.chunks_jsonl
         Ingestion.report].
  - split; [reflexivity|]. split; [reflexivity|].
    split; [|discriminate]. intros _. split; [reflexivity|].
    eexists. split; [reflexivity|].
    cbn [Ingestion.errors Ingestion.total_chunks Ingestion.total_sources].
    repeat split. rewrite length_map.
    pose proof (status_lengths extract_text write_error tokenize_error
                               manifest).
    lia.
  - split; [reflexivity|]. split; [reflexivity|].
    split; [discriminate|]. intros _.
    apply orb_false_iff in Hdir as [_ Hdir].
    destruct (made_dir_false_nothing extract_text write_error tokenize_error
                                     manifest Hdir) as [Ht Hi].
    rewrite Ht, Hi. repeat split.
Qed.

(** X23.  How a run ends.  It ends in [FileNotFoundError], with no chunks
    file and no report, exactly when the directory [data/processed] did
    not exist and no source could be parsed.  It ends in
    [ZeroDivisionError], after an empty chunks file and the report were
    written, exactly when the directory exists or was made and no source
    was chunked.  It returns exactly when some source was chunked. *)
Theorem ingestion_fails_without_sources {token : Type}
        (encode : string -> list token) (decode : list token -> string)
        (extract_text : string -> Py.res string string)
        (write_error : string -> string -> option string)
        (tokenize_error : string -> option string)
        (processed_dir0 : bool) (manifest : list string) :
  exists out,
    Ingestion.run encode decode extract_text write_error tokenize_error
                  processed_dir0 manifest = Some out
    /\ (Ingestion.result out = Py.Raise Ingestion.FileNotFoundError
        <-> processed_dir0 = false
            /\ forall sid, In sid manifest ->
                           exists msg, extract_text sid = Py.Raise msg)
    /\ (Ingestion.result out = Py.Raise Ingestion.FileNotFoundError ->
        Ingestion.chunks_jsonl out = None /\ Ingestion.report out = None)
    /\ (Ingestion.result out = Py.Raise Ingestion.ZeroDivisionError
        <-> (processed_dir0 = true
             \/ exists sid text, In sid manifest
                                 /\ extract_text sid = Py.Ret text)
            /\ Ingestion.ingested extract_text write_error tokenize_error
                                  manifest = [])
    /\ (Ingestion.result out = Py.Raise Ingestion.ZeroDivisionError ->
        Ingestion.chunks_jsonl out = Some []
        /\ exists stats,
             Ingestion.report out = Some stats
             /\ length (Ingestion.errors stats) = length manifest)
    /\ (Ingestion.result out = Py.Ret tt
        <-> Ingestion.ingested extract_text write_error tokenize_error
                               manifest <> []).
Proof.
  rewrite run_spec. cbv zeta. eexists. split; [reflexivity|].
  pose proof (made_dir_false extract_text write_error tokenize_error manifest)
    as Hmade.
  pose proof (status_lengths extract_text write_error tokenize_error manifest)
    as Hlen.
  assert (Hparsed :
            Ingestion.made_dir extract_text write_error tokenize_error manifest
            = true ->
            exists sid text, In sid manifest /\ extract_text sid = Py.Ret text).
  { unfold Ingestion.made_dir. rewrite existsb_exists.
    intros (sid & Hin & Hs). unfold Ingestion.status in Hs.
    destruct (extract_text sid) as [text|msg] eqn:E; [eauto | discriminate]. }
  destruct (processed_dir0
            || Ingestion.made_dir extract_text write_error tokenize_error
                                  manifest) eqn:Hdir;
    cbn [Ingestion.result Ingestion.chunks_jsonl Ingestion.report].
  - assert (Hnot : ~ (processed_dir0 = false
                      /\ forall sid, In sid manifest ->
                                     exists msg, extract_text sid
                                                 = Py.Raise msg)).
    { intros [H1 H2]. apply (proj2 Hmade) in H2. rewrite H1, H2 in Hdir.
      discriminate. }
    assert (Hsome : processed_dir0 = true
                    \/ exists sid text, In sid manifest
                                        /\ extract_text sid = Py.Ret text).
    { apply orb_true_iff in Hdir as [H|H];
        [left; exact H | right; apply Hparsed, H]. }
    destruct (Ingestion.ingested extract_text write_error tokenize_error
                                 manifest) as [|p ps] eqn:Hing.
    + split; [split; [discriminate | intros H; contradiction]|].
      split; [discriminate|].
      split; [split; [intros _; split; [exact Hsome | reflexivity]
                     | reflexivity]|].
      split.
      * intros _. split; [reflexivity|].
        eexists. split; [reflexivity|].
        cbn [Ingestion.errors]. rewrite length_map.
        simpl in Hlen. exact Hlen.
      * split; [discriminate | intros H; contradiction].
    + split; [split; [discriminate | intros H; contradiction]|].
      split; [discriminate|].
      split; [split; [discriminate | intros [_ H]; discriminate H]|].
      split; [discriminate|].
      split; [discriminate | reflexivity].
  - apply orb_false_iff in Hdir as [Hdir0 Hdir].
    pose proof (proj1 Hmade Hdir) as Hall.
    destruct (made_dir_false_nothing extract_text write_error tokenize_error
                                     manifest Hdir) as [_ Hing].
    rewrite Hing.
    split; [split; [intros _; split; [exact Hdir0 | exact Hall]
                   | reflexivity]|].
    split; [intros _; split; reflexivity|].
    split; [split; [discriminate|]|].
    { intros [[H|(sid & text & Hin & Htext)] _]; [congruence|].
      destruct (Hall sid Hin) as [msg Hmsg]. congruence. }
    split; [discriminate|].
    split; [discriminate | intros H; contradiction].
Qed.

(** X24.  When the manifest lists every source id once, no two chunks
    collected by an ingestion run share a chunk id, and every chunk belongs
    to a manifest source; the chunks file, when it is written, holds these
    chunks. *)
Theorem corpus_chunk_ids_distinct {token : Type}
        (encode : string -> list token) (decode : list token -> string)
        (extract_text : string -> Py.res string string)
        (write_error : string -> string -> option string)
        (tokenize_error : string -> option string)
        (processed_dir0 : bool) (manifest : list string) :
  List.NoDup manifest ->
  exists out,
    Ingestion.run encode decode extract_text write_error tokenize_error
                  processed_dir0 manifest = Some out
    /\ List.NoDup (map chunk_id (Ingestion.collected out))
    /\ Forall (fun c => In (source_id c) manifest) (Ingestion.collected out)
    /\ (forall lines, Ingestion.chunks_jsonl out = Some lines ->
                      lines = Ingestion.collected out).
Proof.
  intros Hnd. rewrite run_spec. cbv zeta. eexists. split; [reflexivity|].
  set (collected := flat_map (Ingestion.chunks_of encode decode)
                      (Ingestion.ingested extract_text write_error
                                          tokenize_error manifest)).
  assert (Hsrc : forall l c,
             In c (flat_map (Ingestion.chunks_of encode decode)
                     (Ingestion.ingested extract_text write_error
                                         tokenize_error l)) ->
             In (source_id c) l
             /\ exists n, 0 <= n
                  /\ chunk_id c
                     = source_id c +:+ "_chunk_" +:+ Py.fmt_03d n).
  { intros l c Hc. apply in_flat_map in Hc as (p & Hp & Hc).
    apply ingested_ids in Hp.
    unfold Ingestion.chunks_of in Hc.
    apply in_map_iff in Hc as (j & <- & _).
    split; [exact Hp|]. exists (1 + Z.of_nat j). split; [lia|].
    reflexivity. }
  assert (Hids : List.NoDup (map chunk_id collected)).
  { subst collected.
    induction Hnd as [|sid rest Hnotin Hnd IH]; [constructor|].
    cbn [Ingestion.ingested flat_map].
    fold (Ingestion.ingested extract_text write_error tokenize_error rest).
    destruct (Ingestion.status extract_text write_error tokenize_error sid)
      as [text|msg tw dm]; [|exact IH].
    cbn [app flat_map].
    rewrite map_app. apply List.NoDup_app; [| exact IH |].
    - unfold Ingestion.chunks_of. rewrite map_map.
      apply Injective_map_NoDup; [|apply seq_NoDup].
      intros i j. apply chunk_from_id.
    - intros cid Hin1 Hin2.
      apply in_map_iff in Hin1 as (c1 & <- & Hc1).
      apply in_map_iff in Hin2 as (c2 & Heq & Hc2).
      apply Hsrc in Hc2 as (Hrest & n2 & Hn2 & Hid2).
      unfold Ingestion.chunks_of in Hc1.
      apply in_map_iff in Hc1 as (j & <- & _).
      rewrite Hid2 in Heq.
      apply chunk_id_source in Heq; [| exact Hn2 | lia].
      apply Hnotin. cbn [fst] in Heq. rewrite <- Heq. exact Hrest. }
  assert (Hall : Forall (fun c => In (source_id c) manifest) collected).
  { apply List.Forall_forall. intros c Hc. apply (Hsrc manifest c Hc). }
  destruct (processed_dir0 || _);
    cbn [Ingestion.collected Ingestion.chunks_jsonl];
    (split; [exact Hids|]); (split; [exact Hall|]);
    intros lines Hlines; [injection Hlines as <-; reflexivity | discriminate].
Qed.

Lemma corpus_chunk_ids_distinct_witness :
  List.NoDup ["smith2020"; "missing"; "lee2021"]
  /\ exists out,
       Ingestion.run Chunker.byte_encode Chunker.byte_decode
                     Ingestion.example_parser Ingestion.no_write_error
                     Ingestion.no_tokenize_error false
                     ["smith2020"; "missing"; "lee2021"] = Some out
       /\ List.NoDup (map chunk_id (Ingestion.collected out))
       /\ Ingestion.chunks_jsonl out = Some (Ingestion.collected out).
Proof.
  assert (Hnd : List.NoDup ["smith2020"; "missing"; "lee2021"]).
  { repeat constructor; simpl; intros H;
      repeat (destruct H as [H|H]; [discriminate|]); exact H. }
  split; [exact Hnd|].
  destruct (corpus_chunk_ids_distinct Chunker.byte_encode Chunker.byte_decode
              Ingestion.example_parser Ingestion.no_write_error
              Ingestion.no_tokenize_error false _ Hnd)
    as (out & Hrun & Hids & _ & _).
  exists out. split; [exact Hrun|]. split; [exact Hids|].
  vm_compute in Hrun. injection Hrun as <-. reflexivity.
Defined.

(* ===================================================================== *)
(** * Cleaning of extracted text                                          *)
(* ===================================================================== *)

Section SubFacts.
Import Re.
Variable p : ascii -> bool.
Variable repl : list ascii.

(** Every string splits into a maximal run of [p] and a rest. *)
Lemma span_run s :
  exists g post, s = g ++ post /\ all_in p g /\ stops p post.
Proof.
  induction s as [|c s (g & post & -> & Hall & Hstop)].
  - exists [], []. repeat split. constructor.
  - destruct (p c) eqn:Hc.
    + exists (c :: g), post. split; [reflexivity|].
      split; [constructor; assumption | exact Hstop].
    + exists [], (c :: g ++ post). split; [reflexivity|].
      split; [constructor | exact Hc].
Qed.

Lemma match_run_none s : stops p s -> match_here [GroupPlus p] s = None.
Proof.
  destruct s as [|c s]; simpl; [reflexivity|]. intros ->. reflexivity.
Qed.

Lemma match_run g post :
  g <> [] -> all_in p g -> stops p post ->
  match_here [GroupPlus p] (g ++ post) = Some ([g], post).
Proof.
  intros Hne Hall Hstop.
  apply match_group_fwd; [assumption | assumption | assumption |].
  reflexivity.
Qed.

Lemma sub_from_skip pat g post :
  PdfParser.sub_from pat repl (length g) (g ++ post)
  = PdfParser.sub_from pat repl 0 post.
Proof. induction g as [|x g IH]; [reflexivity | exact IH]. Qed.

(** How a substitution of the runs of one class proceeds. *)
Lemma sub_run_ind (P : list ascii -> list ascii -> Prop) :
  P [] [] ->
  (forall c s out, p c = false -> P s out -> P (c :: s) (c :: out)) ->
  (forall g post out,
      g <> [] -> all_in p g -> stops p post -> P post out ->
      P (g ++ post) (repl ++ out)) ->
  forall s, P s (PdfParser.sub_from [GroupPlus p] repl 0 s).
Proof.
  intros Hnil Hkeep Hrun s.
  remember (length s) as n eqn:Hn. revert s Hn.
  induction n as [n IH] using lt_wf_ind. intros s Hn.
  destruct s as [|c s]; [exact Hnil|].
  destruct (p c) eqn:Hc.
  - destruct (span_run s) as (g & post & -> & Hall & Hstop).
    assert (Hm : match_here [GroupPlus p] ((c :: g) ++ post)
                 = Some ([c :: g], post)).
    { apply match_run; [discriminate | constructor; assumption | exact Hstop]. }
    cbn [PdfParser.sub_from]. cbn [app] in Hm. rewrite Hm.
    assert (Hlen : (length post =? length (c :: g ++ post))%nat = false).
    { apply Nat.eqb_neq. cbn [length]. rewrite length_app. lia. }
    rewrite Hlen.
    replace (length (c :: g ++ post) - length post - 1)%nat with (length g)
      by (cbn [length]; rewrite length_app; lia).
    rewrite sub_from_skip.
    apply (Hrun (c :: g) post); [discriminate | constructor; assumption
                                 | exact Hstop |].
    apply (IH (length post)); [|reflexivity].
    subst n. cbn [length]. rewrite length_app. lia.
  - cbn [PdfParser.sub_from].
    rewrite (match_run_none (c :: s)) by exact Hc.
    apply Hkeep; [exact Hc|].
    apply (IH (length s)); [subst n; simpl; lia | reflexivity].
Qed.

End SubFacts.

Section CleanTextFacts.
Import Re.

(** Deleting the runs of a class is filtering. *)
Lemma sub_delete p s :
  PdfParser.sub_from [GroupPlus p] [] 0 s
  = List.filter (fun c => negb (p c)) s.
Proof.
  apply (sub_run_ind p [] (fun s out =>
           out = List.filter (fun c => negb (p c)) s)).
  - reflexivity.
  - intros c s' out Hc ->. simpl. rewrite Hc. reflexivity.
  - intros g post out _ Hall _ ->. rewrite List.filter_app.
    assert (Hg : List.filter (fun c => negb (p c)) g = []).
    { induction Hall as [|x g Hx _ IHg]; simpl; [reflexivity|].
      rewrite Hx. exact IHg. }
    rewrite Hg. reflexivity.
Qed.

(** After the whitespace runs are replaced by a space, the space is the
    only whitespace left. *)
Lemma sub_whitespace s :
  Forall (fun c => Py.isspace c = true -> c = " "%char)
         (PdfParser.sub_from PdfParser.whitespace_run [" "%char] 0 s).
Proof.
  apply (sub_run_ind Py.isspace [" "%char]
           (fun _ out => Forall (fun c => Py.isspace c = true -> c = " "%char)
                                out)).
  - constructor.
  - intros c s' out Hc Hout. constructor; [|exact Hout]. congruence.
  - intros g post out _ _ _ Hout. constructor; [reflexivity | exact Hout].
Qed.

(** A substitution never makes the text longer when the replacement is
    at most one character. *)
Lemma sub_run_length p repl s :
  (length repl <= 1)%nat ->
  (length (PdfParser.sub_from [GroupPlus p] repl 0 s) <= length s)%nat.
Proof.
  intros Hrepl.
  apply (sub_run_ind p repl (fun s out => (length out <= length s)%nat)).
  - reflexivity.
  - intros c s' out _ H. simpl. lia.
  - intros g post out Hne _ _ H. rewrite !length_app.
    destruct g; [contradiction|]. simpl. lia.
Qed.

(** A pattern that starts with a literal finds nothing in a text without
    that character. *)
Lemma sub_from_absent c pat repl s :
  ~ In c s -> PdfParser.sub_from (Lit c :: pat) repl 0 s = s.
Proof.
  induction s as [|x s IH]; intros Hno; [reflexivity|].
  cbn [PdfParser.sub_from].
  destruct (match_here (Lit c :: pat) (x :: s)) as [[gs rest]|] eqn:Hm.
  - apply match_lit_inv in Hm as (s' & [= -> ->] & _).
    exfalso. apply Hno. left. reflexivity.
  - f_equal. apply IH. intros H. apply Hno. right. exact H.
Qed.

Lemma lstrip_split s :
  exists sp, s = sp ++ Py.lstrip s /\ all_in Py.isspace sp
             /\ stops Py.isspace (Py.lstrip s).
Proof.
  induction s as [|c s (sp & Hs & Hall & Hstop)].
  - exists []. repeat split. constructor.
  - simpl. destruct (Py.isspace c) eqn:Hc.
    + exists (c :: sp). split; [simpl; f_equal; exact Hs|].
      split; [constructor; assumption | exact Hstop].
    + exists []. split; [reflexivity|]. split; [constructor | exact Hc].
Qed.

(** [strip] keeps a middle part of the text that neither starts nor ends
    with whitespace. *)
Lemma strip_split s :
  exists l r,
    s = l ++ Py.strip s ++ r
    /\ stops Py.isspace (Py.strip s)
    /\ stops Py.isspace (rev (Py.strip s)).
Proof.
  unfold Py.strip.
  destruct (lstrip_split s) as (l & Hs & _ & Hstop).
  destruct (lstrip_split (rev (Py.lstrip s))) as (r & Hr & _ & Hstop').
  set (t := Py.lstrip s) in *.
  set (u := Py.lstrip (rev t)) in *.
  assert (Ht : t = rev u ++ rev r).
  { rewrite <- rev_app_distr, <- Hr, rev_involutive. reflexivity. }
  exists l, (rev r). split; [rewrite <- Ht; exact Hs|].
  split; [|rewrite rev_involutive; exact Hstop'].
  destruct (rev u) as [|x v] eqn:E; [exact I|].
  rewrite Ht in Hstop. exact Hstop.
Qed.

Lemma Forall_middle {T} (P : T -> Prop) l m r :
  Forall P (l ++ m ++ r) -> Forall P m.
Proof.
  intros H. apply Forall_app in H as [_ H].
  apply Forall_app in H as [H _]. exact H.
Qed.

End CleanTextFacts.

(** X25.  [_clean_text] returns ASCII text in which the space is the only
    whitespace, which neither starts nor ends with a space and is no
    longer than the input.  The page-number substitution never applies,
    because no newline survives the whitespace normalisation: the result
    is the stripped text after the first two substitutions. *)
Theorem clean_text_output (text : string) :
  let out := list_ascii_of_string (PdfParser._clean_text text) in
  Forall PdfParser.clean_char out
  /\ Re.stops Py.isspace out
  /\ Re.stops Py.isspace (rev out)
  /\ (length out <= String.length text)%nat
  /\ PdfParser._clean_text text
     = string_of_list_ascii
         (Py.strip
            (List.filter (fun c => negb (PdfParser.non_ascii c))
               (PdfParser.sub_from PdfParser.whitespace_run [" "%char] 0
                  (list_ascii_of_string text)))).
Proof.
  set (squeezed := PdfParser.sub_from PdfParser.whitespace_run [" "%char] 0
                     (list_ascii_of_string text)).
  set (kept := List.filter (fun c => negb (PdfParser.non_ascii c)) squeezed).
  assert (Hkept : Forall PdfParser.clean_char kept).
  { apply List.Forall_forall. intros c Hc.
    apply List.filter_In in Hc as [Hc Hascii].
    pose proof (sub_whitespace (list_ascii_of_string text)) as Hws.
    rewrite List.Forall_forall in Hws. split; [|apply Hws, Hc].
    unfold PdfParser.non_ascii in Hascii.
    apply negb_true_iff, N.leb_gt in Hascii. exact Hascii. }
  assert (Hnl : ~ In PdfParser.newline kept).
  { intros Hin. rewrite List.Forall_forall in Hkept.
    destruct (Hkept _ Hin) as [_ H]. specialize (H eq_refl). discriminate. }
  assert (Heq : PdfParser._clean_text text
                = string_of_list_ascii (Py.strip kept)).
  { unfold PdfParser._clean_text, PdfParser.sub. cbv zeta.
    rewrite !list_ascii_of_string_of_list_ascii.
    change (list_ascii_of_string " ") with [" "%char].
    change (list_ascii_of_string "") with (@nil ascii).
    fold squeezed. unfold PdfParser.non_ascii_run.
    rewrite sub_delete. fold kept.
    unfold PdfParser.page_number.
    rewrite sub_from_absent by exact Hnl. reflexivity. }
  cbv zeta. rewrite Heq, list_ascii_of_string_of_list_ascii.
  destruct (strip_split kept) as (l & r & Hsplit & Hhd & Hlast).
  split; [|split; [exact Hhd | split; [exact Hlast | split; [|reflexivity]]]].
  - rewrite Hsplit in Hkept. eapply Forall_middle, Hkept.
  - assert (H1 : (length (Py.strip kept) <= length kept)%nat).
    { rewrite Hsplit at 2. rewrite !length_app. lia. }
    assert (H2 : (length kept <= length squeezed)%nat)
      by apply List.filter_length_le.
    assert (H3 : (length squeezed
                  <= length (list_ascii_of_string text))%nat)
      by (apply sub_run_length; simpl; lia).
    assert (H4 : length (list_ascii_of_string text) = String.length text).
    { clear. induction text as [|c t IH]; simpl; [reflexivity|].
      rewrite IH. reflexivity. }
    lia.
Qed.


(* ===================================================================== *)
(** * Chunk ids as citations                                              *)
(* ===================================================================== *)

Section CitableFacts.
Import Re.

Lemma uint_of_string_word s d :
  NilEmpty.uint_of_string s = Some d ->
  all_in word (list_ascii_of_string s).
Proof.
  revert d. induction s as [|a s IH]; intros d H; simpl; [constructor|].
  simpl in H.
  destruct (NilEmpty.uint_of_string s) as [d'|] eqn:E.
  - constructor; [|eapply IH; reflexivity].
    destruct a as [[] [] [] [] [] [] [] []];
      try discriminate; reflexivity.
  - destruct a as [[] [] [] [] [] [] [] []]; discriminate.
Qed.

Lemma fmt_03d_word n :
  0 <= n -> all_in word (list_ascii_of_string (Py.fmt_03d n)).
Proof.
  intros Hn. pose proof (decimal_value_fmt_03d n Hn) as H.
  unfold decimal_value in H.
  destruct (NilEmpty.uint_of_string (Py.fmt_03d n)) as [d|] eqn:E;
    [|discriminate].
  eapply uint_of_string_word, E.
Qed.

(** The chunk ids of a source with a token id are tokens. *)
Lemma chunk_id_token sid n :
  token (list_ascii_of_string sid) -> 0 <= n ->
  token (list_ascii_of_string (sid +:+ "_chunk_" +:+ Py.fmt_03d n)).
Proof.
  intros [Hne Hall] Hn. rewrite !list_ascii_of_string_app. split.
  - destruct (list_ascii_of_string sid); [contradiction | discriminate].
  - apply Forall_app. split; [exact Hall|].
    apply Forall_app. split; [repeat constructor | apply fmt_03d_word, Hn].
Qed.

Lemma cite_pairs_render a b :
  token (list_ascii_of_string a) -> token (list_ascii_of_string b) ->
  cite_pairs (render a b) = [(a, b)].
Proof.
  intros Ha Hb. unfold cite_pairs, findall, render.
  rewrite !list_ascii_of_string_app.
  change (list_ascii_of_string "(") with ["("%char].
  change (list_ascii_of_string ", ") with [","%char; " "%char].
  change (list_ascii_of_string ")") with [")"%char].
  cbn [app].
  change ("("%char :: list_ascii_of_string a
          ++ ","%char :: " "%char :: list_ascii_of_string b ++ [")"%char])
    with ("("%char :: list_ascii_of_string a
          ++ ","%char :: [" "%char] ++ list_ascii_of_string b ++ [")"%char]).
  cbn [findall_from].
  rewrite (match_citation_spaced _ _ [" "%char] Ha Hb)
    by (repeat constructor).
  cbn [length]. rewrite Nat.sub_0_r.
  replace (S (length (list_ascii_of_string a
                      ++ ","%char :: [" "%char]
                      ++ list_ascii_of_string b ++ [")"%char])) - 1)%nat
    with (length (list_ascii_of_string a
                  ++ ","%char :: [" "%char]
                  ++ list_ascii_of_string b ++ [")"%char])) by lia.
  rewrite findall_from_skip_all by reflexivity.
  simpl. rewrite !string_of_list_ascii_of_string. reflexivity.
Qed.

End CitableFacts.

(** X26.  The citation id shown to the model for a chunk made by
    [chunk_text] from a source whose id is a run of [a-z0-9_] is a
    citation that the evaluation accepts: quoted as the answer while the
    chunk is among the retrieved ones, it is extracted as it stands and
    counted valid, with precision 1 and no invalid citation. *)
Theorem shown_citation_id_validates {token : Type}
        (decode : list token -> string) (self : Chunker.TextChunker)
        (tokens : list token) (sid : string) (start n : Z)
        (chunks : list chunk) :
  Re.token (list_ascii_of_string sid) ->
  0 <= n ->
  In (Chunker.make_chunk decode self tokens sid start n) chunks ->
  let c := Chunker.make_chunk decode self tokens sid start n in
  let result := {| answer := Generator.citation_id c;
                   retrieved_chunks := chunks |} in
  extract_citations (answer result) = [Generator.citation_id c]
  /\ Metrics.total_citations (Metrics.citation_precision result) = 1%nat
  /\ Metrics.valid_citations (Metrics.citation_precision result) = 1%nat
  /\ (Metrics.precision (Metrics.citation_precision result) == 1)%Q
  /\ StructuredCitations.invalid_citations
       (StructuredCitations.enhance_answer result) = [].
Proof.
  intros Hsid Hn Hin c result.
  assert (Hcid : Re.token (list_ascii_of_string (chunk_id c)))
    by (apply chunk_id_token; assumption).
  assert (Hpairs : cite_pairs (answer result) = [(sid, chunk_id c)])
    by (apply (cite_pairs_render sid (chunk_id c)); assumption).
  assert (Hret : retrieved result (chunk_id c) = true).
  { unfold retrieved. apply existsb_exists. exists c.
    split; [exact Hin | apply String.eqb_refl]. }
  assert (Hvalid : cited_valid result = [(sid, chunk_id c)]).
  { unfold cited_valid. rewrite Hpairs. cbn [List.filter snd].
    rewrite Hret. reflexivity. }
  assert (Hinvalid : cited_invalid result = []).
  { unfold cited_invalid. rewrite Hpairs. cbn [List.filter snd].
    rewrite Hret. reflexivity. }
  split; [unfold extract_citations; rewrite Hpairs; reflexivity|].
  rewrite citation_precision_eq, enhance_answer_invalid, Hpairs, Hvalid,
    Hinvalid.
  repeat split.
Qed.

Lemma shown_citation_id_validates_witness :
  let c := Chunker.make_chunk Chunker.byte_decode
             {| Chunker.chunk_size := 512; Chunker.overlap := 128 |}
             (Chunker.byte_encode "sleep and mood") "smith2020" 0 1 in
  Re.token (list_ascii_of_string "smith2020")
  /\ 0 <= 1
  /\ In c [c]
  /\ extract_citations "(smith2020, smith2020_chunk_001)"
     = ["(smith2020, smith2020_chunk_001)"].
Proof.
  intros c.
  assert (H1 : Re.token (list_ascii_of_string "smith2020"))
    by (split; [discriminate | repeat constructor]).
  assert (H2 : 0 <= 1) by lia.
  assert (H3 : In c [c]) by (left; reflexivity).
  split; [exact H1|]. split; [exact H2|]. split; [exact H3|].
  exact (proj1 (shown_citation_id_validates Chunker.byte_decode _ _ _ _ _ _
                  H1 H2 H3)).
Defined.


(* ===================================================================== *)
(** * From the built index to the retriever                               *)
(* ===================================================================== *)

(** X27.  For a non-empty list of chunks: when the array of embeddings
    has one row per chunk and the width of the embedder's dimension,
    [build_index] writes an index that a [Retriever] loads back whole: the
    metadata are the chunks, the vectors the rows of the array in the same
    order, and the dimension is the embedder's even when it is not the
    default 384.  Otherwise [build_index] stops with [AssertionError] and
    writes nothing. *)
Theorem built_index_loads_back
        (embed_chunks : list chunk -> Np.ndarray) (dimension : Z)
        (chunks : list chunk) :
  chunks <> [] ->
  let well_shaped :=
    Np.shape0 (embed_chunks chunks) = length chunks
    /\ Np.shape1 (embed_chunks chunks) = dimension in
  (well_shaped ->
   exists index_path store,
     BuildIndex.build_index embed_chunks dimension chunks
     = Py.Ret index_path
     /\ Retriever.init index_path = Py.Ret store
     /\ VectorStore.chunk_metadata store = chunks
     /\ Faiss.xb (VectorStore.index store) = Np.rows (embed_chunks chunks)
     /\ VectorStore.dimension store = dimension
     /\ store_aligned store)
  /\ (~ well_shaped ->
      BuildIndex.build_index embed_chunks dimension chunks
      = Py.Raise Py.AssertionError).
Proof.
  intros _. cbv zeta.
  unfold BuildIndex.build_index, VectorStore.add_chunks, Faiss.add.
  cbn [VectorStore.dimension VectorStore.init VectorStore.index
       VectorStore.chunk_metadata Faiss.d].
  destruct (Nat.eqb_spec (Np.shape0 (embed_chunks chunks)) (length chunks))
    as [Hlen|Hlen]; cbn [negb].
  - destruct (Z.eqb_spec (Np.shape1 (embed_chunks chunks)) dimension)
      as [Hw|Hw]; cbn [negb Py.bind].
    + split; [|intros Hno; exfalso; apply Hno; split; assumption].
      intros _. eexists. eexists. split; [reflexivity|].
      split; [reflexivity|].
      unfold store_aligned. simpl. unfold Np.shape0 in Hlen.
      rewrite Hlen. repeat split.
    + split; [|reflexivity]. intros [_ Hall]. contradiction.
  - split; [|reflexivity]. intros [Hl _]. contradiction.
Qed.

Lemma built_index_loads_back_witness :
  [VectorStore.chunk0] <> []
  /\ exists index_path store,
       BuildIndex.build_index constant_embedder 2 [VectorStore.chunk0]
       = Py.Ret index_path
       /\ Retriever.init index_path = Py.Ret store
       /\ VectorStore.chunk_metadata store = [VectorStore.chunk0]
       /\ VectorStore.dimension store = 2.
Proof.
  assert (Hne : [VectorStore.chunk0] <> []) by discriminate.
  split; [exact Hne|].
  destruct (proj1 (built_index_loads_back constant_embedder 2
                     [VectorStore.chunk0] Hne)
                  (conj eq_refl eq_refl))
    as (index_path & store & Hb & Hi & Hm & _ & Hd & _).
  exists index_path, store. repeat split; assumption.
Defined.

(* ===================================================================== *)
(** * The reference list                                                  *)
(* ===================================================================== *)

Section ReferenceFacts.
Import References.

Lemma string_leb_trans a :
  forall b c, String.leb a b = true -> String.leb b c = true ->
              String.leb a c = true.
Proof.
  unfold String.leb.
  induction a as [|x a IH]; intros [|y b] [|z c]; simpl;
    try reflexivity; try discriminate.
  unfold Ascii.compare.
  destruct (N.compare_spec (N_of_ascii x) (N_of_ascii y)) as [Hxy|Hxy|Hxy];
    destruct (N.compare_spec (N_of_ascii y) (N_of_ascii z)) as [Hyz|Hyz|Hyz];
    destruct (N.compare_spec (N_of_ascii x) (N_of_ascii z)) as [Hxz|Hxz|Hxz];
    try discriminate; try reflexivity; try lia.
  apply IH.
Qed.

Lemma string_ltb_leb a b : String.ltb a b = true -> String.leb a b = true.
Proof.
  unfold String.ltb, String.leb. destruct (String.compare a b);
    congruence.
Qed.

Lemma string_ltb_false a b : String.ltb a b = false -> String.leb b a = true.
Proof.
  unfold String.ltb, String.leb. rewrite (String.compare_antisym b a).
  destruct (String.compare a b); simpl; congruence.
Qed.

Lemma insert_sorted_perm x l : Permutation (x :: l) (insert_sorted x l).
Proof.
  induction l as [|y t IH]; simpl; [reflexivity|].
  destruct (String.ltb x y); [reflexivity|].
  rewrite perm_swap. constructor. exact IH.
Qed.

Lemma insert_sorted_hd x l a :
  HdRel str_le a l -> str_le a x -> HdRel str_le a (insert_sorted x l).
Proof.
  intros Hl Hx. destruct l as [|y t]; simpl; [constructor; exact Hx|].
  destruct (String.ltb x y); constructor; [exact Hx|].
  inversion Hl; assumption.
Qed.

Lemma insert_sorted_sorted x l :
  Sorted str_le l -> Sorted str_le (insert_sorted x l).
Proof.
  induction 1 as [|y t Ht IH Hy]; simpl; [repeat constructor|].
  destruct (String.ltb x y) eqn:Hlt.
  - constructor; [constructor; assumption|]. constructor.
    apply string_ltb_leb, Hlt.
  - constructor; [exact IH|].
    apply insert_sorted_hd; [exact Hy | apply string_ltb_false, Hlt].
Qed.

Lemma sorted_spec (source_ids : gset string) :
  StronglySorted str_le (sorted source_ids)
  /\ List.NoDup (sorted source_ids)
  /\ forall s, In s (sorted source_ids) <-> s ∈ source_ids.
Proof.
  unfold sorted.
  assert (Hgen : forall l acc,
             Sorted str_le acc ->
             Sorted str_le (fold_left (fun acc x => insert_sorted x acc) l acc)
             /\ Permutation (l ++ acc)
                  (fold_left (fun acc x => insert_sorted x acc) l acc)).
  { induction l as [|x l IH]; intros acc Hacc; simpl.
    - split; [exact Hacc | reflexivity].
    - destruct (IH (insert_sorted x acc) (insert_sorted_sorted x acc Hacc))
        as [Hs Hp].
      split; [exact Hs|]. rewrite <- Hp, <- insert_sorted_perm.
      apply Permutation_middle. }
  destruct (Hgen (elements source_ids) [] ltac:(constructor)) as [Hs Hp].
  rewrite app_nil_r in Hp.
  split; [|split].
  - apply Sorted_StronglySorted; [|exact Hs].
    intros a b c. apply string_leb_trans.
  - eapply Permutation_NoDup; [exact Hp|].
    apply NoDup_ListNoDup, NoDup_elements.
  - intros s. rewrite <- elem_of_elements, list_elem_of_In.
    split; apply Permutation_in; [symmetry|]; exact Hp.
Qed.

(** The lines are those of the listed ids that the manifest knows, in
    the same order. *)
Lemma refs_entries (md : gmap string manifest_item) l :
  StronglySorted str_le l -> List.NoDup l ->
  exists entries : list (string * manifest_item),
    flat_map (fun source_id =>
                match md !! source_id with
                | Some item => [reference source_id item]
                | None => []
                end) l
    = map (fun e => reference (fst e) (snd e)) entries
    /\ Forall (fun e => md !! fst e = Some (snd e)) entries
    /\ StronglySorted str_le (map fst entries)
    /\ List.NoDup (map fst entries)
    /\ forall s, In s (map fst entries) <-> In s l /\ is_Some (md !! s).
Proof.
  induction 1 as [|s l Hs IH Hall]; intros Hnd.
  - exists []. split; [reflexivity|]. split; [constructor|].
    split; [constructor|]. split; [constructor|].
    intros s. simpl. tauto.
  - inversion Hnd as [|? ? Hnotin Hnd']; subst.
    destruct (IH Hnd') as (entries & Hlines & Hmd & Hsorted & Hnodup & Hin).
    destruct (md !! s) as [item|] eqn:Hlook.
    + exists ((s, item) :: entries). cbn [flat_map map fst snd app].
      rewrite Hlook. cbn [app].
      split; [f_equal; exact Hlines|].
      split; [constructor; [exact Hlook | exact Hmd]|].
      split.
      { constructor; [exact Hsorted|].
        apply List.Forall_forall. intros x Hx. apply Hin in Hx as [Hx _].
        rewrite List.Forall_forall in Hall. apply Hall, Hx. }
      split.
      { constructor; [|exact Hnodup]. intros Hx. apply Hin in Hx as [Hx _].
        contradiction. }
      intros x. cbn [map fst]. split.
      * intros [<-|Hx]; [split; [left; reflexivity | eauto]|].
        apply Hin in Hx as [Hx Hsome].
        split; [right; exact Hx | exact Hsome].
      * intros [[<-|Hx] Hsome]; [left; reflexivity|].
        right. apply Hin. split; assumption.
    + exists entries. cbn [flat_map]. rewrite Hlook. cbn [app].
      split; [exact Hlines|]. split; [exact Hmd|].
      split; [exact Hsorted|]. split; [exact Hnodup|].
      intros x. rewrite Hin. split.
      * intros [Hx Hsome]. split; [right; exact Hx | exact Hsome].
      * intros [[<-|Hx] Hsome]; [|tauto].
        rewrite Hlook in Hsome. destruct Hsome as [? Hsome]. discriminate.
Qed.

End ReferenceFacts.

(** X28.  The reference list has one line per cited source that the
    manifest knows, in ascending order of the source id and without
    repetition; a cited source that the manifest does not know gets no
    line. *)
Theorem reference_list_lists_known_cited_sources
        (manifest : list References.manifest_item) (result : query_result) :
  exists entries : list (string * References.manifest_item),
    References.reference_list manifest result
    = String.concat (String PdfParser.newline "")
        (map (fun e => References.reference (fst e) (snd e)) entries)
    /\ Forall (fun e => References.manifest_dict manifest !! fst e
                        = Some (snd e)) entries
    /\ StronglySorted References.str_le (map fst entries)
    /\ List.NoDup (map fst entries)
    /\ forall s,
         In s (map fst entries)
         <-> In s (map fst (cite_pairs (answer result)))
             /\ is_Some (References.manifest_dict manifest !! s).
Proof.
  unfold References.reference_list, References._build_references,
    References.refs, extract_citations. cbv zeta.
  rewrite source_fold by apply cite_pairs_tokens.
  set (ids := list_to_set (map fst (cite_pairs (answer result))) ∪ ∅).
  destruct (sorted_spec ids) as (Hs & Hnd & Hin).
  destruct (refs_entries (References.manifest_dict manifest)
              (References.sorted ids) Hs Hnd)
    as (entries & Hlines & Hmd & Hsorted & Hnodup & Hmem).
  exists entries. rewrite Hlines.
  split; [reflexivity|]. split; [exact Hmd|]. split; [exact Hsorted|].
  split; [exact Hnodup|].
  intros s. rewrite Hmem, Hin. subst ids.
  rewrite elem_of_union, elem_of_list_to_set, list_elem_of_In.
  split; [intros [[H|H] Hsome]; [tauto | inversion H] | tauto].
Qed.
